(** * go-npm-run: script discovery over a tree of package.json files

    A shallow embedding of the Go sources of go-npm-run and the proofs of
    the properties stated about them.  The repository holds four successive
    iterations of one [package main]:

    - [Main]     (main.go)  the first iteration: a plain directory walk and a
                 per-manifest extractor that returns its scripts;
    - [Part000]  (unnamed/part_000) adds recursive expansion of the
                 [workspaces] array and of [pnpm-workspace.yaml]
                 (unnamed/part_001 is this iteration without the
                 [pnpm-workspace.yaml] block and has no module of its own);
    - [Part002]  (unnamed/part_002) the last iteration: ignore set, package
                 roots as walk boundaries, the [isLeaf] flag, the object form
                 of [workspaces], goroutine-per-manifest extraction.

    Go's [string] is Rocq's [string]; [map[string]bool] used as a set is a
    [gset string]; channels are lists in arrival order; goroutines are the
    tasks of a pool that an arbitrary scheduler fires one at a time. *)

From Stdlib Require Import Ascii String.
From stdpp Require Import gmap strings list relations.

Set Warnings "-register-all,-clear-no-such-hyp".

(* ===================================================================== *)
(** * Go's [strings] package, the functions the program calls *)
(* ===================================================================== *)

Module strings.

(** [strings.IndexByte(s, c) >= 0] *)
Fixpoint ContainsByte (c : ascii) (s : string) : bool :=
  match s with
  | EmptyString => false
  | String d s' => if Ascii.eqb c d then true else ContainsByte c s'
  end.

(** [strings.ContainsAny(s, chars)] *)
Fixpoint ContainsAny (s chars : string) : bool :=
  match s with
  | EmptyString => false
  | String c s' => if ContainsByte c chars then true else ContainsAny s' chars
  end.

(** [strings.HasPrefix(s, prefix)] *)
Definition HasPrefix (s pre : string) : bool := String.prefix pre s.

(** [strings.TrimPrefix(s, prefix)] *)
Definition TrimPrefix (s pre : string) : string :=
  if HasPrefix s pre
  then String.substring (String.length pre) (String.length s - String.length pre) s
  else s.

(** White space as [unicode.IsSpace] sees it on ASCII bytes:
    space, \t, \n, \v, \f, \r. *)
Definition isSpace (c : ascii) : bool :=
  let n := nat_of_ascii c in
  (Nat.eqb n 32 || (Nat.leb 9 n && Nat.leb n 13))%bool.

Fixpoint TrimLeft (s : string) : string :=
  match s with
  | String c s' => if isSpace c then TrimLeft s' else s
  | EmptyString => EmptyString
  end.

Fixpoint TrimRight (s : string) : string :=
  match s with
  | EmptyString => EmptyString
  | String c s' =>
      match TrimRight s' with
      | EmptyString => if isSpace c then EmptyString else String c EmptyString
      | t => String c t
      end
  end.

(** [strings.TrimSpace(s)] *)
Definition TrimSpace (s : string) : string := TrimRight (TrimLeft s).

(** [strings.Split(s, string(sep))] for a one-byte separator. *)
Fixpoint Split (s : string) (sep : ascii) : list string :=
  match s with
  | EmptyString => [EmptyString]
  | String c s' =>
      if Ascii.eqb c sep then EmptyString :: Split s' sep
      else match Split s' sep with
           | x :: r => String c x :: r
           | [] => [String c EmptyString]
           end
  end.

(** [strings.Join(elems, sep)] *)
Fixpoint Join (l : list string) (sep : string) : string :=
  match l with
  | [] => ""
  | [x] => x
  | x :: r => x +:+ sep +:+ Join r sep
  end.

End strings.

(* ===================================================================== *)
(** * Go's [path/filepath] on Unix: [Clean], [Dir], [Join] *)
(* ===================================================================== *)

Module filepath.

Definition Separator : ascii := "/"%char.

Definition IsAbs (p : string) : bool := strings.HasPrefix p "/".

(** One element of the path seen by [Clean]; [out] is the stack of the
    elements kept so far, last one first.  Empty and "." elements vanish,
    ".." removes the element before it when there is one to remove, is
    dropped at the root of a rooted path and is kept otherwise. *)
Definition cleanStep (rooted : bool) (out : list string) (c : string) : list string :=
  if String.eqb c "" then out
  else if String.eqb c "." then out
  else if String.eqb c ".." then
    match out with
    | top :: rest => if String.eqb top ".." then c :: out else rest
    | [] => if rooted then [] else [c]
    end
  else c :: out.

(** The elements [Clean] keeps, first one first. *)
Definition elements (p : string) : list string :=
  rev (fold_left (cleanStep (IsAbs p)) (strings.Split p Separator) []).

(** A rooted flag and the kept elements, as a path string. *)
Definition render (rooted : bool) (out : list string) : string :=
  match rooted, out with
  | true, _ => "/" +:+ strings.Join out "/"
  | false, [] => "."
  | false, _ => strings.Join out "/"
  end.

(** [filepath.Clean(path)] *)
Definition Clean (p : string) : string :=
  if String.eqb p "" then "." else render (IsAbs p) (elements p).

(** [path[:i+1]] for [i] the index of the last separator of [path]. *)
Fixpoint dirPart (p : string) : string :=
  match p with
  | EmptyString => EmptyString
  | String c p' =>
      if strings.ContainsByte Separator p then String c (dirPart p') else EmptyString
  end.

(** [filepath.Dir(path)] *)
Definition Dir (p : string) : string := Clean (dirPart p).

(** [filepath.Join(a, b)]: empty elements are ignored, the rest is joined
    with the separator and cleaned. *)
Definition Join (a b : string) : string :=
  if String.eqb a "" then (if String.eqb b "" then "" else Clean b)
  else Clean (a +:+ "/" +:+ b).

End filepath.

(** Path elements: without a separator; [Clean] keeps them; names. *)
Definition noSeparator (x : string) : Prop := strings.ContainsByte filepath.Separator x = false.

Definition plainName (x : string) : Prop := x ≠ "" ∧ x ≠ "." ∧ noSeparator x.

Definition properName (x : string) : Prop := plainName x ∧ x ≠ "..".

(** The stack of [Clean]: plain elements, the ".." ones at the bottom and
    none of them in a rooted path. *)
Definition keptStack (rooted : bool) (stack : list string) : Prop :=
  Forall plainName stack
  ∧ ∃ tops k, stack = tops ++ replicate k ".."
              ∧ Forall (fun x => x ≠ "..") tops
              ∧ (rooted = true → k = 0).

(* ===================================================================== *)
(** * Documents: JSON texts and the Go values [encoding/json] decodes them to *)
(* ===================================================================== *)

(** A JSON text.  Numbers carry an integer: no function of the program
    inspects a number. *)
Inductive json :=
| JNull
| JBool (b : bool)
| JNumber (n : Z)
| JString (s : string)
| JArray (items : list json)
| JObject (members : list (string * json)).

(** The dynamic types a Go [any] takes in this program: the five that
    [json.Unmarshal] stores in an interface value, [nil], and [[]string],
    which the last iteration's type switch names. *)
Inductive any :=
| AnyNil
| AnyBool (b : bool)
| AnyFloat64 (n : Z)
| AnyString (s : string)
| AnySlice (items : list any)            (* []any *)
| AnyMap (m : list (string * any))       (* map[string]any *)
| AnyStrings (items : list string).      (* []string *)

(** [m[k] = v] on a Go map kept as a list of its entries: a key occurs once. *)
Fixpoint mapassign (m : list (string * any)) (k : string) (v : any) : list (string * any) :=
  match m with
  | [] => [(k, v)]
  | (k', v') :: r => if String.eqb k k' then (k, v) :: r else (k', v') :: mapassign r k v
  end.

(** [m[k]]: the zero value of [any], [nil], for a missing key. *)
Fixpoint mapaccess (m : list (string * any)) (k : string) : any :=
  match m with
  | [] => AnyNil
  | (k', v) :: r => if String.eqb k k' then v else mapaccess r k
  end.

(** What [json.Unmarshal] stores into an interface value: objects become
    [map[string]any] (a repeated key keeps its last value), arrays become
    [[]any], never [[]string]. *)
Fixpoint decode (j : json) : any :=
  match j with
  | JNull => AnyNil
  | JBool b => AnyBool b
  | JNumber n => AnyFloat64 n
  | JString s => AnyString s
  | JArray items => AnySlice (map decode items)
  | JObject members =>
      AnyMap (fold_left (fun m kv => mapassign m (fst kv) (decode (snd kv))) members [])
  end.

(** What a file holds, as far as the two decoders of the program go. *)
Inductive content :=
| Blob                             (* bytes that neither decoder accepts *)
| JSONText (j : json)              (* a JSON text *)
| YAMLText (packages : list string). (* a YAML mapping; its [packages] list *)

(** [json.Unmarshal(data, &packageJSON)] for [packageJSON : map[string]any]:
    an object fills the map, [null] leaves it nil (empty), anything else is
    an error. *)
Definition json_Unmarshal (data : content) : option (list (string * any)) :=
  match data with
  | JSONText (JObject members) =>
      match decode (JObject members) with
      | AnyMap m => Some m
      | _ => None
      end
  | JSONText JNull => Some []
  | _ => None
  end.

(** [yaml.Unmarshal(data, &ws)] for [ws : pnpmWorkspace]: the [Packages]
    field. *)
Definition yaml_Unmarshal (data : content) : option (list string) :=
  match data with
  | YAMLText packages => Some packages
  | _ => None
  end.

(* ===================================================================== *)
(** * The file system *)
(* ===================================================================== *)

(** A directory tree.  [readable] is whether the process has access to
    the directory: [os.Open] and [Readdir(-1)] succeed on it and [os.Stat]
    reaches what lies below it.  A directory without access (mode 000, or
    444: listing it needs [lstat] on its entries, which fails as [os.Stat]
    does) can itself be named, and nothing below it can.  A directory that
    can be searched and not read, and symbolic links, are not modelled. *)
Inductive node :=
| File (data : content)
| Dir (readable : bool) (entries : list (string * node)).

(** What the program asks of the operating system, by path string. *)
Record FS := {
  Stat : string → bool;                   (* [os.Stat(p)] returns a nil error *)
  ReadFile : string → option content;     (* [os.Open(p)] then [io.ReadAll] *)
  Glob : string → option (list string);   (* [filepath.Glob(p)]; [None] is [ErrBadPattern] *)
}.

(** The tree below "/" and the working directory of the process. *)
Record filesystem := { root : node; cwd : list string }.

Module os.

Fixpoint entry (name : string) (entries : list (string * node)) : option node :=
  match entries with
  | [] => None
  | (n, c) :: r => if String.eqb name n then Some c else entry name r
  end.

Fixpoint walk (n : node) (elems : list string) : option node :=
  match elems with
  | [] => Some n
  | e :: r =>
      match n with
      | Dir true entries =>
          match entry e entries with
          | Some c => walk c r
          | None => None
          end
      | _ => None
      end
  end.

(** The node a path names; a relative path starts at the working directory. *)
Definition resolve (w : filesystem) (p : string) : option node :=
  if String.eqb p "" then None
  else if filepath.IsAbs p then walk (root w) (filepath.elements p)
  else walk (root w)
         (rev (fold_left (filepath.cleanStep true) (cwd w ++ filepath.elements p) [])).

Definition Stat (w : filesystem) (p : string) : bool :=
  match resolve w p with Some _ => true | None => false end.

Definition ReadFile (w : filesystem) (p : string) : option content :=
  match resolve w p with Some (File data) => Some data | _ => None end.

End os.

(* ===================================================================== *)
(** * [filepath.Match] and [filepath.Glob] over the tree *)
(* ===================================================================== *)

Module glob.

Inductive term :=
| Star                                               (* '*' *)
| AnyChar                                            (* '?' *)
| Lit (c : ascii)                                    (* c, or '\\' c *)
| Class (negated : bool) (ranges : list (ascii * ascii)). (* '[' [ '^' ] { range } ']' *)

(** [getEsc]: one character of a class, possibly escaped; the class must
    go on after it. *)
Definition getEsc (chunk : string) : option (ascii * string) :=
  match chunk with
  | EmptyString => None
  | String c rest =>
      if (Ascii.eqb c "-" || Ascii.eqb c "]")%bool then None
      else
        let esc :=
          if Ascii.eqb c "\" then
            match rest with
            | EmptyString => None
            | String d rest' => Some (d, rest')
            end
          else Some (c, rest) in
        match esc with
        | Some (r, EmptyString) => None
        | other => other
        end
  end.

Fixpoint ranges (fuel : nat) (chunk : string) (acc : list (ascii * ascii))
  : option (list (ascii * ascii) * string) :=
  match fuel with
  | O => None
  | S fuel' =>
      match chunk, acc with
      | String "]" rest, _ :: _ => Some (rev acc, rest)
      | _, _ =>
          match getEsc chunk with
          | None => None
          | Some (lo, String "-" rest) =>
              match getEsc rest with
              | None => None
              | Some (hi, chunk') => ranges fuel' chunk' ((lo, hi) :: acc)
              end
          | Some (lo, chunk') => ranges fuel' chunk' ((lo, lo) :: acc)
          end
      end
  end.

(** The terms of a pattern; [None] is [ErrBadPattern]. *)
Fixpoint terms (fuel : nat) (pattern : string) : option (list term) :=
  match fuel with
  | O => None
  | S fuel' =>
      match pattern with
      | EmptyString => Some []
      | String "*" r => cons Star <$> terms fuel' r
      | String "?" r => cons AnyChar <$> terms fuel' r
      | String "\" EmptyString => None
      | String "\" (String c r) => cons (Lit c) <$> terms fuel' r
      | String "[" r =>
          let '(negated, r1) :=
            match r with
            | String "^" r' => (true, r')
            | _ => (false, r)
            end in
          match ranges fuel' r1 [] with
          | None => None
          | Some (rs, r2) => cons (Class negated rs) <$> terms fuel' r2
          end
      | String c r => cons (Lit c) <$> terms fuel' r
      end
  end.

Definition parse (pattern : string) : option (list term) :=
  terms (S (String.length pattern)) pattern.

Definition inRanges (c : ascii) (rs : list (ascii * ascii)) : bool :=
  existsb (fun r => (Nat.leb (nat_of_ascii (fst r)) (nat_of_ascii c)
                     && Nat.leb (nat_of_ascii c) (nat_of_ascii (snd r)))%bool) rs.

Fixpoint matches (ts : list term) (name : string) : bool :=
  match ts with
  | [] => String.eqb name ""
  | Star :: ts' =>
      (fix star (s : string) : bool :=
         (matches ts' s ||
          match s with
          | EmptyString => false
          | String c s' => negb (Ascii.eqb c filepath.Separator) && star s'
          end)%bool) name
  | AnyChar :: ts' =>
      match name with
      | String c s' => (negb (Ascii.eqb c filepath.Separator) && matches ts' s')%bool
      | EmptyString => false
      end
  | Lit c :: ts' =>
      match name with
      | String d s' => (Ascii.eqb c d && matches ts' s')%bool
      | EmptyString => false
      end
  | Class negated rs :: ts' =>
      match name with
      | String d s' => (xorb negated (inRanges d rs) && matches ts' s')%bool
      | EmptyString => false
      end
  end.

(** [filepath.Match(pattern, name)] on a well-formed pattern. *)
Definition Match (pattern name : string) : bool :=
  match parse pattern with
  | Some ts => matches ts name
  | None => false
  end.

Definition hasMeta (path : string) : bool := strings.ContainsAny path "*?[\".

(** [path[i+1:]] for [i] the index of the last separator of [path]. *)
Fixpoint filePart (p : string) : string :=
  match p with
  | EmptyString => EmptyString
  | String c p' => if strings.ContainsByte filepath.Separator p then filePart p' else p
  end.

Definition cleanGlobPath (dir : string) : string :=
  if String.eqb dir "" then "."
  else if String.eqb dir "/" then "/"
  else String.substring 0 (String.length dir - 1) dir.

(** [glob(dir, pattern, matches)]: the entries of [dir] whose name matches.
    (Go sorts the names first; no caller depends on the order.) *)
Definition globDir (w : filesystem) (dir pattern : string) (found : list string) : list string :=
  match os.resolve w dir with
  | Some (Dir true entries) =>
      found ++ (filepath.Join dir <$> filter (fun n => Is_true (Match pattern n)) (fst <$> entries))
  | _ => found
  end.

Fixpoint GlobFuel (fuel : nat) (w : filesystem) (pattern : string) : option (list string) :=
  match fuel with
  | O => None
  | S fuel' =>
      match parse pattern with
      | None => None
      | Some _ =>
          if negb (hasMeta pattern)
          then Some (if os.Stat w pattern then [pattern] else [])
          else
            let dir := cleanGlobPath (filepath.dirPart pattern) in
            let file := filePart pattern in
            if negb (hasMeta dir) then Some (globDir w dir file [])
            else if String.eqb dir pattern then None
            else
              match GlobFuel fuel' w dir with
              | None => None
              | Some m => Some (fold_left (fun found d => globDir w d file found) m [])
              end
      end
  end.

(** [filepath.Glob(pattern)] *)
Definition Glob (w : filesystem) (pattern : string) : option (list string) :=
  GlobFuel (S (String.length pattern)) w pattern.

End glob.

(** The operating system over a tree. *)
Definition mount (w : filesystem) : FS :=
  {| Stat := os.Stat w; ReadFile := os.ReadFile w; Glob := glob.Glob w |}.

(* ===================================================================== *)
(** * Goroutines as a pool of tasks *)
(* ===================================================================== *)

(** Every [go f(...)] of the program adds a task to one pool, counted by one
    [sync.WaitGroup]; every task sends to one channel, which [main] drains
    until the counter is back to zero.  A task of type [T] fires: it sends
    elements of type [E] and spawns tasks, or it panics ([None]), which
    ends the process.  The scheduler is free to fire any pending task; what
    a task sends in one firing comes from ranging over a Go map, so it
    arrives in any order. *)
Section Pool.

Context {T E : Type}.
Variable fire : T → option (list T * list E).

Inductive pool :=
| Running (pending : list T) (received : list E)
| Crashed.

Inductive pool_step : pool → pool → Prop :=
| pool_fire before t after received spawned sent arrived :
    fire t = Some (spawned, sent) →
    arrived ≡ₚ sent →
    pool_step (Running (before ++ t :: after) received)
              (Running (before ++ spawned ++ after) (received ++ arrived))
| pool_panic before t after received :
    fire t = None →
    pool_step (Running (before ++ t :: after) received) Crashed.

(** A run to completion: the wait group is at zero, the channel is closed,
    and [collected] is what the receiver appended, in arrival order. *)
Definition completes (tasks : list T) (collected : list E) : Prop :=
  rtc pool_step (Running tasks []) (Running [] collected).

(** One schedule, as data: at each step the pending task at index
    [c mod length pending] fires. *)
Fixpoint schedule (choices : list nat) (pending : list T) (received : list E) : option (list E) :=
  match pending, choices with
  | [], _ => Some received
  | _, [] => None
  | _, c :: choices' =>
      let i := c mod length pending in
      match pending !! i with
      | Some t =>
          match fire t with
          | Some (spawned, sent) =>
              schedule choices' (take i pending ++ spawned ++ drop (S i) pending) (received ++ sent)
          | None => None
          end
      | None => None
      end
  end.

End Pool.

Arguments Running {T E} pending received.
Arguments Crashed {T E}.

(* ===================================================================== *)
(** * The script catalog *)
(* ===================================================================== *)

Record NpmScript := {
  PackageName : string;
  ScriptName : string;
  Command : string;
  AbsolutePath : string;
}.

#[global] Instance NpmScript_eq_dec : EqDecision NpmScript.
Proof. solve_decision. Defined.

(** The entry made from one (name, command) pair of a [scripts] mapping. *)
Definition entryOf (packageName filePath : string) (script : string * string) : NpmScript :=
  {| PackageName := packageName; ScriptName := script.1;
     Command := script.2; AbsolutePath := filePath |}.

(** The errors [locatePnpmWorkspaces] returns. *)
Inductive error :=
| ErrOpen                          (* os.Open or io.ReadAll failed *)
| ErrJSON                          (* "failed to parse" *)
| ErrYAML                          (* "parsing YAML" *)
| ErrInclude (pattern : string)    (* "expanding include pattern" *)
| ErrExclude (pattern : string).   (* "expanding exclude pattern" *)

Inductive result (A : Type) :=
| Ok (a : A)
| Err (e : error).

Arguments Ok {A} a.
Arguments Err {A} e.

(** [for name, command := range scriptsMap { scripts = append(scripts,
    NpmScript{..., Command: command.(string), ...}) }]: the assertion
    [command.(string)] has no comma-ok form, it panics ([None]) on a value
    that is not a string. *)
Fixpoint rangeScripts (packageName filePath : string) (scriptsMap : list (string * any))
  : option (list NpmScript) :=
  match scriptsMap with
  | [] => Some []
  | (name, command) :: rest =>
      match command with
      | AnyString c =>
          cons {| PackageName := packageName; ScriptName := name;
                  Command := c; AbsolutePath := filePath |}
            <$> rangeScripts packageName filePath rest
      | _ => None
      end
  end.

(** [packageName := "unknown"; if name, ok := packageJSON["name"].(string); ok
    { packageName = name }] *)
Definition packageNameOf (packageJSON : list (string * any)) : string :=
  match mapaccess packageJSON "name" with
  | AnyString name => name
  | _ => "unknown"
  end.

(** [if scriptsMap, ok := packageJSON["scripts"].(map[string]any); ok { ... }]:
    [Some None] when the assertion fails, [None] when the loop panics. *)
Definition scriptsOf (filePath : string) (packageJSON : list (string * any))
  : option (option (list NpmScript)) :=
  match mapaccess packageJSON "scripts" with
  | AnyMap scriptsMap => Some <$> rangeScripts (packageNameOf packageJSON) filePath scriptsMap
  | _ => Some None
  end.

(** The goroutines of a directory walk: one that has been spawned on a
    directory and has not run yet, one inside its [for _, entry := range
    entries] loop. *)
Inductive walker :=
| Spawned (path : string) (dir : node)
| Ranging (path : string) (entries : list (string * node)).

Definition isDir (n : node) : bool :=
  match n with Dir _ _ => true | File _ => false end.

(** The directory with these entries has one named package.json:
    [os.Stat(filepath.Join(dir, "package.json"))] succeeds when the process
    has access to the directory as well. *)
Definition hasManifest (entries : list (string * node)) : bool :=
  match os.entry "package.json" entries with Some _ => true | None => false end.

(** A name a directory entry can have: not empty, not "." or "..", without
    a separator. *)
Definition validName (name : string) : bool :=
  (negb (String.eqb name "") && negb (String.eqb name ".") && negb (String.eqb name "..")
   && negb (strings.ContainsByte filepath.Separator name))%bool.

(** A tree as a file system has them: in every directory the names are
    valid and no two entries share one. *)
Fixpoint wellFormed (n : node) : bool :=
  match n with
  | File _ => true
  | Dir _ entries =>
      (bool_decide (NoDup (map fst entries))
       && forallb (fun e => validName (fst e) && wellFormed (snd e)) entries)%bool
  end.

(** The number of nodes of a tree, and a measure on the goroutines of a
    walk that every scheduling step lowers. *)
Fixpoint size (n : node) : nat :=
  match n with
  | File _ => 1
  | Dir _ entries => S (sum_list (map (fun e => S (size (snd e))) entries))
  end.

Definition walkWeight (w : walker) : nat :=
  match w with
  | Spawned _ dir => 2 * size dir
  | Ranging _ entries => 1 + sum_list (map (fun e => 2 * size (snd e) + 1) entries)
  end.

(** [inferPackageManager]'s table, in a fixed order (Go ranges over the map
    in an order of its own choosing). *)
Definition knownLockFiles : list (string * string) :=
  [("package-lock.json", "npm"); ("yarn.lock", "yarn"); ("pnpm-lock.yaml", "pnpm");
   ("bun.lock", "bun"); ("bun.lockb", "bun")].

(** [inferPackageManager(filePath)], the same in every iteration:
<<
    dir := filepath.Dir(filePath)
    for dir != "." {
        for lockFile, pkgManager := range knownLockFiles {
            if _, err := os.Stat(filepath.Join(dir, lockFile)); err == nil { return pkgManager }
        }
        dir = filepath.Dir(dir)
    }
    return "npm"
>>
    [fuel] bounds the iterations of the outer loop; [None] is a loop still
    running when the fuel is spent. *)
Fixpoint inferLoop (fuel : nat) (fs : FS) (dir : string) : option string :=
  match fuel with
  | O => None
  | S fuel' =>
      if String.eqb dir "." then Some "npm"
      else
        match List.find (fun lp => Stat fs (filepath.Join dir (fst lp))) knownLockFiles with
        | Some (_, pkgManager) => Some pkgManager
        | None => inferLoop fuel' fs (filepath.Dir dir)
        end
  end.

Definition inferPackageManager (fuel : nat) (fs : FS) (filePath : string) : option string :=
  inferLoop fuel fs (filepath.Dir filePath).

(** The directory the outer loop of [inferPackageManager] is at after [k]
    rounds of [dir = filepath.Dir(dir)]. *)
Definition lockDir (filePath : string) (k : nat) : string :=
  Nat.iter k filepath.Dir (filepath.Dir filePath).

(** A lock file of the table exists in [dir]. *)
Definition holdsLockFile (fs : FS) (dir : string) : bool :=
  existsb (fun lp => Stat fs (filepath.Join dir (fst lp))) knownLockFiles.


(** The manifest at [filePath] can be read and parsed, and its [scripts]
    mapping gives the entry [s]. *)
Definition declares (fs : FS) (filePath : string) (s : NpmScript) : Prop :=
  ∃ byteValue packageJSON scriptsMap,
    ReadFile fs filePath = Some byteValue
    ∧ json_Unmarshal byteValue = Some packageJSON
    ∧ mapaccess packageJSON "scripts" = AnyMap scriptsMap
    ∧ (ScriptName s, AnyString (Command s)) ∈ scriptsMap
    ∧ PackageName s = packageNameOf packageJSON
    ∧ AbsolutePath s = filePath.

(** The first loop of [locatePnpmWorkspaces]: inclusion and exclusion
    patterns, each joined to the workspace root. *)
Definition separate (pnpmWorkspaceRoot : string) (acc : list string * list string)
    (pattern : string) : list string * list string :=
  let trimmed := strings.TrimSpace pattern in
  if strings.HasPrefix trimmed "!"
  then (fst acc, snd acc ++ [filepath.Join pnpmWorkspaceRoot (strings.TrimPrefix trimmed "!")])
  else (fst acc ++ [filepath.Join pnpmWorkspaceRoot trimmed], snd acc).

Definition includePatterns (pnpmWorkspaceRoot : string) (packages : list string) : list string :=
  fst (fold_left (separate pnpmWorkspaceRoot) packages ([], [])).

Definition excludePatterns (pnpmWorkspaceRoot : string) (packages : list string) : list string :=
  snd (fold_left (separate pnpmWorkspaceRoot) packages ([], [])).

(** [matchesSet[match] = true] when [os.Stat(match)] succeeds (both
    branches of the source do the same). *)
Definition addMatch (fs : FS) (matchesSet : gset string) (m : string) : gset string :=
  if Stat fs m then {[m]} ∪ matchesSet else matchesSet.

(** "Process include patterns." *)
Fixpoint processIncludes (fs : FS) (patterns : list string) (matchesSet : gset string)
  : result (gset string) :=
  match patterns with
  | [] => Ok matchesSet
  | pattern :: rest =>
      match Glob fs pattern with
      | None => Err (ErrInclude pattern)
      | Some found => processIncludes fs rest (fold_left (addMatch fs) found matchesSet)
      end
  end.

(** "Process exclusion patterns." *)
Fixpoint processExcludes (fs : FS) (patterns : list string) (matchesSet : gset string)
  : result (gset string) :=
  match patterns with
  | [] => Ok matchesSet
  | pattern :: rest =>
      match Glob fs pattern with
      | None => Err (ErrExclude pattern)
      | Some found =>
          processExcludes fs rest (fold_left (fun s m => s ∖ {[m]}) found matchesSet)
      end
  end.

(** [locatePnpmWorkspaces(pnpmWorkspaceRoot)], the same in part_000 and
    part_002; the returned slice lists the
    set in the order [elements] gives (Go: the order of a map range). *)
Definition locatePnpmWorkspaces (fs : FS) (pnpmWorkspaceRoot : string) : result (list string) :=
  match ReadFile fs (pnpmWorkspaceRoot +:+ "/pnpm-workspace.yaml") with
  | None => Err ErrOpen
  | Some data =>
      match yaml_Unmarshal data with
      | None => Err ErrYAML
      | Some packages =>
          match processIncludes fs (includePatterns pnpmWorkspaceRoot packages) ∅ with
          | Err e => Err e
          | Ok included =>
              match processExcludes fs (excludePatterns pnpmWorkspaceRoot packages) included with
              | Err e => Err e
              | Ok matchesSet => Ok (elements matchesSet)
              end
          end
      end
  end.

(* ===================================================================== *)
(** * The last iteration (unnamed/part_002) *)
(* ===================================================================== *)

Module Part002.

(** [var ignoredDirs map[string]bool] *)
Definition ignoredDirs : gset string :=
  list_to_set
    [".circleci"; ".github"; ".git"; ".hg"; ".svn"; ".idea"; ".vscode"; "node_modules";
     "__tests__"; "__test__"; "__specs__"; "__spec__"; "__mocks__"; "__mock__";
     "__snapshots__"; "__fixtures__"].

Definition ignored (name : string) : bool := bool_decide (name ∈ ignoredDirs).

(** One entry of [for _, entry := range entries] in [findPackageJSON], with
    [descend] for what the goroutine spawned on a subdirectory sends. *)
Definition visitEntry (descend : string → node → list string) (path : string)
    (e : string * node) : list string :=
  if (isDir (snd e) && negb (ignored (fst e)))%bool then
    let dirPath := filepath.Join path (fst e) in
    match snd e with
    | Dir readable sub =>
        if (readable && hasManifest sub)%bool then [filepath.Join dirPath "package.json"]
        else descend dirPath (snd e)
    | File _ => []
    end
  else [].

(** [findPackageJSON(path, paths, wg)] run on the directory [dir] that
    [path] names, every goroutine run to its end as soon as it is spawned:
    the paths sent to the channel, in that order. *)
Fixpoint findPackageJSON (path : string) (dir : node) : list string :=
  match dir with
  | Dir true entries =>
      if hasManifest entries then [filepath.Join path "package.json"]
      else flat_map (visitEntry findPackageJSON path) entries
  | _ => []
  end.

(** One scheduling step of a goroutine of the walk: the goroutines it
    leaves in the pool and the paths it sends. *)
Definition walk (w : walker) : option (list walker * list string) :=
  match w with
  | Spawned path (Dir true entries) =>
      if hasManifest entries then Some ([], [filepath.Join path "package.json"])
      else Some ([Ranging path entries], [])
  | Spawned _ _ => Some ([], [])
  | Ranging path [] => Some ([], [])
  | Ranging path (e :: rest) =>
      if (isDir (snd e) && negb (ignored (fst e)))%bool then
        let dirPath := filepath.Join path (fst e) in
        match snd e with
        | Dir readable sub =>
            if (readable && hasManifest sub)%bool
            then Some ([Ranging path rest], [filepath.Join dirPath "package.json"])
            else Some ([Spawned dirPath (snd e); Ranging path rest], [])
        | File _ => Some ([Ranging path rest], [])
        end
      else Some ([Ranging path rest], [])
  end.

(** Everything a goroutine of the walk and the goroutines it spawns send. *)
Definition walkTotal (w : walker) : list string :=
  match w with
  | Spawned path dir => findPackageJSON path dir
  | Ranging path entries => flat_map (visitEntry findPackageJSON path) entries
  end.

(** The package roots the walk reports, each as the chain of directory
    names that leads to it from the directory the walk starts in. *)
Definition chainsEntry (descend : node → list (list string)) (e : string * node)
  : list (list string) :=
  if (isDir (snd e) && negb (ignored (fst e)))%bool then
    match snd e with
    | Dir readable sub =>
        if (readable && hasManifest sub)%bool then [[fst e]]
        else cons (fst e) <$> descend (snd e)
    | File _ => []
    end
  else [].

Fixpoint chains (dir : node) : list (list string) :=
  match dir with
  | Dir true entries =>
      if hasManifest entries then [[]] else flat_map (chainsEntry chains) entries
  | _ => []
  end.

(** The path of the manifest at the end of a chain, as the walk builds it. *)
Definition manifestAt (rootPath : string) (chain : list string) : string :=
  filepath.Join (fold_left filepath.Join chain rootPath) "package.json".

(** Every directory on the way down a chain, the last one excepted, can
    be read and holds no manifest. *)
Definition descendsThrough (dir : node) (chain : list string) : Prop :=
  ∀ i, i < length chain →
    ∃ entries, os.walk dir (take i chain) = Some (Dir true entries)
               ∧ hasManifest entries = false.

(** [chain] leads from [dir] to a package root the walk can reach: a
    directory the process has access to and that holds a manifest, below
    no other such directory, below no directory without access and below
    no ignored name. *)
Definition packageRootAt (dir : node) (chain : list string) : Prop :=
  descendsThrough dir chain
  ∧ Forall (fun name => ignored name = false) chain
  ∧ ∃ entries,
      os.walk dir chain = Some (Dir true entries)
      ∧ hasManifest entries = true.

(** [findProjectRootPackageJSONPathsConcurrent(rootPath)]: the goroutine
    spawned on [rootPath]; none runs when [os.Open(rootPath)] fails. *)
Definition rootWalkers (w : filesystem) (rootPath : string) : list walker :=
  match os.resolve w rootPath with
  | Some dir => [Spawned rootPath dir]
  | None => []
  end.

Definition findProjectRootPackageJSONPathsConcurrent (w : filesystem) (rootPath : string)
  : list string :=
  match os.resolve w rootPath with
  | Some dir => findPackageJSON rootPath dir
  | None => []
  end.

(** "Check for workspaces in different formats": the type switch on
    [packageJSON["workspaces"]]. *)
Definition workspacePatterns (packageJSON : list (string * any)) : list string :=
  match mapaccess packageJSON "workspaces" with
  | AnyStrings patterns => patterns                       (* case []string *)
  | AnyMap workspacesObj =>                               (* case map[string]any *)
      match mapaccess workspacesObj "packages" with
      | AnySlice packagesArray =>
          omap (fun pkg => match pkg with AnyString pkgStr => Some pkgStr | _ => None end)
               packagesArray
      | _ => []
      end
  | _ => []
  end.

(** The body shared by both branches of the pattern loop: skip a path in
    [knownWorkspaces], else record it and spawn an extraction when the
    manifest exists.  The state is [knownWorkspaces] and the manifests
    spawned so far. *)
Definition visit (fs : FS) (st : gset string * list string)
    (workspacePackageJSONPath : string) : gset string * list string :=
  if bool_decide (workspacePackageJSONPath ∈ fst st) then st
  else ({[workspacePackageJSONPath]} ∪ fst st,
        if Stat fs workspacePackageJSONPath
        then snd st ++ [workspacePackageJSONPath] else snd st).

(** The state of the pattern loop: every spawned manifest is in
    [knownWorkspaces] and none is spawned twice. *)
Definition knownInvariant (st : gset string * list string) : Prop :=
  (∀ p, p ∈ st.2 → p ∈ st.1) ∧ NoDup st.2.

(** One [workspacePattern] of "Process the workspace patterns". *)
Definition expandPattern (fs : FS) (filePath : string) (st : gset string * list string)
    (workspacePattern : string) : gset string * list string :=
  let isGlob := strings.ContainsAny workspacePattern "*?[" in
  let workspacePath := filepath.Join (filepath.Dir filePath) workspacePattern in
  if isGlob then
    match Glob fs workspacePath with
    | None => st                                          (* continue *)
    | Some found =>
        fold_left (fun st m => visit fs st (filepath.Join m "package.json")) found st
    end
  else visit fs st (filepath.Join workspacePath "package.json").

(** The manifests the pattern loop spawns an extraction for. *)
Definition workspaceMembers (fs : FS) (filePath : string) (patterns : list string) : list string :=
  snd (fold_left (expandPattern fs filePath) patterns (∅, [])).

(** The manifests the [pnpm-workspace.yaml] block spawns an extraction for. *)
Definition pnpmMembers (fs : FS) (filePath : string) : list string :=
  let dirname := filepath.Dir filePath in
  let pnpmWorkspacePath := filepath.Join dirname "pnpm-workspace.yaml" in
  if Stat fs pnpmWorkspacePath then
    match locatePnpmWorkspaces fs dirname with
    | Ok found =>
        List.filter
          (fun workspacePackageJSONPath =>
             (negb (String.eqb workspacePackageJSONPath filePath)
              && Stat fs workspacePackageJSONPath)%bool)
          ((fun m => filepath.Join m "package.json") <$> found)
    | Err _ => []
    end
  else [].

(** A call [extractScriptsFromPackageJSON(filePath, isLeaf, scriptsChan, wg)]. *)
Definition task : Type := string * bool.

(** [extractScriptsFromPackageJSON]: the extractions it spawns (all with
    [isLeaf = true]) and the scripts it sends, or [None] when it panics. *)
Definition extractScriptsFromPackageJSON (fs : FS) (t : task)
  : option (list task * list NpmScript) :=
  let '(filePath, isLeaf) := t in
  match ReadFile fs filePath with
  | None => Some ([], [])
  | Some byteValue =>
      match json_Unmarshal byteValue with
      | None => Some ([], [])
      | Some packageJSON =>
          match scriptsOf filePath packageJSON with
          | None => None
          | Some sent =>
              let scripts := default [] sent in
              if isLeaf then Some ([], scripts)
              else
                Some ((fun p => (p, true))
                        <$> (workspaceMembers fs filePath (workspacePatterns packageJSON)
                             ++ pnpmMembers fs filePath),
                      scripts)
          end
      end
  end.

(** What an extraction sends, nothing when it panics. *)
Definition sends (fs : FS) (t : task) : list NpmScript :=
  match extractScriptsFromPackageJSON fs t with
  | Some (_, scripts) => scripts
  | None => []
  end.

(** Everything an extraction and the extractions it spawns send. *)
Definition extractTotal (fs : FS) (t : task) : list NpmScript :=
  match extractScriptsFromPackageJSON fs t with
  | Some (spawned, scripts) => scripts ++ flat_map (sends fs) spawned
  | None => []
  end.

Definition extractWeight (fs : FS) (t : task) : nat :=
  match extractScriptsFromPackageJSON fs t with
  | Some (spawned, _) => S (length spawned)
  | None => 1
  end.

(** Neither the extraction nor one it spawns panics. *)
Definition extractSafe (fs : FS) (t : task) : Prop :=
  ∃ spawned scripts,
    extractScriptsFromPackageJSON fs t = Some (spawned, scripts)
    ∧ Forall (fun c => extractScriptsFromPackageJSON fs c ≠ None) spawned.

(** What one top-level extraction and the extractions it spawns send, each
    goroutine run as soon as it is spawned. *)
Definition extractTree (fs : FS) (t : task) : option (list NpmScript) :=
  match extractScriptsFromPackageJSON fs t with
  | None => None
  | Some (spawned, scripts) =>
      app scripts <$>
        (@concat _ <$> mapM (fun c => snd <$> extractScriptsFromPackageJSON fs c) spawned)
  end.

(** [extractScriptsFromPackageJSONsConcurrent(filepaths)] under that
    schedule: [allScripts], or [None] when a goroutine panics. *)
Definition extractScriptsFromPackageJSONsConcurrent (fs : FS) (filepaths : list string)
  : option (list NpmScript) :=
  @concat _ <$> mapM (fun p => extractTree fs (p, false)) filepaths.

(** [main] up to the call of the finder: the catalog of one run, with the
    number of manifests located.  [None] stands for the two ways the
    process ends before: "No package.json files found." and a panic. *)
Definition discover (w : filesystem) (searchPath : string) : option (nat * list NpmScript) :=
  let projectRootPackageJsons := findProjectRootPackageJSONPathsConcurrent w searchPath in
  if decide (projectRootPackageJsons = []) then None
  else
    pair (length projectRootPackageJsons)
      <$> extractScriptsFromPackageJSONsConcurrent (mount w) projectRootPackageJsons.

(** The same, for every schedule of the goroutines. *)
Definition discovers (w : filesystem) (searchPath : string) (allScripts : list NpmScript) : Prop :=
  ∃ projectRootPackageJsons,
    completes walk (rootWalkers w searchPath) projectRootPackageJsons
    ∧ projectRootPackageJsons ≠ []
    ∧ completes (extractScriptsFromPackageJSON (mount w))
        ((fun p => (p, false)) <$> projectRootPackageJsons) allScripts.

(** [m] is a manifest path the pattern loop makes from [workspacePattern]:
    the one below the pattern's path, or one below a match of the pattern
    when it holds a glob character. *)
Definition candidateOf (fs : FS) (filePath workspacePattern m : string) : Prop :=
  let workspacePath := filepath.Join (filepath.Dir filePath) workspacePattern in
  if strings.ContainsAny workspacePattern "*?[" then
    ∃ found d, Glob fs workspacePath = Some found ∧ d ∈ found
               ∧ m = filepath.Join d "package.json"
  else m = filepath.Join workspacePath "package.json".

(** The manifests a call with [isLeaf = false] on [filePath] spawns an
    extraction for: none when the manifest cannot be read or parsed. *)
Definition members (fs : FS) (filePath : string) : list string :=
  match ReadFile fs filePath with
  | None => []
  | Some byteValue =>
      match json_Unmarshal byteValue with
      | None => []
      | Some packageJSON =>
          workspaceMembers fs filePath (workspacePatterns packageJSON)
          ++ pnpmMembers fs filePath
      end
  end.


End Part002.

(* ===================================================================== *)
(** * The first iteration (main.go) *)
(* ===================================================================== *)

Module Main.

(** [entry.IsDir() && entry.Name() != "node_modules" && entry.Name() != ".git"] *)
Definition descends (e : string * node) : bool :=
  (isDir (snd e) && negb (String.eqb (fst e) "node_modules")
   && negb (String.eqb (fst e) ".git"))%bool.

Definition visitEntry (descend : string → node → list string) (path : string)
    (e : string * node) : list string :=
  if descends e then descend (path +:+ "/" +:+ fst e) (snd e)
  else if String.eqb (fst e) "package.json" then [path +:+ "/" +:+ fst e]
  else [].

(** [findPackageJSON(path, paths, wg)], every goroutine run to its end as
    soon as it is spawned. *)
Fixpoint findPackageJSON (path : string) (dir : node) : list string :=
  match dir with
  | Dir true entries => flat_map (visitEntry findPackageJSON path) entries
  | _ => []
  end.

(** One scheduling step of a goroutine of the walk. *)
Definition walk (w : walker) : option (list walker * list string) :=
  match w with
  | Spawned path (Dir true entries) => Some ([Ranging path entries], [])
  | Spawned _ _ => Some ([], [])
  | Ranging path [] => Some ([], [])
  | Ranging path (e :: rest) =>
      if descends e
      then Some ([Spawned (path +:+ "/" +:+ fst e) (snd e); Ranging path rest], [])
      else if String.eqb (fst e) "package.json"
      then Some ([Ranging path rest], [path +:+ "/" +:+ fst e])
      else Some ([Ranging path rest], [])
  end.

Definition walkTotal (w : walker) : list string :=
  match w with
  | Spawned path dir => findPackageJSON path dir
  | Ranging path entries => flat_map (visitEntry findPackageJSON path) entries
  end.

Definition findPackageJSONPathsConcurrent (w : filesystem) (rootPath : string) : list string :=
  match os.resolve w rootPath with
  | Some dir => findPackageJSON rootPath dir
  | None => []
  end.

(** [extractScriptsFromPackageJSON(filePath) ([]NpmScript, error)];
    [None] is a panic. *)
Definition extractScriptsFromPackageJSON (fs : FS) (filePath : string)
  : option (result (list NpmScript)) :=
  match ReadFile fs filePath with
  | None => Some (Err ErrOpen)
  | Some byteValue =>
      match json_Unmarshal byteValue with
      | None => Some (Err ErrJSON)
      | Some packageJSON =>
          match scriptsOf filePath packageJSON with
          | None => None
          | Some sent => Some (Ok (default [] sent))
          end
      end
  end.

(** The goroutine [extractScriptsFromPackageJSONsConcurrent] launches for
    one path: an error is printed and nothing is sent. *)
Definition extractor (fs : FS) (filePath : string) : option (list string * list NpmScript) :=
  match extractScriptsFromPackageJSON fs filePath with
  | None => None
  | Some (Err _) => Some ([], [])
  | Some (Ok scripts) => Some ([], scripts)
  end.

(** Everything the goroutine for one path sends. *)
Definition extractTotal (fs : FS) (filePath : string) : list NpmScript :=
  match extractor fs filePath with
  | Some (_, scripts) => scripts
  | None => []
  end.

Definition rootWalkers (w : filesystem) (rootPath : string) : list walker :=
  match os.resolve w rootPath with
  | Some dir => [Spawned rootPath dir]
  | None => []
  end.

(** [main] up to the call of the finder, for every schedule. *)
Definition discovers (w : filesystem) (searchPath : string) (allScripts : list NpmScript) : Prop :=
  ∃ filepaths,
    completes walk (rootWalkers w searchPath) filepaths
    ∧ filepaths ≠ []
    ∧ completes (extractor (mount w)) filepaths allScripts.

(** The files the walk reports, each as the chain of directory names that
    leads from the directory the walk starts in to the one holding it. *)
Definition chainsEntry (descend : node → list (list string)) (e : string * node)
  : list (list string) :=
  if descends e then cons (fst e) <$> descend (snd e)
  else if String.eqb (fst e) "package.json" then [[]]
  else [].

Fixpoint chains (dir : node) : list (list string) :=
  match dir with
  | Dir true entries => flat_map (chainsEntry chains) entries
  | _ => []
  end.

(** The path of the manifest at the end of a chain, as the walk builds it:
    [path + "/" + entry.Name()] at every level. *)
Definition manifestAt (rootPath : string) (chain : list string) : string :=
  fold_left (fun path name => path +:+ "/" +:+ name) (chain ++ ["package.json"]) rootPath.

(** [chain] leads from [dir] through directories that can be read, none
    of them named node_modules or .git, to one holding a file named
    package.json. *)
Definition manifestFileAt (dir : node) (chain : list string) : Prop :=
  (∀ i, i ≤ length chain → ∃ entries, os.walk dir (take i chain) = Some (Dir true entries))
  ∧ Forall (fun name => name ≠ "node_modules" ∧ name ≠ ".git") chain
  ∧ ∃ data, os.walk dir (chain ++ ["package.json"]) = Some (File data).

End Main.

(* ===================================================================== *)
(** * The iteration with recursive workspaces (unnamed/part_000) *)
(* ===================================================================== *)

Module Part000.

(** How a call ends: with a value and a nil error, with an error, in a
    panic, or not at all within the call depth allowed. *)
Inductive outcome (A : Type) :=
| Done (a : A)
| Failed (e : error)
| Panicked
| Overflowed.

Arguments Done {A} a.
Arguments Failed {A} e.
Arguments Panicked {A}.
Arguments Overflowed {A}.

Definition bind {A B : Type} (o : outcome A) (k : A → outcome B) : outcome B :=
  match o with
  | Done a => k a
  | Failed e => Failed e
  | Panicked => Panicked
  | Overflowed => Overflowed
  end.

Fixpoint foldM {A B : Type} (f : B → A → outcome B) (l : list A) (b : B) : outcome B :=
  match l with
  | [] => Done b
  | a :: r => bind (f b a) (foldM f r)
  end.

(** [workspaceScripts, err := extractScriptsFromPackageJSON(p);
     if err == nil { scripts = append(scripts, workspaceScripts...) }] *)
Definition appendFrom (call : outcome (list NpmScript)) (scripts : list NpmScript)
  : outcome (list NpmScript) :=
  match call with
  | Done workspaceScripts => Done (scripts ++ workspaceScripts)
  | Failed _ => Done scripts
  | Panicked => Panicked
  | Overflowed => Overflowed
  end.

(** [if _, err := os.Stat(p); err == nil { ...extract and append... }] *)
Definition appendIfPresent (fs : FS) (extract : string → outcome (list NpmScript))
    (scripts : list NpmScript) (workspacePackageJSONPath : string) : outcome (list NpmScript) :=
  if Stat fs workspacePackageJSONPath
  then appendFrom (extract workspacePackageJSONPath) scripts
  else Done scripts.

(** One [workspace] of [for _, workspace := range workspaces]. *)
Definition expandWorkspace (fs : FS) (extract : string → outcome (list NpmScript))
    (filePath : string) (scripts : list NpmScript) (workspace : any)
  : outcome (list NpmScript) :=
  match workspace with
  | AnyString pattern =>
      let isGlob := strings.ContainsAny pattern "*?[" in
      let workspacePath := filepath.Join (filepath.Dir filePath) pattern in
      let afterPattern :=
        if isGlob then
          match Glob fs workspacePath with
          | None => None                                  (* continue *)
          | Some found =>
              Some (foldM (appendIfPresent fs extract)
                      ((fun m => filepath.Join m "package.json") <$> found) scripts)
          end
        else
          Some (appendIfPresent fs extract scripts (filepath.Join workspacePath "package.json")) in
      match afterPattern with
      | None => Done scripts
      | Some o =>
          bind o (fun scripts =>
            (* "if workspace path exists, extract scripts from it's package.json" *)
            if Stat fs workspacePath
            then appendFrom (extract (filepath.Join workspacePath "package.json")) scripts
            else Done scripts)
      end
  | _ => Panicked                                         (* workspace.(string) *)
  end.

(** [extractScriptsFromPackageJSON(filePath) ([]NpmScript, error)], which
    calls itself on every workspace member; [depth] bounds the depth of
    the calls. *)
Fixpoint extractScriptsFromPackageJSON (depth : nat) (fs : FS) (filePath : string)
  : outcome (list NpmScript) :=
  match depth with
  | O => Overflowed
  | S depth' =>
      match ReadFile fs filePath with
      | None => Failed ErrOpen
      | Some byteValue =>
          match json_Unmarshal byteValue with
          | None => Failed ErrJSON
          | Some packageJSON =>
              match scriptsOf filePath packageJSON with
              | None => Panicked
              | Some sent =>
                  let extract := extractScriptsFromPackageJSON depth' fs in
                  bind
                    match mapaccess packageJSON "workspaces" with
                    | AnySlice workspaces =>
                        foldM (expandWorkspace fs extract filePath) workspaces (default [] sent)
                    | _ => Done (default [] sent)
                    end
                    (fun scripts =>
                       let dirname := filepath.Dir filePath in
                       if Stat fs (filepath.Join dirname "pnpm-workspace.yaml") then
                         match locatePnpmWorkspaces fs dirname with
                         | Ok found =>
                             foldM (appendIfPresent fs extract)
                               (List.filter (fun p => negb (String.eqb p filePath))
                                  ((fun m => filepath.Join m "package.json") <$> found))
                               scripts
                         | Err _ => Done scripts
                         end
                       else Done scripts)
              end
          end
      end
  end.

(** [pattern] is a workspace of the manifest at [filePath] without a glob
    character, for which the directory and its manifest exist and the call
    on that manifest returns [memberScripts pattern]. *)
Definition literalMember (fs : FS) (extract : string → outcome (list NpmScript))
    (filePath : string) (memberScripts : string → list NpmScript) (pattern : string) : Prop :=
  let workspacePath := filepath.Join (filepath.Dir filePath) pattern in
  strings.ContainsAny pattern "*?[" = false
  ∧ Stat fs workspacePath = true
  ∧ Stat fs (filepath.Join workspacePath "package.json") = true
  ∧ extract (filepath.Join workspacePath "package.json") = Done (memberScripts pattern).

(** One entry of [for _, entry := range entries] in this iteration's
    [findPackageJSON]: a subdirectory holding a manifest is reported and
    not searched, a package.json entry of the directory itself is reported
    and the loop goes on. *)
Definition visitEntry (descend : string → node → list string) (path : string)
    (e : string * node) : list string :=
  if Main.descends e then
    let dirPath := filepath.Join path (fst e) in
    match snd e with
    | Dir readable sub =>
        if (readable && hasManifest sub)%bool then [filepath.Join dirPath "package.json"]
        else descend dirPath (snd e)
    | File _ => []
    end
  else if String.eqb (fst e) "package.json" then [filepath.Join path (fst e)]
  else [].

(** [findPackageJSON(path, paths, wg)], every goroutine run to its end as
    soon as it is spawned. *)
Fixpoint findPackageJSON (path : string) (dir : node) : list string :=
  match dir with
  | Dir true entries => flat_map (visitEntry findPackageJSON path) entries
  | _ => []
  end.

(** One scheduling step of a goroutine of the walk. *)
Definition walk (w : walker) : option (list walker * list string) :=
  match w with
  | Spawned path (Dir true entries) => Some ([Ranging path entries], [])
  | Spawned _ _ => Some ([], [])
  | Ranging path [] => Some ([], [])
  | Ranging path (e :: rest) =>
      if Main.descends e then
        let dirPath := filepath.Join path (fst e) in
        match snd e with
        | Dir readable sub =>
            if (readable && hasManifest sub)%bool
            then Some ([Ranging path rest], [filepath.Join dirPath "package.json"])
            else Some ([Spawned dirPath (snd e); Ranging path rest], [])
        | File _ => Some ([Ranging path rest], [])
        end
      else if String.eqb (fst e) "package.json"
      then Some ([Ranging path rest], [filepath.Join path (fst e)])
      else Some ([Ranging path rest], [])
  end.

Definition walkTotal (w : walker) : list string :=
  match w with
  | Spawned path dir => findPackageJSON path dir
  | Ranging path entries => flat_map (visitEntry findPackageJSON path) entries
  end.

(** No directory of the tree has a name that only the last iteration
    ignores: a name in [ignoredDirs] is node_modules or .git. *)
Fixpoint sameIgnored (n : node) : bool :=
  match n with
  | File _ => true
  | Dir _ entries =>
      forallb (fun e =>
                 (implb (isDir (snd e) && Part002.ignored (fst e))
                        (String.eqb (fst e) "node_modules" || String.eqb (fst e) ".git")
                  && sameIgnored (snd e))%bool) entries
  end.

End Part000.

(* ===================================================================== *)
(** * Trees used as examples *)
(* ===================================================================== *)

Module Fixtures.

Definition manifest (j : json) : node := File (JSONText j).

Definition scriptsObject (scripts : list (string * string)) : json :=
  JObject (prod_map id JString <$> scripts).

(** A directory holding one package.json with a name and scripts. *)
Definition package (name : string) (scripts : list (string * string)) : node :=
  Dir true
    [("package.json",
      manifest (JObject [("name", JString name); ("scripts", scriptsObject scripts)]))].

(** A file system whose only top-level directory is /proj, the working
    directory of the process. *)
Definition inProj (entries : list (string * node)) : filesystem :=
  {| root := Dir true [("proj", Dir true entries)]; cwd := ["proj"] |}.

(** /proj/package.json declares [workspaces]; /proj/pkgs/bar and
    /proj/pkgs/foo are packages with one script each. *)
Definition monorepo (workspaces : json) : filesystem :=
  inProj
    [("package.json", manifest (JObject [("name", JString "root"); ("workspaces", workspaces)]));
     ("pkgs", Dir true [("bar", package "bar" [("test", "jest")]);
                        ("foo", package "foo" [("build", "tsc")])])].

Definition objectForm (patterns : list string) : json :=
  JObject [("packages", JArray (JString <$> patterns))].

Definition arrayForm (patterns : list string) : json := JArray (JString <$> patterns).

Definition fooBuild : NpmScript :=
  {| PackageName := "foo"; ScriptName := "build"; Command := "tsc";
     AbsolutePath := "pkgs/foo/package.json" |}.

Definition barTest : NpmScript :=
  {| PackageName := "bar"; ScriptName := "test"; Command := "jest";
     AbsolutePath := "pkgs/bar/package.json" |}.

(** /proj/package.json has a script and lists its own directory as a
    workspace. *)
Definition selfReferring (workspaces : json) : filesystem :=
  inProj
    [("package.json",
      manifest (JObject [("name", JString "root");
                         ("scripts", scriptsObject [("build", "tsc")]);
                         ("workspaces", workspaces)]))].

Definition rootBuild : NpmScript :=
  {| PackageName := "root"; ScriptName := "build"; Command := "tsc";
     AbsolutePath := "package.json" |}.

(** /proj holds no manifest; /proj/a declares its sibling /proj/b as a
    workspace, and the walk finds both. *)
Definition siblings : filesystem :=
  inProj
    [("a", Dir true
             [("package.json",
               manifest (JObject [("name", JString "a");
                                  ("scripts", scriptsObject [("start", "node .")]);
                                  ("workspaces", objectForm ["../b"])]))]);
     ("b", package "b" [("test", "jest")])].

Definition aStart : NpmScript :=
  {| PackageName := "a"; ScriptName := "start"; Command := "node .";
     AbsolutePath := "a/package.json" |}.

Definition bTest : NpmScript :=
  {| PackageName := "b"; ScriptName := "test"; Command := "jest";
     AbsolutePath := "b/package.json" |}.

(** /proj/bad/package.json is [{"name": "bad", "scripts": {"build": 1}}];
    /proj/good is a package with one script. *)
Definition badCommand : filesystem :=
  inProj
    [("bad", Dir true
               [("package.json",
                 manifest (JObject [("name", JString "bad");
                                    ("scripts", JObject [("build", JNumber 1)])]))]);
     ("good", package "good" [("test", "jest")])].

(** /proj/package.json has a script; /proj/pnpm-workspace.yaml lists the
    directory itself. *)
Definition selfReferringPnpm : filesystem :=
  inProj
    [("package.json",
      manifest (JObject [("name", JString "root");
                         ("scripts", scriptsObject [("build", "tsc")])]));
     ("pnpm-workspace.yaml", File (YAMLText ["."]))].

(** The monorepo with the member /proj/pkgs/foo declared twice: by the
    [workspaces] field and by /proj/pnpm-workspace.yaml. *)
Definition declaredTwice : filesystem :=
  inProj
    [("package.json",
      manifest (JObject [("name", JString "root"); ("workspaces", objectForm ["pkgs/foo"])]));
     ("pkgs", Dir true [("foo", package "foo" [("build", "tsc")])]);
     ("pnpm-workspace.yaml", File (YAMLText ["pkgs/*"]))].

(** /proj/package.json with the given [workspaces] and
    /proj/pnpm-workspace.yaml with the given [packages]; /proj/apps holds
    the packages a, b and legacy. *)
Definition appsRepo (workspaces : json) (packages : list string) : filesystem :=
  inProj
    [("apps", Dir true [("a", package "a" [("dev", "vite")]);
                        ("b", package "b" [("test", "jest")]);
                        ("legacy", package "legacy" [("build", "make")])]);
     ("package.json",
      manifest (JObject [("name", JString "root"); ("workspaces", workspaces)]));
     ("pnpm-workspace.yaml", File (YAMLText packages))].

Definition pnpmWorkspace (packages : list string) : filesystem := appsRepo JNull packages.


Definition aDev : NpmScript :=
  {| PackageName := "a"; ScriptName := "dev"; Command := "vite";
     AbsolutePath := "apps/a/package.json" |}.

Definition bAppTest : NpmScript :=
  {| PackageName := "b"; ScriptName := "test"; Command := "jest";
     AbsolutePath := "apps/b/package.json" |}.

(** /proj holds package.json and no lock file. *)
Definition noLockfile : filesystem :=
  inProj [("package.json", manifest (JObject [("name", JString "app")]))].

(** /proj holds package.json and yarn.lock. *)
Definition yarnRepo : filesystem :=
  inProj [("package.json", manifest (JObject [("name", JString "app")]));
          ("yarn.lock", File Blob)].

(** /proj holds no manifest.  Below it: a package apps/web with a package
    of its own in vendor/x, a package under node_modules, a package in a
    directory that cannot be read, and a file. *)
Definition walkedEntries : list (string * node) :=
    [("README.md", File Blob);
     ("apps", Dir true
                [("web", Dir true
                           [("package.json", manifest (JObject [("name", JString "web")]));
                            ("vendor", Dir true [("x", package "x" [])])])]);
     ("locked", Dir false [("hidden", Dir true [("inner", package "inner" [])])]);
     ("node_modules", Dir true [("dep", package "dep" [])])].

Definition walked : filesystem := inProj walkedEntries.

(** /proj/locked holds a manifest and grants no access; /proj/open is a
    package. *)
Definition lockedManifest : filesystem :=
  inProj [("locked", Dir false
                       [("package.json", manifest (JObject [("name", JString "locked")]))]);
          ("open", package "open" [("test", "jest")])].

(** /proj/package.json holds [null]; /proj/pnpm-workspace.yaml lists
    apps/*, and /proj/apps/a is a package. *)
Definition nullManifest : filesystem :=
  inProj [("apps", Dir true [("a", package "a" [("dev", "vite")])]);
          ("package.json", manifest JNull);
          ("pnpm-workspace.yaml", File (YAMLText ["apps/*"]))].

(** /proj holds yarn.lock and the package /proj/pkgs/foo, which holds no
    lock file of its own. *)
Definition yarnMonorepo : filesystem :=
  inProj [("pkgs", Dir true [("foo", package "foo" [("build", "tsc")])]);
          ("yarn.lock", File Blob)].

(** /proj holds the packages good and other and a package whose manifest
    is not JSON. *)
Definition withBrokenManifest : filesystem :=
  inProj [("broken", Dir true [("package.json", File Blob)]);
          ("good", package "good" [("test", "jest")]);
          ("other", package "other" [("lint", "eslint")])].

End Fixtures.

(* ===================================================================== *)
(** * Properties of the pool: the schedule does not change what is collected *)
(* ===================================================================== *)

Lemma sum_list_plus (l k : list nat) : sum_list (l ++ k) = sum_list l + sum_list k.
Proof. induction l as [|x l IH]; simpl; lia. Qed.

Section PoolFacts.

Context {T E : Type}.
Variable fire : T → option (list T * list E).

Lemma crashed_stays (s : pool (T:=T) (E:=E)) : rtc (pool_step fire) Crashed s → s = Crashed.
Proof.
  intros H. remember Crashed as c eqn:Hc. induction H as [|x y z Hstep _ IH]; [done|].
  subst x. inversion Hstep.
Qed.

(** No task of a run that completes panics. *)
Lemma pool_steps_no_panic (pending : list T) (received collected : list E) :
  rtc (pool_step fire) (Running pending received) (Running [] collected) →
  ∀ t, t ∈ pending → fire t ≠ None.
Proof.
  intros H.
  remember (Running pending received) as s eqn:Hs.
  remember (Running [] collected) as s' eqn:Hs'.
  revert pending received Hs.
  induction H as [s|s1 s2 s3 Hstep Hrest IH]; intros pending received Hs t Ht.
  - rewrite Hs in Hs'. injection Hs' as -> ->. by apply elem_of_nil in Ht.
  - subst s1 s3. inversion Hstep as [before u after rcv spawned sent arrived Hfire Harr|]; subst.
    + apply elem_of_app in Ht as [Ht|Ht].
      * eapply (IH eq_refl _ _ eq_refl). set_solver.
      * apply elem_of_cons in Ht as [->|Ht]; [congruence|].
        eapply (IH eq_refl _ _ eq_refl). set_solver.
    + apply crashed_stays in Hrest. done.
Qed.

Lemma schedule_unfold (c : nat) (choices : list nat) (pending : list T) (received : list E) :
  pending ≠ [] →
  schedule fire (c :: choices) pending received
  = match pending !! (c `mod` length pending) with
    | Some t =>
        match fire t with
        | Some (spawned, sent) =>
            schedule fire choices
              (take (c `mod` length pending) pending ++ spawned
               ++ drop (S (c `mod` length pending)) pending)
              (received ++ sent)
        | None => None
        end
    | None => None
    end.
Proof. by destruct pending. Qed.

(** A schedule given as data is a run. *)
Lemma schedule_run (choices : list nat) (pending : list T) (received collected : list E) :
  schedule fire choices pending received = Some collected →
  rtc (pool_step fire) (Running pending received) (Running [] collected).
Proof.
  revert pending received.
  induction choices as [|c choices IH]; intros pending received H.
  - destruct pending; simpl in H; [|done]. injection H as ->. apply rtc_refl.
  - destruct (decide (pending = [])) as [->|Hne].
    { simpl in H. injection H as ->. apply rtc_refl. }
    rewrite schedule_unfold in H by done.
    destruct (pending !! (c `mod` length pending)) as [t|] eqn:Hlook; [|done].
    destruct (fire t) as [[spawned sent]|] eqn:Hfire; [|done].
    eapply rtc_l; [|apply IH, H].
    rewrite <- (take_drop_middle _ _ _ Hlook) at 1.
    by eapply pool_fire.
Qed.

(** The tasks spawned by a task of a run that completes do not panic. *)
Lemma pool_steps_spawned_no_panic (pending : list T) (received collected : list E) :
  rtc (pool_step fire) (Running pending received) (Running [] collected) →
  ∀ t spawned sent, t ∈ pending → fire t = Some (spawned, sent) →
  ∀ c, c ∈ spawned → fire c ≠ None.
Proof.
  intros H.
  remember (Running pending received) as s eqn:Hs.
  remember (Running [] collected) as s' eqn:Hs'.
  revert pending received Hs.
  induction H as [s|s1 s2 s3 Hstep Hrest IH]; intros pending received Hs t sp sn Ht Hf c Hc.
  - rewrite Hs in Hs'. injection Hs' as -> ->. by apply elem_of_nil in Ht.
  - subst s1 s3. inversion Hstep as [before u after rcv spawned sent arrived Hfire Harr|]; subst.
    + assert (t = u ∨ t ∈ before ++ after) as [->|Ht'] by set_solver.
      * rewrite Hfire in Hf. injection Hf as <- <-.
        eapply pool_steps_no_panic; [apply Hrest|]. set_solver.
      * eapply (IH eq_refl _ _ eq_refl t sp sn); [set_solver|done..].
    + apply crashed_stays in Hrest. done.
Qed.

Section Totals.

(** [total t]: everything [t] and the tasks it spawns send, in some order. *)
Variable total : T → list E.
Hypothesis total_fire :
  ∀ t spawned sent, fire t = Some (spawned, sent) → total t ≡ₚ sent ++ flat_map total spawned.

Lemma flat_map_middle (before after : list T) (mid : list T) :
  flat_map total (before ++ mid ++ after)
  ≡ₚ flat_map total mid ++ flat_map total (before ++ after).
Proof.
  rewrite !flat_map_app. rewrite !(assoc_L (++)).
  apply Permutation_app_tail, Permutation_app_comm.
Qed.

(** What has been received together with what the pending tasks will still
    send is the same before and after any number of steps. *)
Lemma pool_steps_conserve (pending pending' : list T) (received received' : list E) :
  rtc (pool_step fire) (Running pending received) (Running pending' received') →
  received' ++ flat_map total pending' ≡ₚ received ++ flat_map total pending.
Proof.
  intros H.
  remember (Running pending received) as s eqn:Hs.
  remember (Running pending' received') as s' eqn:Hs'.
  revert pending received Hs.
  induction H as [s|s1 s2 s3 Hstep Hrest IH]; intros pending received Hs.
  - rewrite Hs in Hs'. by injection Hs' as -> ->.
  - subst s1 s3. inversion Hstep as [before t after rcv spawned sent arrived Hfire Harr|]; subst.
    + rewrite (IH eq_refl _ _ eq_refl).
      rewrite Harr, <- (assoc_L (++)). apply Permutation_app_head.
      rewrite flat_map_middle.
      rewrite (flat_map_middle before after [t]). simpl. rewrite app_nil_r.
      rewrite (total_fire _ _ _ Hfire). by rewrite (assoc_L (++)).
    + apply crashed_stays in Hrest. done.
Qed.

(** Whatever the schedule, a run to completion collects, up to order, what
    the tasks it started from send in total. *)
Lemma completes_total (tasks : list T) (collected : list E) :
  completes fire tasks collected → collected ≡ₚ flat_map total tasks.
Proof.
  intros H. apply pool_steps_conserve in H. simpl in H. by rewrite app_nil_r in H.
Qed.

End Totals.

Section Sequential.

Variable total : T → list E.

(** Tasks that fire without a panic, and so do all the tasks they spawn. *)
Variable safe : T → Prop.
Hypothesis safe_fire :
  ∀ t, safe t → ∃ spawned sent, fire t = Some (spawned, sent) ∧ Forall safe spawned.

Variable weight : T → nat.
Hypothesis weight_fire :
  ∀ t spawned sent, fire t = Some (spawned, sent) → sum_list (weight <$> spawned) < weight t.

Hypothesis total_fire_eq :
  ∀ t spawned sent, fire t = Some (spawned, sent) → total t = sent ++ flat_map total spawned.

(** The schedule that always fires the first pending task, the spawned
    tasks going first, completes and collects the totals in order. *)
Lemma schedule_first (n : nat) (pending : list T) (received : list E) :
  Forall safe pending → sum_list (weight <$> pending) ≤ n →
  schedule fire (replicate n 0) pending received = Some (received ++ flat_map total pending).
Proof.
  revert pending received.
  induction n as [|n IH]; intros pending received Hsafe Hn.
  - destruct pending as [|t rest]; simpl; [by rewrite app_nil_r|].
    apply Forall_cons in Hsafe as [Ht _].
    destruct (safe_fire _ Ht) as (sp & sn & Hf & _).
    apply weight_fire in Hf. simpl in Hn. lia.
  - destruct pending as [|t rest]; [by simpl; rewrite app_nil_r|].
    apply Forall_cons in Hsafe as [Ht Hrest].
    destruct (safe_fire _ Ht) as (sp & sn & Hf & Hsp).
    change (replicate (S n) 0) with (0 :: replicate n 0).
    rewrite schedule_unfold by done.
    replace (0 `mod` length (t :: rest)) with 0 by (symmetry; apply Nat.Div0.mod_0_l).
    simpl. rewrite Hf. rewrite drop_0.
    rewrite IH.
    + rewrite flat_map_app, (total_fire_eq _ _ _ Hf). by rewrite <- !(assoc_L (++)).
    + by apply Forall_app.
    + pose proof (weight_fire _ _ _ Hf) as Hw.
      rewrite fmap_app, sum_list_plus. rewrite fmap_cons in Hn. simpl in Hn. lia.
Qed.

Lemma completes_first (tasks : list T) :
  Forall safe tasks → completes fire tasks (flat_map total tasks).
Proof.
  intros Hsafe. eapply schedule_run.
  by rewrite (schedule_first (sum_list (weight <$> tasks))).
Qed.

(** No run is longer than the weight of the tasks it starts from allows. *)
Lemma pool_steps_bounded (n : nat) (pending : list T) (received : list E)
    (s : pool (T:=T) (E:=E)) :
  nsteps (pool_step fire) n (Running pending received) s →
  n ≤ S (sum_list (weight <$> pending)).
Proof.
  revert pending received.
  induction n as [|n IH]; intros pending received H; [lia|].
  inversion H as [|n' x s' z Hstep Hrest]; subst.
  inversion Hstep as [before t after rcv spawned sent arrived Hfire Harr|before t after rcv Hfire];
    subst.
  - apply IH in Hrest. pose proof (weight_fire _ _ _ Hfire) as Hw.
    rewrite !fmap_app, !sum_list_plus in Hrest.
    rewrite fmap_app, sum_list_plus, fmap_cons. simpl. lia.
  - destruct n as [|n]; [lia|].
    inversion Hrest as [|n' x s'' z Hstep' _]; subst. inversion Hstep'.
Qed.

End Sequential.

End PoolFacts.

(** Two pools in sequence, the second started on what the first collected:
    any two runs collect the same elements. *)
Lemma two_pools_deterministic {T1 E1 T2 E2 : Type}
    (fire1 : T1 → option (list T1 * list E1)) (total1 : T1 → list E1)
    (fire2 : T2 → option (list T2 * list E2)) (total2 : T2 → list E2)
    (start : E1 → T2) (tasks : list T1) (mid mid' : list E1) (out out' : list E2) :
  (∀ t spawned sent, fire1 t = Some (spawned, sent) → total1 t ≡ₚ sent ++ flat_map total1 spawned) →
  (∀ t spawned sent, fire2 t = Some (spawned, sent) → total2 t ≡ₚ sent ++ flat_map total2 spawned) →
  completes fire1 tasks mid → completes fire2 (start <$> mid) out →
  completes fire1 tasks mid' → completes fire2 (start <$> mid') out' →
  out ≡ₚ out'.
Proof.
  intros H1 H2 Hm Ho Hm' Ho'.
  apply (completes_total _ _ H1) in Hm, Hm'.
  apply (completes_total _ _ H2) in Ho, Ho'.
  rewrite Ho, Ho'. apply Permutation_flat_map, fmap_Permutation.
  by rewrite Hm, Hm'.
Qed.

(* ===================================================================== *)
(** * The walk of the last iteration as a pool *)
(* ===================================================================== *)

Lemma Part002_walkTotal_fire (w : walker) (spawned : list walker) (sent : list string) :
  Part002.walk w = Some (spawned, sent) →
  Part002.walkTotal w = sent ++ flat_map Part002.walkTotal spawned.
Proof.
  destruct w as [path [data|[] entries]|path [|e rest]]; simpl.
  - by intros [= <- <-].
  - destruct (hasManifest entries); intros [= <- <-]; simpl; by rewrite ?app_nil_r.
  - by intros [= <- <-].
  - by intros [= <- <-].
  - unfold Part002.visitEntry at 1.
    destruct (isDir e.2 && negb (Part002.ignored e.1))%bool.
    + destruct e.2 as [data|r sub]; [intros [= <- <-]; simpl; by rewrite app_nil_r|].
      destruct (r && hasManifest sub)%bool; intros [= <- <-]; simpl; by rewrite ?app_nil_r.
    + intros [= <- <-]; simpl; by rewrite app_nil_r.
Qed.

Lemma sum_list_entries_le (entries : list (string * node)) :
  sum_list (map (fun e => 2 * size e.2 + 1) entries)
  ≤ 2 * sum_list (map (fun e => S (size e.2)) entries).
Proof. induction entries as [|e entries IH]; simpl in *; lia. Qed.

Lemma Part002_walkWeight_fire (w : walker) (spawned : list walker) (sent : list string) :
  Part002.walk w = Some (spawned, sent) →
  sum_list (walkWeight <$> spawned) < walkWeight w.
Proof.
  destruct w as [path [data|[] entries]|path [|e rest]]; simpl.
  - intros [= <- <-]; simpl; lia.
  - pose proof (sum_list_entries_le entries).
    destruct (hasManifest entries); intros [= <- <-]; simpl in *; lia.
  - intros [= <- <-]; simpl; lia.
  - intros [= <- <-]; simpl; lia.
  - destruct (isDir e.2 && negb (Part002.ignored e.1))%bool.
    + destruct e.2 as [data|r sub]; [intros [= <- <-]; simpl; lia|].
      destruct (r && hasManifest sub)%bool; intros [= <- <-]; simpl; lia.
    + intros [= <- <-]; simpl; lia.
Qed.

Lemma Part002_walk_total (w : walker) : ∃ spawned sent, Part002.walk w = Some (spawned, sent).
Proof.
  destruct w as [path [data|[] entries]|path [|e rest]]; simpl; eauto.
  - destruct (hasManifest entries); eauto.
  - destruct (isDir e.2 && negb (Part002.ignored e.1))%bool; eauto.
    destruct e.2 as [data|r sub]; eauto. destruct (r && hasManifest sub)%bool; eauto.
Qed.

(** Every schedule of the walk collects the paths [findPackageJSON] lists,
    and the schedule that runs each goroutine when it is spawned collects
    them in that order. *)
Lemma Part002_walk_completes (w : filesystem) (rootPath : string) (filepaths : list string) :
  completes Part002.walk (Part002.rootWalkers w rootPath) filepaths →
  filepaths ≡ₚ Part002.findProjectRootPackageJSONPathsConcurrent w rootPath.
Proof.
  intros H. eapply (completes_total _ Part002.walkTotal) in H.
  - rewrite H. unfold Part002.rootWalkers, Part002.findProjectRootPackageJSONPathsConcurrent.
    destruct (os.resolve w rootPath); simpl; by rewrite ?app_nil_r.
  - intros t sp sn Hf. by rewrite (Part002_walkTotal_fire _ _ _ Hf).
Qed.

Lemma Part002_walk_first (w : filesystem) (rootPath : string) :
  completes Part002.walk (Part002.rootWalkers w rootPath)
    (Part002.findProjectRootPackageJSONPathsConcurrent w rootPath).
Proof.
  pose proof (completes_first Part002.walk Part002.walkTotal (fun _ => True)) as H.
  specialize (H (fun t _ => ltac:(destruct (Part002_walk_total t) as (sp & sn & ?);
                                    exists sp, sn; split; [done|by apply Forall_true]))).
  specialize (H walkWeight Part002_walkWeight_fire Part002_walkTotal_fire
                (Part002.rootWalkers w rootPath) (Forall_true _ _ (fun _ => I))).
  unfold Part002.rootWalkers, Part002.findProjectRootPackageJSONPathsConcurrent in *.
  destruct (os.resolve w rootPath); simpl in *; by rewrite ?app_nil_r in H.
Qed.

(* ===================================================================== *)
(** * The extraction of the last iteration as a pool *)
(* ===================================================================== *)

Section Part002Extraction.

Variable fs : FS.

(** Every extraction spawned by an extraction is a leaf, and a leaf spawns
    nothing: the call tree has depth two. *)
Lemma Part002_spawned_leaves (t : Part002.task) spawned scripts :
  Part002.extractScriptsFromPackageJSON fs t = Some (spawned, scripts) →
  Forall (fun c => c.2 = true) spawned.
Proof.
  destruct t as [filePath isLeaf]. unfold Part002.extractScriptsFromPackageJSON.
  destruct (ReadFile fs filePath) as [byteValue|]; [|by intros [= <- <-]].
  destruct (json_Unmarshal byteValue) as [packageJSON|]; [|by intros [= <- <-]].
  destruct (scriptsOf filePath packageJSON) as [sent|]; [|done].
  destruct isLeaf; intros [= <- <-]; [done|].
  by apply Forall_fmap, Forall_true.
Qed.

Lemma Part002_leaf_spawns_nothing (c : Part002.task) spawned scripts :
  c.2 = true →
  Part002.extractScriptsFromPackageJSON fs c = Some (spawned, scripts) → spawned = [].
Proof.
  destruct c as [filePath isLeaf]. simpl. intros ->.
  unfold Part002.extractScriptsFromPackageJSON.
  destruct (ReadFile fs filePath) as [byteValue|]; [|by intros [= <- <-]].
  destruct (json_Unmarshal byteValue) as [packageJSON|]; [|by intros [= <- <-]].
  destruct (scriptsOf filePath packageJSON) as [sent|]; [|done].
  by intros [= <- <-].
Qed.

Lemma Part002_leaf_total (c : Part002.task) :
  c.2 = true → Part002.extractTotal fs c = Part002.sends fs c.
Proof.
  intros Hc. unfold Part002.extractTotal, Part002.sends.
  destruct (Part002.extractScriptsFromPackageJSON fs c) as [[spawned scripts]|] eqn:Hf; [|done].
  rewrite (Part002_leaf_spawns_nothing _ _ _ Hc Hf). simpl. by rewrite app_nil_r.
Qed.

Lemma Part002_extractTotal_fire (t : Part002.task) spawned scripts :
  Part002.extractScriptsFromPackageJSON fs t = Some (spawned, scripts) →
  Part002.extractTotal fs t = scripts ++ flat_map (Part002.extractTotal fs) spawned.
Proof.
  intros Hf. unfold Part002.extractTotal at 1. rewrite Hf. f_equal.
  pose proof (Part002_spawned_leaves _ _ _ Hf) as Hleaves. clear Hf.
  induction Hleaves as [|c spawned' Hc _ IH]; [done|].
  simpl. by rewrite IH, Part002_leaf_total.
Qed.

Lemma Part002_extractWeight_fire (t : Part002.task) spawned scripts :
  Part002.extractScriptsFromPackageJSON fs t = Some (spawned, scripts) →
  sum_list (Part002.extractWeight fs <$> spawned) < Part002.extractWeight fs t.
Proof.
  intros Hf. unfold Part002.extractWeight at 2. rewrite Hf.
  pose proof (Part002_spawned_leaves _ _ _ Hf) as Hleaves.
  apply Nat.lt_succ_r.
  clear Hf. induction Hleaves as [|c spawned' Hc _ IH]; [done|].
  rewrite fmap_cons. simpl.
  assert (Part002.extractWeight fs c = 1) as ->; [|lia].
  unfold Part002.extractWeight.
  destruct (Part002.extractScriptsFromPackageJSON fs c) as [[sp sc]|] eqn:Hfc; [|done].
  by rewrite (Part002_leaf_spawns_nothing _ _ _ Hc Hfc).
Qed.

Lemma Part002_extractSafe_fire (t : Part002.task) :
  Part002.extractSafe fs t →
  ∃ spawned scripts,
    Part002.extractScriptsFromPackageJSON fs t = Some (spawned, scripts)
    ∧ Forall (Part002.extractSafe fs) spawned.
Proof.
  intros (spawned & scripts & Hf & Hsp). exists spawned, scripts. split; [done|].
  pose proof (Part002_spawned_leaves _ _ _ Hf) as Hleaves.
  apply Forall_forall. intros c Hc.
  rewrite Forall_forall in Hsp, Hleaves.
  destruct (Part002.extractScriptsFromPackageJSON fs c) as [[sp sc]|] eqn:Hfc;
    [|by destruct (Hsp c Hc)].
  exists sp, sc. split; [done|].
  by rewrite (Part002_leaf_spawns_nothing _ _ _ (Hleaves c Hc) Hfc).
Qed.

Lemma Part002_mapM_sends (spawned : list Part002.task) (out : list (list NpmScript)) :
  mapM (fun c => snd <$> Part002.extractScriptsFromPackageJSON fs c) spawned = Some out →
  Forall (fun c => Part002.extractScriptsFromPackageJSON fs c ≠ None) spawned
  ∧ concat out = flat_map (Part002.sends fs) spawned.
Proof.
  intros Hout. apply mapM_Some_1 in Hout.
  induction Hout as [|c o spawned' out' Hc _ IH]; [done|].
  destruct IH as [IH1 IH2]. simpl. unfold Part002.sends at 1.
  destruct (Part002.extractScriptsFromPackageJSON fs c) as [[sp sc]|] eqn:Hfc; [|done].
  simpl in Hc. injection Hc as <-. split; [|by rewrite IH2].
  constructor; [by rewrite Hfc|done].
Qed.

Lemma Part002_mapM_sends_is_Some (spawned : list Part002.task) :
  Forall (fun c => Part002.extractScriptsFromPackageJSON fs c ≠ None) spawned →
  is_Some (mapM (fun c => snd <$> Part002.extractScriptsFromPackageJSON fs c) spawned).
Proof.
  intros Hall. apply mapM_is_Some_2. eapply Forall_impl; [apply Hall|].
  intros c Hc. simpl in *.
  destruct (Part002.extractScriptsFromPackageJSON fs c); [by eexists|done].
Qed.

(** [extractTree] is [extractTotal] when nothing panics. *)
Lemma Part002_extractTree_safe (t : Part002.task) (scripts : list NpmScript) :
  Part002.extractTree fs t = Some scripts ↔
  Part002.extractSafe fs t ∧ scripts = Part002.extractTotal fs t.
Proof.
  unfold Part002.extractTree, Part002.extractSafe, Part002.extractTotal.
  destruct (Part002.extractScriptsFromPackageJSON fs t) as [[spawned sent]|] eqn:Hf.
  - split.
    + destruct (mapM _ spawned) as [out|] eqn:Hout; [|done].
      simpl. intros [= <-]. destruct (Part002_mapM_sends _ _ Hout) as [H1 H2].
      split; [by exists spawned, sent|]. by rewrite H2.
    + intros [(sp & sc & [= <- <-] & Hall) ->].
      destruct (Part002_mapM_sends_is_Some _ Hall) as [out Hout]. rewrite Hout. simpl.
      by destruct (Part002_mapM_sends _ _ Hout) as [_ ->].
  - split; [done|]. by intros [(sp & sc & ? & _) _].
Qed.

Lemma Part002_extractAll_safe (filepaths : list string) (allScripts : list NpmScript) :
  Part002.extractScriptsFromPackageJSONsConcurrent fs filepaths = Some allScripts ↔
  Forall (Part002.extractSafe fs) ((fun p => (p, false)) <$> filepaths)
  ∧ allScripts = flat_map (Part002.extractTotal fs) ((fun p => (p, false)) <$> filepaths).
Proof.
  unfold Part002.extractScriptsFromPackageJSONsConcurrent.
  revert allScripts. induction filepaths as [|p filepaths IH]; intros allScripts.
  - simpl. split; [by intros [= <-]|by intros [_ ->]].
  - rewrite fmap_cons, Forall_cons. cbn [mapM]. simpl.
    destruct (Part002.extractTree fs (p, false)) as [sc|] eqn:Htree; simpl.
    + apply Part002_extractTree_safe in Htree as [Hsafe ->].
      destruct (mapM _ filepaths) as [out|] eqn:Hout; simpl.
      * destruct (IH (concat out)) as [IH1 _]. destruct (IH1 eq_refl) as [Hall Heq].
        split.
        -- intros [= <-]. split; [done|]. simpl in Heq. by rewrite Heq.
        -- intros [_ ->]. simpl in Heq. by rewrite Heq.
      * split; [done|]. intros [[_ Hall] ->].
        destruct (IH (flat_map (Part002.extractTotal fs) ((fun p => (p, false)) <$> filepaths)))
          as [_ IH2].
        by specialize (IH2 (conj Hall eq_refl)).
    + split; [done|]. intros [[Hsafe _] _].
      assert (Part002.extractTree fs (p, false) = Some (Part002.extractTotal fs (p, false)))
        as Hs by (by apply Part002_extractTree_safe).
      congruence.
Qed.

(** Every schedule of the extraction collects, up to order, what
    [extractScriptsFromPackageJSONsConcurrent] returns. *)
Lemma Part002_extract_completes (filepaths : list string) (allScripts : list NpmScript) :
  completes (Part002.extractScriptsFromPackageJSON fs) ((fun p => (p, false)) <$> filepaths)
    allScripts →
  ∃ reference,
    Part002.extractScriptsFromPackageJSONsConcurrent fs filepaths = Some reference
    ∧ allScripts ≡ₚ reference.
Proof.
  intros H. exists (flat_map (Part002.extractTotal fs) ((fun p => (p, false)) <$> filepaths)).
  split.
  - apply Part002_extractAll_safe. split; [|done].
    apply Forall_forall. intros t Ht.
    pose proof (pool_steps_no_panic _ _ _ _ H t Ht) as Hnp.
    destruct (Part002.extractScriptsFromPackageJSON fs t) as [[sp sc]|] eqn:Hf; [|done].
    exists sp, sc. split; [done|]. apply Forall_forall. intros c Hc.
    by eapply (pool_steps_spawned_no_panic _ _ _ _ H t sp sc).
  - eapply completes_total; [|done].
    intros t sp sc Hf. by rewrite (Part002_extractTotal_fire _ _ _ Hf).
Qed.

Lemma Part002_extract_first (filepaths : list string) (allScripts : list NpmScript) :
  Part002.extractScriptsFromPackageJSONsConcurrent fs filepaths = Some allScripts →
  completes (Part002.extractScriptsFromPackageJSON fs) ((fun p => (p, false)) <$> filepaths)
    allScripts.
Proof.
  intros [Hsafe ->]%Part002_extractAll_safe.
  eapply (completes_first _ _ (Part002.extractSafe fs) Part002_extractSafe_fire
            (Part002.extractWeight fs) Part002_extractWeight_fire Part002_extractTotal_fire).
  done.
Qed.

End Part002Extraction.

(* ===================================================================== *)
(** * Discovery: the function and the runs *)
(* ===================================================================== *)

(** The catalog [discover] computes is the catalog of a run. *)
Lemma Part002_discover_run (w : filesystem) (searchPath : string)
    (n : nat) (allScripts : list NpmScript) :
  Part002.discover w searchPath = Some (n, allScripts) →
  Part002.discovers w searchPath allScripts.
Proof.
  unfold Part002.discover, Part002.discovers.
  destruct (decide (_ = [])) as [|Hne]; [done|].
  destruct (Part002.extractScriptsFromPackageJSONsConcurrent _ _) as [c|] eqn:Hc; [|done].
  simpl. intros [= _ <-].
  exists (Part002.findProjectRootPackageJSONPathsConcurrent w searchPath).
  split; [apply Part002_walk_first|]. split; [done|]. by apply Part002_extract_first.
Qed.

(** The catalog of any run is, up to order, the catalog [discover] computes. *)
Lemma Part002_discovers_reference (w : filesystem) (searchPath : string)
    (allScripts : list NpmScript) :
  Part002.discovers w searchPath allScripts →
  ∃ n reference,
    Part002.discover w searchPath = Some (n, reference) ∧ allScripts ≡ₚ reference.
Proof.
  intros (paths & Hwalk & Hne & Hex).
  apply Part002_walk_completes in Hwalk.
  apply Part002_extract_completes in Hex as (ref & Href & Hperm).
  apply Part002_extractAll_safe in Href as [Hsafe ->].
  set (found := Part002.findProjectRootPackageJSONPathsConcurrent w searchPath) in *.
  exists (length found), (flat_map (Part002.extractTotal (mount w)) ((fun p => (p, false)) <$> found)).
  split.
  - unfold Part002.discover. fold found.
    destruct (decide (found = [])) as [Hnil|_].
    { rewrite Hnil in Hwalk. by apply Permutation_nil_r in Hwalk. }
    assert (Part002.extractScriptsFromPackageJSONsConcurrent (mount w) found
            = Some (flat_map (Part002.extractTotal (mount w)) ((fun p => (p, false)) <$> found)))
      as ->; [|done].
    apply Part002_extractAll_safe. split; [|done]. by rewrite <- Hwalk.
  - rewrite Hperm. by apply Permutation_flat_map, fmap_Permutation.
Qed.

(* ===================================================================== *)
(** * C10: the catalog does not depend on the schedule *)
(* ===================================================================== *)

(** C10.  Two discovery runs over the same tree, under any two schedules of
    the goroutines of the walk and of the extraction and with any order of
    Go's map iteration, collect the same scripts: the two catalogs are
    permutations of each other, so they are equal as sets. *)
Theorem discovery_is_deterministic (w : filesystem) (searchPath : string)
    (run1 run2 : list NpmScript) :
  Part002.discovers w searchPath run1 →
  Part002.discovers w searchPath run2 →
  run1 ≡ₚ run2 ∧ ∀ s, s ∈ run1 ↔ s ∈ run2.
Proof.
  intros (paths1 & Hw1 & _ & He1) (paths2 & Hw2 & _ & He2).
  assert (run1 ≡ₚ run2) as Hperm.
  { eapply (two_pools_deterministic Part002.walk Part002.walkTotal
              (Part002.extractScriptsFromPackageJSON (mount w))
              (Part002.extractTotal (mount w))); [| |exact Hw1|exact He1|exact Hw2|exact He2].
    - intros t sp sn Hf. by rewrite (Part002_walkTotal_fire _ _ _ Hf).
    - intros t sp sn Hf. by rewrite (Part002_extractTotal_fire _ _ _ _ Hf). }
  split; [done|]. intros s. by rewrite Hperm.
Qed.

Lemma discovery_is_deterministic_witness :
  [Fixtures.barTest; Fixtures.fooBuild] ≡ₚ [Fixtures.fooBuild; Fixtures.barTest]
  ∧ ∀ s, s ∈ [Fixtures.barTest; Fixtures.fooBuild] ↔ s ∈ [Fixtures.fooBuild; Fixtures.barTest].
Proof.
  apply (discovery_is_deterministic (Fixtures.monorepo (Fixtures.objectForm ["pkgs/*"])) ".").
  - exists ["package.json"]. split; [|split; [done|]].
    + apply (schedule_run _ [0]). vm_compute. reflexivity.
    + apply (schedule_run _ [0; 0; 0]). vm_compute. reflexivity.
  - exists ["package.json"]. split; [|split; [done|]].
    + apply (schedule_run _ [0]). vm_compute. reflexivity.
    + apply (schedule_run _ [0; 1; 0]). vm_compute. reflexivity.
Defined.

(** The same holds of the first iteration (main.go), whose goroutines
    walk every directory but node_modules and .git and extract one manifest
    each. *)
Lemma Main_walkTotal_fire (w : walker) (spawned : list walker) (sent : list string) :
  Main.walk w = Some (spawned, sent) →
  Main.walkTotal w = sent ++ flat_map Main.walkTotal spawned.
Proof.
  destruct w as [path [data|[] entries]|path [|e rest]]; simpl;
    try (intros [= <- <-]; simpl; by rewrite ?app_nil_r).
  unfold Main.visitEntry at 1.
  destruct (Main.descends e); [intros [= <- <-]; simpl; by rewrite ?app_nil_r|].
  destruct (String.eqb e.1 "package.json"); intros [= <- <-]; simpl; by rewrite ?app_nil_r.
Qed.

Lemma Main_runs_agree (w : filesystem) (searchPath : string)
    (run1 run2 : list NpmScript) :
  Main.discovers w searchPath run1 → Main.discovers w searchPath run2 → run1 ≡ₚ run2.
Proof.
  intros (paths1 & Hw1 & _ & He1) (paths2 & Hw2 & _ & He2).
  eapply (two_pools_deterministic Main.walk Main.walkTotal
            (Main.extractor (mount w)) (Main.extractTotal (mount w)) id);
    [| |exact Hw1|by rewrite list_fmap_id|exact Hw2|by rewrite list_fmap_id].
  - intros t sp sn Hf. by rewrite (Main_walkTotal_fire _ _ _ Hf).
  - intros t sp sn Hf. unfold Main.extractTotal. rewrite Hf.
    unfold Main.extractor in Hf.
    destruct (Main.extractScriptsFromPackageJSON (mount w) t) as [[scripts|e]|];
      [injection Hf as <- <-|injection Hf as <- <-|done]; simpl; by rewrite ?app_nil_r.
Qed.

(** The walk of the last iteration ends under every schedule: no run has
    more steps than twice the number of nodes below the root, plus one. *)
Lemma Part002_walk_terminates (w : filesystem) (rootPath : string) (n : nat)
    (s : pool (T:=walker) (E:=string)) :
  nsteps (pool_step Part002.walk) n (Running (Part002.rootWalkers w rootPath) []) s →
  n ≤ S (sum_list (walkWeight <$> Part002.rootWalkers w rootPath)).
Proof. apply pool_steps_bounded, Part002_walkWeight_fire. Qed.

(* ===================================================================== *)
(** * C9: one catalog entry per script of a manifest *)
(* ===================================================================== *)

Lemma rangeScripts_strings (packageName filePath : string) (scriptsMap : list (string * string)) :
  rangeScripts packageName filePath (prod_map id AnyString <$> scriptsMap)
  = Some (entryOf packageName filePath <$> scriptsMap).
Proof.
  induction scriptsMap as [|[name command] scriptsMap IH]; [done|].
  rewrite !fmap_cons. simpl. by rewrite IH.
Qed.

(** C9.  A manifest that parses and whose [scripts] field is a mapping of N
    names to command strings makes the extractor send exactly N entries, one
    per name, each with that name, that command string unchanged and the
    path of the manifest; this holds for the extractor of the last
    iteration (leaf or not) and for the extractor of the first. *)
Theorem one_entry_per_script (fs : FS) (filePath : string) (isLeaf : bool)
    (byteValue : content) (packageJSON : list (string * any))
    (scriptsMap : list (string * string)) :
  ReadFile fs filePath = Some byteValue →
  json_Unmarshal byteValue = Some packageJSON →
  mapaccess packageJSON "scripts" = AnyMap (prod_map id AnyString <$> scriptsMap) →
  let scripts := entryOf (packageNameOf packageJSON) filePath <$> scriptsMap in
  length scripts = length scriptsMap
  ∧ (∃ spawned,
       Part002.extractScriptsFromPackageJSON fs (filePath, isLeaf) = Some (spawned, scripts))
  ∧ Main.extractScriptsFromPackageJSON fs filePath = Some (Ok scripts).
Proof.
  intros Hread Hjson Hscripts scripts. split; [apply length_fmap|].
  unfold Part002.extractScriptsFromPackageJSON, Main.extractScriptsFromPackageJSON.
  rewrite Hread, Hjson. unfold scriptsOf. rewrite Hscripts, rangeScripts_strings. simpl.
  split; [|done]. destruct isLeaf; eauto.
Qed.

Lemma one_entry_per_script_witness :
  let scripts := [Fixtures.fooBuild] in
  length scripts = 1
  ∧ (∃ spawned,
       Part002.extractScriptsFromPackageJSON
         (mount (Fixtures.monorepo (Fixtures.objectForm ["pkgs/*"])))
         ("pkgs/foo/package.json", true) = Some (spawned, scripts))
  ∧ Main.extractScriptsFromPackageJSON
      (mount (Fixtures.monorepo (Fixtures.objectForm ["pkgs/*"])))
      "pkgs/foo/package.json" = Some (Ok scripts).
Proof.
  apply (one_entry_per_script
           (mount (Fixtures.monorepo (Fixtures.objectForm ["pkgs/*"])))
           "pkgs/foo/package.json" true
           (JSONText (JObject [("name", JString "foo");
                               ("scripts", Fixtures.scriptsObject [("build", "tsc")])]))
           [("name", AnyString "foo"); ("scripts", AnyMap [("build", AnyString "tsc")])]
           [("build", "tsc")]); vm_compute; reflexivity.
Defined.

(* ===================================================================== *)
(** * C5: a script whose command is not a string *)
(* ===================================================================== *)

Lemma rangeScripts_panics (packageName filePath : string) (scriptsMap : list (string * any)) :
  Exists (fun kv => ∀ c, kv.2 ≠ AnyString c) scriptsMap →
  rangeScripts packageName filePath scriptsMap = None.
Proof.
  induction 1 as [[name command] rest Hbad|[name command] rest _ IH]; simpl.
  - destruct command; try done. by destruct (Hbad s).
  - destruct command; try done. by rewrite IH.
Qed.

(** A manifest with a command that is not a string makes both extractors
    panic. *)
Lemma extraction_panics (fs : FS) (filePath : string) (isLeaf : bool) (byteValue : content)
    (packageJSON scriptsMap : list (string * any)) :
  ReadFile fs filePath = Some byteValue →
  json_Unmarshal byteValue = Some packageJSON →
  mapaccess packageJSON "scripts" = AnyMap scriptsMap →
  Exists (fun kv => ∀ c, kv.2 ≠ AnyString c) scriptsMap →
  Part002.extractScriptsFromPackageJSON fs (filePath, isLeaf) = None
  ∧ Main.extractScriptsFromPackageJSON fs filePath = None.
Proof.
  intros Hread Hjson Hscripts Hbad.
  unfold Part002.extractScriptsFromPackageJSON, Main.extractScriptsFromPackageJSON.
  rewrite Hread, Hjson. unfold scriptsOf. rewrite Hscripts.
  by rewrite (rangeScripts_panics _ _ _ Hbad).
Qed.

(** Every other shape mismatch is taken as an absent field: a [name] that
    is not a string, a [scripts] that is not an object, a [workspaces] that
    is neither object nor [[]string], a [packages] that is not an array and
    members of it that are not strings. *)
Lemma mismatches_taken_as_absent (packageJSON : list (string * any)) (filePath : string) :
  ((∀ s, mapaccess packageJSON "name" ≠ AnyString s) → packageNameOf packageJSON = "unknown")
  ∧ ((∀ m, mapaccess packageJSON "scripts" ≠ AnyMap m) →
     scriptsOf filePath packageJSON = Some None)
  ∧ ((∀ m, mapaccess packageJSON "workspaces" ≠ AnyMap m) →
     (∀ l, mapaccess packageJSON "workspaces" ≠ AnyStrings l) →
     Part002.workspacePatterns packageJSON = []).
Proof.
  unfold packageNameOf, scriptsOf, Part002.workspacePatterns.
  repeat split.
  - intros H. destruct (mapaccess packageJSON "name"); try done. by destruct (H s).
  - intros H. destruct (mapaccess packageJSON "scripts"); try done. by destruct (H m).
  - intros H1 H2. destruct (mapaccess packageJSON "workspaces"); try done.
    + by destruct (H1 m).
    + by destruct (H2 items).
Qed.

(** C5, at [{"name": "bad", "scripts": {"build": 1}}].  The extractor of
    the last iteration and the extractor of the first both panic on the
    manifest, and with it the whole discovery ends: no schedule of the run
    over the tree, which also holds a well-formed package, completes. *)
Theorem non_string_command_panics :
  Part002.extractScriptsFromPackageJSON (mount Fixtures.badCommand) ("bad/package.json", false)
  = None
  ∧ Main.extractScriptsFromPackageJSON (mount Fixtures.badCommand) "bad/package.json" = None
  ∧ Part002.findProjectRootPackageJSONPathsConcurrent Fixtures.badCommand "."
    = ["bad/package.json"; "good/package.json"]
  ∧ Part002.discover Fixtures.badCommand "." = None
  ∧ ∀ allScripts, ¬ Part002.discovers Fixtures.badCommand "." allScripts.
Proof.
  assert (Part002.discover Fixtures.badCommand "." = None) as Hnone by (vm_compute; reflexivity).
  split; [vm_compute; reflexivity|]. split; [vm_compute; reflexivity|].
  split; [vm_compute; reflexivity|]. split; [exact Hnone|].
  intros allScripts (n & ref & Href & _)%Part002_discovers_reference. congruence.
Qed.

(* ===================================================================== *)
(** * C3: the two shapes of the [workspaces] declaration *)
(* ===================================================================== *)

(** [json.Unmarshal] never stores a [[]string] in an interface value. *)
Lemma decode_not_strings (j : json) (patterns : list string) : decode j ≠ AnyStrings patterns.
Proof. by destruct j. Qed.

(** So the [case []string] of the type switch is never taken for a
    [workspaces] field that is a JSON array, and no pattern is read. *)
Lemma array_form_has_no_patterns (packageJSON : list (string * any)) (items : list json) :
  mapaccess packageJSON "workspaces" = decode (JArray items) →
  Part002.workspacePatterns packageJSON = [].
Proof. unfold Part002.workspacePatterns. by intros ->. Qed.

(** C3, at the tree of the specification's end-to-end example:
    /proj/package.json with [workspaces] and no scripts, /proj/pkgs/foo and
    /proj/pkgs/bar with one script each.  With the array form
    [["pkgs/*"]] the last iteration's catalog is empty, with the object form
    [{"packages": ["pkgs/*"]}] it holds both members' scripts; the iteration
    before (part_000) does the opposite. *)
Theorem array_form_yields_no_members :
  Part002.discover (Fixtures.monorepo (Fixtures.arrayForm ["pkgs/*"])) "." = Some (1, [])
  ∧ Part002.discover (Fixtures.monorepo (Fixtures.objectForm ["pkgs/*"])) "."
    = Some (1, [Fixtures.barTest; Fixtures.fooBuild])
  ∧ Part000.extractScriptsFromPackageJSON 2
      (mount (Fixtures.monorepo (Fixtures.arrayForm ["pkgs/*"]))) "package.json"
    = Part000.Done [Fixtures.barTest; Fixtures.fooBuild]
  ∧ Part000.extractScriptsFromPackageJSON 2
      (mount (Fixtures.monorepo (Fixtures.objectForm ["pkgs/*"]))) "package.json"
    = Part000.Done [].
Proof. repeat split; vm_compute; reflexivity. Qed.

(* ===================================================================== *)
(** * C4: a workspace pattern that resolves to the root manifest *)
(* ===================================================================== *)

(** The extractions of the last iteration always end: a run of the pool
    started on [filepaths] has at most as many steps as there are
    extractions to run, plus one. *)
Lemma Part002_extraction_terminates (fs : FS) (tasks : list Part002.task) (n : nat)
    (s : pool (T:=Part002.task) (E:=NpmScript)) :
  nsteps (pool_step (Part002.extractScriptsFromPackageJSON fs)) n (Running tasks []) s →
  n ≤ S (sum_list (Part002.extractWeight fs <$> tasks)).
Proof. apply pool_steps_bounded, Part002_extractWeight_fire. Qed.

(** The [pnpm-workspace.yaml] block skips the manifest it is run for. *)
Lemma pnpmMembers_skip_self (fs : FS) (filePath : string) :
  filePath ∉ Part002.pnpmMembers fs filePath.
Proof.
  unfold Part002.pnpmMembers.
  destruct (Stat fs (filepath.Join _ _)); [|by apply not_elem_of_nil].
  destruct (locatePnpmWorkspaces fs _) as [found|e]; [|by apply not_elem_of_nil].
  rewrite list_elem_of_In, filter_In. intros [_ H].
  by rewrite String.eqb_refl in H.
Qed.

(** In part_000 a manifest whose first workspace is a literal pattern that
    resolves to the manifest's own directory calls itself without end. *)
Lemma Part000_self_reference_overflows (fs : FS) (filePath : string) (byteValue : content)
    (packageJSON : list (string * any)) (sent : option (list NpmScript))
    (pattern : string) (rest : list any) :
  ReadFile fs filePath = Some byteValue →
  json_Unmarshal byteValue = Some packageJSON →
  scriptsOf filePath packageJSON = Some sent →
  mapaccess packageJSON "workspaces" = AnySlice (AnyString pattern :: rest) →
  strings.ContainsAny pattern "*?[" = false →
  filepath.Join (filepath.Join (filepath.Dir filePath) pattern) "package.json" = filePath →
  Stat fs filePath = true →
  ∀ depth, Part000.extractScriptsFromPackageJSON depth fs filePath = Part000.Overflowed.
Proof.
  intros Hread Hjson Hscripts Hws Hlit Hself Hstat depth.
  induction depth as [|depth IH]; [done|].
  simpl. rewrite Hread, Hjson, Hscripts, Hws. simpl.
  unfold Part000.expandWorkspace at 1. rewrite Hlit, Hself.
  unfold Part000.appendIfPresent at 1. rewrite Hstat, IH. done.
Qed.

(** C4, at [{"name": "root", "scripts": {"build": "tsc"}, "workspaces": W}]
    for a [W] that names the manifest's own directory.  In the last
    iteration, with [W = {"packages": ["."]}], the run ends and the root's
    script is in the catalog twice; through [pnpm-workspace.yaml] the same
    self reference yields it once.  In part_000, with [W = ["."]], the
    extractor calls itself at every depth and never returns. *)
Theorem self_reference_duplicates_root :
  Part002.discover (Fixtures.selfReferring (Fixtures.objectForm ["."])) "."
  = Some (1, [Fixtures.rootBuild; Fixtures.rootBuild])
  ∧ Part002.discover Fixtures.selfReferringPnpm "." = Some (1, [Fixtures.rootBuild])
  ∧ ∀ depth,
      Part000.extractScriptsFromPackageJSON depth
        (mount (Fixtures.selfReferring (Fixtures.arrayForm ["."]))) "package.json"
      = Part000.Overflowed.
Proof.
  split; [vm_compute; reflexivity|]. split; [vm_compute; reflexivity|].
  eapply (Part000_self_reference_overflows _ _ _ _ _ "." []); vm_compute; reflexivity.
Qed.

(* ===================================================================== *)
(** * C1: which manifests are extracted at most once *)
(* ===================================================================== *)

Lemma visit_invariant (fs : FS) (st : gset string * list string) (p : string) :
  Part002.knownInvariant st → Part002.knownInvariant (Part002.visit fs st p).
Proof.
  intros [Hsub Hnd]. unfold Part002.visit.
  case_bool_decide as Hknown; [done|].
  destruct (Stat fs p); split; simpl.
  - intros q [Hq|Hq%list_elem_of_singleton]%elem_of_app; set_solver.
  - apply NoDup_app. split; [done|]. split; [|apply NoDup_singleton].
    intros q Hq ->%list_elem_of_singleton. by apply Hknown, Hsub.
  - set_solver.
  - done.
Qed.

Lemma visits_invariant (fs : FS) (paths : list string) (st : gset string * list string) :
  Part002.knownInvariant st →
  Part002.knownInvariant (fold_left (fun st m => Part002.visit fs st (filepath.Join m "package.json")) paths st).
Proof.
  revert st. induction paths as [|m paths IH]; intros st H; [done|].
  simpl. by apply IH, visit_invariant.
Qed.

Lemma expandPattern_invariant (fs : FS) (filePath pattern : string)
    (st : gset string * list string) :
  Part002.knownInvariant st → Part002.knownInvariant (Part002.expandPattern fs filePath st pattern).
Proof.
  intros H. unfold Part002.expandPattern.
  destruct (strings.ContainsAny pattern "*?["); [|by apply visit_invariant].
  destruct (Glob fs _); [by apply visits_invariant|done].
Qed.

(** C1, as the code has it.  The pattern loop over one manifest's
    [workspaces] declaration spawns an extraction for each member manifest
    path at most once, however the patterns overlap: [knownWorkspaces], a
    set local to that loop, sees to it. *)
Theorem workspace_members_spawned_once (fs : FS) (filePath : string) (patterns : list string) :
  NoDup (Part002.workspaceMembers fs filePath patterns).
Proof.
  unfold Part002.workspaceMembers.
  assert (∀ st, Part002.knownInvariant st →
                Part002.knownInvariant (fold_left (Part002.expandPattern fs filePath) patterns st)) as H.
  { induction patterns as [|pattern patterns IH]; intros st Hst; [done|].
    simpl. by apply IH, expandPattern_invariant. }
  apply (H (∅, [])). split; [|apply NoDup_nil_2]. by intros p Hp%elem_of_nil.
Qed.

Example overlapping_patterns_spawn_once :
  Part002.discover
    (Fixtures.monorepo (Fixtures.objectForm ["pkgs/*"; "pkgs/foo"; "pkgs/f*"; "./pkgs/bar"])) "."
  = Some (1, [Fixtures.barTest; Fixtures.fooBuild]).
Proof. vm_compute. reflexivity. Qed.

Example declared_twice_extracted_twice :
  Part002.discover Fixtures.declaredTwice "."
  = Some (1, [Fixtures.fooBuild; Fixtures.fooBuild]).
Proof. vm_compute. reflexivity. Qed.

(** C1 fails as stated: no set of visited manifests is shared between
    extractions.  /proj/b/package.json is found by the walk and is a
    workspace member of /proj/a/package.json, which the walk finds too; its
    script is in the catalog twice, under every schedule. *)
Lemma manifest_found_and_member_extracted_twice :
  Part002.discover Fixtures.siblings "."
  = Some (2, [Fixtures.aStart; Fixtures.bTest; Fixtures.bTest])
  ∧ ∀ allScripts, Part002.discovers Fixtures.siblings "." allScripts → ¬ NoDup allScripts.
Proof.
  assert (Part002.discover Fixtures.siblings "."
          = Some (2, [Fixtures.aStart; Fixtures.bTest; Fixtures.bTest])) as Href
    by (vm_compute; reflexivity).
  split; [done|].
  intros allScripts (n & ref & Href' & Hperm)%Part002_discovers_reference.
  rewrite Href in Href'. injection Href' as <- <-. rewrite Hperm.
  intros [_ [Hin _]%NoDup_cons]%NoDup_cons. apply Hin. by left.
Qed.

(* ===================================================================== *)
(** * C8: inclusion and exclusion patterns of pnpm-workspace.yaml *)
(* ===================================================================== *)

Section Locate.

Variable fs : FS.


Lemma addMatches_elem (found : list string) (matchesSet : gset string) (m : string) :
  m ∈ fold_left (addMatch fs) found matchesSet
  ↔ m ∈ matchesSet ∨ (m ∈ found ∧ Stat fs m = true).
Proof.
  revert matchesSet. induction found as [|x found IH]; intros matchesSet; simpl.
  - rewrite elem_of_nil. naive_solver.
  - rewrite IH, elem_of_cons. unfold addMatch.
    destruct (Stat fs x) eqn:Hx.
    + rewrite elem_of_union, elem_of_singleton.
      split; [intros [[->|?]|[? ?]]|intros [?|[[->|?] ?]]]; auto.
    + split; [intros [?|[? ?]]|intros [?|[[->|?] ?]]]; auto. congruence.
Qed.

Lemma removeMatches_elem (found : list string) (matchesSet : gset string) (m : string) :
  m ∈ fold_left (fun s x => s ∖ {[x]}) found matchesSet ↔ m ∈ matchesSet ∧ m ∉ found.
Proof.
  revert matchesSet. induction found as [|x found IH]; intros matchesSet; simpl.
  - rewrite elem_of_nil. naive_solver.
  - rewrite IH, elem_of_difference, elem_of_singleton, not_elem_of_cons. naive_solver.
Qed.

(** The include loop ends without error exactly when every pattern is well
    formed, and then holds the matches that exist. *)
Lemma processIncludes_ok (patterns : list string) (matchesSet : gset string) :
  (∀ p, p ∈ patterns → Glob fs p ≠ None) →
  ∃ included,
    processIncludes fs patterns matchesSet = Ok included
    ∧ ∀ m, m ∈ included
           ↔ m ∈ matchesSet
             ∨ ∃ p found, p ∈ patterns ∧ Glob fs p = Some found ∧ m ∈ found ∧ Stat fs m = true.
Proof.
  revert matchesSet. induction patterns as [|p patterns IH]; intros matchesSet Hok; simpl.
  - exists matchesSet. split; [done|]. intros m. split; [by left|].
    intros [?|(p & found & []%elem_of_nil & _)]; done.
  - destruct (Glob fs p) as [found|] eqn:Hp; [|by destruct (Hok p (list_elem_of_here _ _))].
    destruct (IH (fold_left (addMatch fs) found matchesSet)) as (included & -> & Hin).
    { intros q Hq. apply Hok. by right. }
    exists included. split; [done|]. intros m. rewrite Hin, addMatches_elem. split.
    + intros [[?|[? ?]]|(q & fq & Hq & ? & ? & ?)]; [by left|right..].
      * exists p, found. split; [by left|done].
      * exists q, fq. split; [by right|done].
    + intros [?|(q & fq & [->|Hq]%elem_of_cons & Hg & ? & ?)]; [by left; left| |].
      * rewrite Hp in Hg. injection Hg as <-. left. by right.
      * right. by exists q, fq.
Qed.


Lemma processExcludes_ok (patterns : list string) (matchesSet : gset string) :
  (∀ p, p ∈ patterns → Glob fs p ≠ None) →
  ∃ kept,
    processExcludes fs patterns matchesSet = Ok kept
    ∧ ∀ m, m ∈ kept
           ↔ m ∈ matchesSet
             ∧ ¬ ∃ p found, p ∈ patterns ∧ Glob fs p = Some found ∧ m ∈ found.
Proof.
  revert matchesSet. induction patterns as [|p patterns IH]; intros matchesSet Hok; simpl.
  - exists matchesSet. split; [done|]. intros m. split; [|by intros [? _]].
    intros Hm. split; [done|]. by intros (p & found & []%elem_of_nil & _).
  - destruct (Glob fs p) as [found|] eqn:Hp; [|by destruct (Hok p (list_elem_of_here _ _))].
    destruct (IH (fold_left (fun s x => s ∖ {[x]}) found matchesSet)) as (kept & -> & Hin).
    { intros q Hq. apply Hok. by right. }
    exists kept. split; [done|]. intros m. rewrite Hin, removeMatches_elem. split.
    + intros [[Hm Hnot] Hrest]. split; [done|].
      intros (q & fq & [->|Hq]%elem_of_cons & Hg & Hmq).
      * rewrite Hp in Hg. by injection Hg as <-.
      * apply Hrest. by exists q, fq.
    + intros [Hm Hnone]. repeat split; [done| |].
      * intros Hmf. apply Hnone. exists p, found. split; [by left|done].
      * intros (q & fq & Hq & Hg & Hmq). apply Hnone. exists q, fq. split; [by right|done].
Qed.



End Locate.

(** The members returned are the inclusion matches less the exclusion
    matches. *)
Lemma pnpm_members_exist (fs : FS) (pnpmWorkspaceRoot : string)
    (data : content) (packages : list string) :
  ReadFile fs (pnpmWorkspaceRoot +:+ "/pnpm-workspace.yaml") = Some data →
  yaml_Unmarshal data = Some packages →
  (∀ p, p ∈ includePatterns pnpmWorkspaceRoot packages
            ++ excludePatterns pnpmWorkspaceRoot packages → Glob fs p ≠ None) →
  (∀ p found m, p ∈ includePatterns pnpmWorkspaceRoot packages →
                Glob fs p = Some found → m ∈ found → Stat fs m = true) →
  ∃ members,
    locatePnpmWorkspaces fs pnpmWorkspaceRoot = Ok members
    ∧ NoDup members
    ∧ ∀ m, m ∈ members
           ↔ (∃ p found, p ∈ includePatterns pnpmWorkspaceRoot packages
                ∧ Glob fs p = Some found ∧ m ∈ found)
             ∧ ¬ (∃ p found, p ∈ excludePatterns pnpmWorkspaceRoot packages
                    ∧ Glob fs p = Some found ∧ m ∈ found).
Proof.
  intros Hread Hyaml Hok Hexist.
  unfold locatePnpmWorkspaces. rewrite Hread, Hyaml.
  destruct (processIncludes_ok fs (includePatterns pnpmWorkspaceRoot packages) ∅)
    as (included & -> & Hincluded).
  { intros p Hp. apply Hok, elem_of_app. by left. }
  destruct (processExcludes_ok fs (excludePatterns pnpmWorkspaceRoot packages) included)
    as (kept & -> & Hkept).
  { intros p Hp. apply Hok, elem_of_app. by right. }
  exists (elements kept). split; [done|]. split; [apply NoDup_elements|].
  intros m. rewrite elem_of_elements, Hkept, Hincluded. split.
  - intros [[[]%elem_of_empty|(p & found & Hp & Hg & Hm & _)] Hnot]. split; [|done].
    by exists p, found.
  - intros [(p & found & Hp & Hg & Hm) Hnot]. split; [|done].
    right. exists p, found. repeat split; try done. by eapply Hexist.
Qed.




(** The example of the specification: [packages: ["apps/*", "!apps/legacy"]]
    over apps/a, apps/b and apps/legacy. *)
Example apps_without_legacy :
  ∃ members,
    locatePnpmWorkspaces (mount (Fixtures.pnpmWorkspace ["apps/*"; "!apps/legacy"])) "."
    = Ok members
    ∧ members ≡ₚ ["apps/a"; "apps/b"].
Proof.
  eexists. split; [vm_compute; reflexivity|].
  first [reflexivity | apply Permutation_swap].
Qed.

(* ===================================================================== *)
(** * C7: a pattern that is not a well-formed glob *)
(* ===================================================================== *)




(** The first half needs no pnpm-workspace.yaml: on a tree without the
    file the offending pattern of the manifest is skipped all the same. *)
Example invalid_pattern_skipped_without_workspace_file :
  let w := Fixtures.monorepo (Fixtures.objectForm ["pkgs/foo"; "pkgs/["; "pkgs/bar"]) in
  ReadFile (mount w) (filepath.Dir "package.json" +:+ "/pnpm-workspace.yaml") = None
  ∧ Part002.workspaceMembers (mount w) "package.json" (["pkgs/foo"] ++ "pkgs/[" :: ["pkgs/bar"])
    = Part002.workspaceMembers (mount w) "package.json" (["pkgs/foo"] ++ ["pkgs/bar"])
  ∧ Part002.discover w "." = Some (1, [Fixtures.fooBuild; Fixtures.barTest]).
Proof.
  split; [vm_compute; reflexivity|]. split; vm_compute; reflexivity.
Qed.

Example invalid_pattern_in_manifest :
  Part002.discover
    (Fixtures.appsRepo (Fixtures.objectForm ["apps/a"; "apps/["; "apps/b"]) []) "."
  = Some (1, [Fixtures.aDev; Fixtures.bAppTest]).
Proof. vm_compute. reflexivity. Qed.


(* ===================================================================== *)
(** * C6: the loop of [inferPackageManager] *)
(* ===================================================================== *)

(** [filepath.Dir] has two fixed points, and the loop stops at one of them
    only. *)
Lemma Dir_root : filepath.Dir "/" = "/".
Proof. reflexivity. Qed.

Lemma Dir_dot : filepath.Dir "." = ".".
Proof. reflexivity. Qed.

(** Once at "/" with no lock file there, the loop stays at "/". *)
Lemma inferLoop_at_root (fs : FS) :
  List.find (fun lp => Stat fs (filepath.Join "/" lp.1)) knownLockFiles = None →
  ∀ fuel, inferLoop fuel fs "/" = None.
Proof.
  intros Hnone fuel. induction fuel as [|fuel IH]; [done|].
  cbn [inferLoop]. rewrite Hnone. rewrite Dir_root.
  by replace (String.eqb "/" ".") with false by reflexivity.
Qed.

Lemma inferLoop_step (fs : FS) (fuel : nat) (dir : string) :
  String.eqb dir "." = false →
  List.find (fun lp => Stat fs (filepath.Join dir lp.1)) knownLockFiles = None →
  inferLoop (S fuel) fs dir = inferLoop fuel fs (filepath.Dir dir).
Proof. intros Hdot Hnone. cbn [inferLoop]. by rewrite Hdot, Hnone. Qed.

(** C6, at /proj/package.json with no lock file in /proj or in /.  Run as
    [go-npm-run /proj], the walk reports the manifest by the absolute path
    "/proj/package.json"; the loop of [inferPackageManager] reaches "/",
    whose [filepath.Dir] is "/" again and never ".", and goes on for any
    number of iterations without returning "npm".  With a relative path the
    loop does end, at "." and before looking there: for "package.json" next
    to a yarn.lock the answer is "npm". *)
Theorem inference_never_returns_on_absolute_path :
  Part002.findProjectRootPackageJSONPathsConcurrent Fixtures.noLockfile "/proj"
  = ["/proj/package.json"]
  ∧ (∀ fuel, inferPackageManager fuel (mount Fixtures.noLockfile) "/proj/package.json" = None)
  ∧ Stat (mount Fixtures.yarnRepo) "yarn.lock" = true
  ∧ (∀ fuel, inferPackageManager (S fuel) (mount Fixtures.yarnRepo) "package.json" = Some "npm").
Proof.
  split; [vm_compute; reflexivity|]. split; [|split; [vm_compute; reflexivity|]].
  - intros fuel. unfold inferPackageManager.
    replace (filepath.Dir "/proj/package.json") with "/proj" by reflexivity.
    destruct fuel as [|fuel]; [done|].
    rewrite inferLoop_step; [|reflexivity|vm_compute; reflexivity].
    replace (filepath.Dir "/proj") with "/" by reflexivity.
    apply inferLoop_at_root. vm_compute. reflexivity.
  - intros fuel. reflexivity.
Qed.

Example inference_examples :
  inferPackageManager 5 (mount Fixtures.yarnRepo) "/proj/package.json" = Some "yarn"
  ∧ inferPackageManager 5 (mount (Fixtures.monorepo JNull)) "pkgs/foo/package.json" = Some "npm".
Proof. split; vm_compute; reflexivity. Qed.

(* ===================================================================== *)
(** * Facts about [strings.Split] and [filepath.Clean] *)
(* ===================================================================== *)

Example Clean_examples :
  filepath.Clean <$> ["a/b/../c"; "/../a//b/./"; ""; "../../a/.."; "./a"; "/"; "a/../.."]
  = ["a/c"; "/a/b"; "."; "../.."; "a"; "/"; ".."].
Proof. reflexivity. Qed.

Example Dir_examples :
  filepath.Dir <$> ["/proj/package.json"; "/proj"; "/"; "a/b/package.json"; "package.json";
                    "."; "./a/package.json"]
  = ["/proj"; "/"; "/"; "a/b"; "."; "."; "a"].
Proof. reflexivity. Qed.

Example Join_examples :
  (filepath.Join "root/a" "../b", filepath.Join "." "package.json", filepath.Join "/" "x",
   filepath.Join "." ".")
  = ("root/b", "package.json", "/x", ".").
Proof. reflexivity. Qed.

Example Glob_examples :
  glob.Glob (Fixtures.pnpmWorkspace []) <$> ["apps/*"; "apps/[ab]"; "apps/?"; "*/legacy"; "apps/["]
  = [Some ["apps/a"; "apps/b"; "apps/legacy"]; Some ["apps/a"; "apps/b"];
     Some ["apps/a"; "apps/b"]; Some ["apps/legacy"]; None].
Proof. vm_compute. reflexivity. Qed.

Lemma append_nil (b : string) : "" +:+ b = b.
Proof. reflexivity. Qed.

Lemma append_String (x : ascii) (a b : string) : String x a +:+ b = String x (a +:+ b).
Proof. reflexivity. Qed.

Lemma Split_nonempty (s : string) (sep : ascii) : strings.Split s sep ≠ [].
Proof.
  induction s as [|c s IH]; cbn [strings.Split]; [done|].
  destruct (Ascii.eqb c sep); [done|]. by destruct (strings.Split s sep).
Qed.

(** Splitting at a separator splits the list of pieces. *)
Lemma Split_app (a b : string) :
  strings.Split (a +:+ String filepath.Separator b) filepath.Separator
  = strings.Split a filepath.Separator ++ strings.Split b filepath.Separator.
Proof.
  induction a as [|c a IH].
  - rewrite append_nil. cbn [strings.Split]. by rewrite Ascii.eqb_refl.
  - rewrite append_String. cbn [strings.Split].
    destruct (Ascii.eqb c filepath.Separator); [by rewrite IH|].
    rewrite IH. pose proof (Split_nonempty a filepath.Separator).
    by destruct (strings.Split a filepath.Separator).
Qed.

Lemma Split_noSeparator (x : string) :
  noSeparator x → strings.Split x filepath.Separator = [x].
Proof.
  unfold noSeparator.
  induction x as [|c x IH]; cbn [strings.Split strings.ContainsByte]; [done|].
  rewrite (Ascii.eqb_sym c). destruct (Ascii.eqb filepath.Separator c); [done|].
  intros H. by rewrite (IH H).
Qed.

Lemma Split_pieces (s : string) : Forall noSeparator (strings.Split s filepath.Separator).
Proof.
  induction s as [|c s IH]; cbn [strings.Split]; [by repeat constructor|].
  destruct (Ascii.eqb c filepath.Separator) eqn:Hc; [by constructor|].
  pose proof (Split_nonempty s filepath.Separator).
  destruct (strings.Split s filepath.Separator) as [|x r]; [done|].
  apply Forall_cons in IH as [Hx Hr]. constructor; [|done].
  unfold noSeparator in *. cbn [strings.ContainsByte]. by rewrite Ascii.eqb_sym, Hc.
Qed.

Lemma Join_cons (x : string) (l : list string) :
  l ≠ [] → strings.Join (x :: l) "/" = x +:+ String filepath.Separator (strings.Join l "/").
Proof. intros H. destruct l; [done|reflexivity]. Qed.

Lemma Split_Join (l : list string) :
  l ≠ [] → Forall noSeparator l → strings.Split (strings.Join l "/") filepath.Separator = l.
Proof.
  induction l as [|x l IH]; [done|]. intros _ [Hx Hl]%Forall_cons.
  destruct (decide (l = [])) as [->|Hne]; [by apply Split_noSeparator|].
  rewrite Join_cons by done. rewrite Split_app, Split_noSeparator by done.
  by rewrite IH.
Qed.

Lemma prefix_nil (s : string) : String.prefix "" s = true.
Proof. by destruct s. Qed.

Lemma IsAbs_String (c : ascii) (s : string) :
  filepath.IsAbs (String c s) = bool_decide (c = filepath.Separator).
Proof.
  unfold filepath.IsAbs, strings.HasPrefix. cbn [String.prefix].
  destruct (ascii_dec "/" c) as [<-|Hne].
  - by rewrite prefix_nil, bool_decide_eq_true_2.
  - by rewrite bool_decide_eq_false_2.
Qed.

Lemma IsAbs_append (a b : string) : a ≠ "" → filepath.IsAbs (a +:+ b) = filepath.IsAbs a.
Proof. intros H. destruct a; [done|]. by rewrite append_String, !IsAbs_String. Qed.

Lemma append_nonempty (a b : string) : a ≠ "" → a +:+ b ≠ "".
Proof. intros H. destruct a; [done|]. by rewrite append_String. Qed.

Lemma validName_proper (x : string) : validName x = true ↔ properName x.
Proof.
  unfold validName, properName, plainName, noSeparator.
  rewrite !andb_true_iff, !negb_true_iff, !String.eqb_neq. naive_solver.
Qed.

Lemma cleanStep_push (rooted : bool) (out : list string) (c : string) :
  properName c → filepath.cleanStep rooted out c = c :: out.
Proof.
  intros [(H1 & H2 & _) H3]. unfold filepath.cleanStep.
  apply String.eqb_neq in H1, H2, H3. by rewrite H1, H2, H3.
Qed.

Lemma keptStack_nil (rooted : bool) : keptStack rooted [].
Proof. split; [done|]. by exists [], 0. Qed.

Lemma plainName_dotdot : plainName "..".
Proof. by repeat split. Qed.

Lemma cleanStep_kept (rooted : bool) (stack : list string) (c : string) :
  noSeparator c → keptStack rooted stack → keptStack rooted (filepath.cleanStep rooted stack c).
Proof.
  intros Hc [Hplain (tops & k & -> & Htops & Hk)]. unfold filepath.cleanStep.
  destruct (String.eqb_spec c "") as [->|H1]; [by split; [|exists tops, k]|].
  destruct (String.eqb_spec c ".") as [->|H2]; [by split; [|exists tops, k]|].
  destruct (String.eqb_spec c "..") as [->|H3].
  - destruct tops as [|top tops]; simpl.
    + destruct k as [|k]; simpl.
      * destruct rooted; [apply keptStack_nil|].
        split; [by repeat constructor; apply plainName_dotdot|]. by exists [], 1.
      * split; [by constructor; [apply plainName_dotdot|]|].
        exists [], (S (S k)). split; [done|]. split; [done|].
        intros Hr. by specialize (Hk Hr).
    + apply Forall_cons in Htops as [Htop Htops].
      apply String.eqb_neq in Htop. rewrite Htop.
      simpl in Hplain. apply Forall_cons in Hplain as [_ Hplain].
      split; [done|]. by exists tops, k.
  - split; [by constructor|]. exists (c :: tops), k. split; [done|]. split; [|done].
    by constructor.
Qed.

Lemma fold_cleanStep_kept (rooted : bool) (l stack : list string) :
  Forall noSeparator l → keptStack rooted stack →
  keptStack rooted (fold_left (filepath.cleanStep rooted) l stack).
Proof.
  revert stack. induction l as [|c l IH]; intros stack Hl Hs; [done|].
  apply Forall_cons in Hl as [Hc Hl]. simpl. by apply IH, cleanStep_kept.
Qed.

Lemma elements_kept (p : string) : keptStack (filepath.IsAbs p) (rev (filepath.elements p)).
Proof.
  unfold filepath.elements. rewrite rev_involutive.
  apply fold_cleanStep_kept; [apply Split_pieces|apply keptStack_nil].
Qed.

Lemma fold_cleanStep_dotdots (rooted : bool) (k j : nat) :
  (rooted = true → k = 0) →
  fold_left (filepath.cleanStep rooted) (replicate k "..") (replicate j "..")
  = replicate (k + j) "..".
Proof.
  intros Hk. revert j. induction k as [|k IH]; intros j; [done|].
  destruct rooted; [by specialize (Hk eq_refl)|].
  cbn [replicate fold_left].
  assert (filepath.cleanStep false (replicate j "..") ".." = replicate (S j) "..") as ->
    by (by destruct j).
  rewrite IH by done. by rewrite Nat.add_succ_r.
Qed.

Lemma fold_cleanStep_names (rooted : bool) (tops acc : list string) :
  Forall properName tops →
  fold_left (filepath.cleanStep rooted) (rev tops) acc = tops ++ acc.
Proof.
  induction tops as [|t tops IH]; intros Htops; [done|].
  apply Forall_cons in Htops as [Ht Htops]. simpl.
  rewrite fold_left_app. simpl. rewrite IH by done. by apply cleanStep_push.
Qed.

(** Cleaning what [Clean] kept keeps all of it. *)
Lemma refold_kept (rooted : bool) (stack : list string) :
  keptStack rooted stack → fold_left (filepath.cleanStep rooted) (rev stack) [] = stack.
Proof.
  intros [Hplain (tops & k & -> & Htops & Hk)].
  rewrite rev_app_distr, fold_left_app.
  assert (rev (replicate k "..") = replicate k "..") as ->.
  { clear. induction k as [|k IH]; [done|]. simpl. rewrite IH.
    clear. induction k as [|k IH]; [done|]. simpl. by rewrite IH. }
  change (@nil string) with (replicate 0 "..") at 1.
  rewrite (fold_cleanStep_dotdots rooted k 0 Hk). rewrite Nat.add_0_r.
  apply fold_cleanStep_names.
  apply Forall_app in Hplain as [Hplain _].
  rewrite Forall_forall in Hplain, Htops. apply Forall_forall. intros x Hx.
  split; [by apply Hplain|by apply Htops].
Qed.

Lemma Split_String_sep (s : string) :
  strings.Split (String filepath.Separator s) filepath.Separator
  = "" :: strings.Split s filepath.Separator.
Proof. cbn [strings.Split]. by rewrite Ascii.eqb_refl. Qed.

Lemma plainName_not_abs (x : string) : plainName x → filepath.IsAbs x = false.
Proof.
  intros (Hne & _ & Hsep). destruct x as [|c x]; [done|].
  rewrite IsAbs_String. apply bool_decide_eq_false_2. intros ->.
  unfold noSeparator in Hsep. cbn [strings.ContainsByte] in Hsep.
  by rewrite Ascii.eqb_refl in Hsep.
Qed.

Lemma Join_head_nonempty (x : string) (l : list string) :
  x ≠ "" → strings.Join (x :: l) "/" ≠ "" ∧
  filepath.IsAbs (strings.Join (x :: l) "/") = filepath.IsAbs x.
Proof.
  intros Hx. destruct (decide (l = [])) as [->|Hne]; [done|].
  rewrite Join_cons by done. split; [by apply append_nonempty|by apply IsAbs_append].
Qed.

(** A path rendered from a kept stack reads back as that stack. *)
Lemma elements_render (rooted : bool) (l : list string) :
  keptStack rooted (rev l) →
  filepath.elements (filepath.render rooted l) = l
  ∧ filepath.IsAbs (filepath.render rooted l) = rooted
  ∧ filepath.render rooted l ≠ "".
Proof.
  intros Hkept. pose proof (refold_kept _ _ Hkept) as Hre. rewrite rev_involutive in Hre.
  assert (Forall plainName l) as Hplain.
  { destruct Hkept as [H _]. apply Forall_forall. intros x Hx.
    rewrite Forall_forall in H. apply H. rewrite list_elem_of_In, <- in_rev.
    by rewrite <- list_elem_of_In. }
  assert (Forall noSeparator l) as Hsep.
  { eapply Forall_impl; [apply Hplain|]. by intros x (_ & _ & ?). }
  unfold filepath.elements.
  destruct rooted.
  - unfold filepath.render.
    change ("/" +:+ strings.Join l "/") with (String filepath.Separator (strings.Join l "/")).
    rewrite IsAbs_String, bool_decide_eq_true_2 by done.
    split; [|done]. rewrite Split_String_sep. cbn [fold_left filepath.cleanStep String.eqb].
    destruct (decide (l = [])) as [->|Hne]; [done|].
    rewrite Split_Join by done. by rewrite Hre, rev_involutive.
  - destruct l as [|x l]; [done|].
    apply Forall_cons in Hplain as [Hx Hplain].
    assert (x ≠ "") as Hne by apply Hx.
    destruct (Join_head_nonempty x l Hne) as [Hjoin Habs].
    cbn [filepath.render]. rewrite Habs, (plainName_not_abs _ Hx).
    rewrite Split_Join by done. by rewrite Hre, rev_involutive.
Qed.

Lemma keptStack_push (rooted : bool) (stack : list string) (n : string) :
  properName n → keptStack rooted stack → keptStack rooted (n :: stack).
Proof.
  intros [Hn Hdd] [Hplain (tops & k & -> & Htops & Hk)].
  split; [by constructor|]. exists (n :: tops), k. split; [done|]. split; [|done].
  by constructor.
Qed.

(** Joining a proper name to a path appends one element. *)
Lemma elements_Join (p n : string) :
  p ≠ "" → properName n →
  filepath.elements (filepath.Join p n) = filepath.elements p ++ [n]
  ∧ filepath.IsAbs (filepath.Join p n) = filepath.IsAbs p
  ∧ filepath.Join p n ≠ "".
Proof.
  intros Hp Hn. unfold filepath.Join, filepath.Clean.
  apply String.eqb_neq in Hp as Hp'. rewrite Hp'.
  assert (p +:+ "/" +:+ n ≠ "") as Hne by (by apply append_nonempty).
  apply String.eqb_neq in Hne as ->.
  rewrite (IsAbs_append p) by done.
  assert (filepath.elements (p +:+ "/" +:+ n) = filepath.elements p ++ [n]) as ->.
  { unfold filepath.elements. rewrite (IsAbs_append p) by done.
    change ("/" +:+ n) with (String filepath.Separator n).
    rewrite Split_app, fold_left_app.
    rewrite (Split_noSeparator n) by apply Hn.
    cbn [fold_left]. by rewrite cleanStep_push. }
  apply elements_render. rewrite rev_app_distr. simpl.
  apply keptStack_push; [done|apply elements_kept].
Qed.

Lemma elements_fold_Join (p : string) (chain : list string) :
  p ≠ "" → Forall properName chain →
  filepath.elements (fold_left filepath.Join chain p) = filepath.elements p ++ chain
  ∧ filepath.IsAbs (fold_left filepath.Join chain p) = filepath.IsAbs p
  ∧ fold_left filepath.Join chain p ≠ "".
Proof.
  revert p. induction chain as [|n chain IH]; intros p Hp Hchain.
  - simpl. by rewrite app_nil_r.
  - apply Forall_cons in Hchain as [Hn Hchain].
    destruct (elements_Join p n Hp Hn) as (He & Ha & Hne).
    destruct (IH (filepath.Join p n) Hne Hchain) as (He' & Ha' & Hne').
    simpl. rewrite He', Ha', He, Ha. by rewrite <- (assoc_L (++)).
Qed.

Lemma properName_manifest : properName "package.json".
Proof. by apply validName_proper. Qed.

(** The path of a manifest reads back as the elements of the root path,
    the chain and "package.json". *)
Lemma elements_manifestAt (rootPath : string) (chain : list string) :
  rootPath ≠ "" → Forall properName chain →
  filepath.elements (Part002.manifestAt rootPath chain)
  = filepath.elements rootPath ++ chain ++ ["package.json"].
Proof.
  intros Hp Hchain. unfold Part002.manifestAt.
  destruct (elements_fold_Join rootPath chain Hp Hchain) as (He & _ & Hne).
  destruct (elements_Join _ "package.json" Hne properName_manifest) as (-> & _ & _).
  by rewrite He, <- (assoc_L (++)).
Qed.

Lemma manifestAt_inj (rootPath : string) (chain chain' : list string) :
  rootPath ≠ "" → Forall properName chain → Forall properName chain' →
  Part002.manifestAt rootPath chain = Part002.manifestAt rootPath chain' → chain = chain'.
Proof.
  intros Hp Hc Hc' Heq. apply (f_equal filepath.elements) in Heq.
  rewrite !elements_manifestAt in Heq by done.
  apply app_inv_head in Heq. by apply app_inv_tail in Heq.
Qed.

(* ===================================================================== *)
(** * C2: what the walk of the last iteration finds *)
(* ===================================================================== *)

(** Induction over a tree, with the property known of every entry of a
    directory. *)
Lemma node_entries_ind (P : node → Prop) :
  (∀ data, P (File data)) →
  (∀ readable entries, Forall (fun e => P e.2) entries → P (Dir readable entries)) →
  ∀ n, P n.
Proof.
  intros Hfile Hdir. fix IH 1. intros [data|readable entries]; [apply Hfile|].
  apply Hdir. induction entries as [|[name child] entries IHentries]; constructor.
  - apply IH.
  - apply IHentries.
Qed.

(** The walk sends the manifest path of each chain, in the order of the
    chains. *)
Lemma findPackageJSON_chains (dir : node) (path : string) :
  Part002.findPackageJSON path dir = Part002.manifestAt path <$> Part002.chains dir.
Proof.
  revert path. induction dir as [data|readable entries IH] using node_entries_ind;
    intros path; [done|].
  destruct readable; [|done]. simpl.
  destruct (hasManifest entries); [done|].
  induction IH as [|e entries He _ IHentries]; [done|].
  simpl. rewrite fmap_app, <- IHentries. f_equal.
  unfold Part002.visitEntry, Part002.chainsEntry.
  destruct (isDir e.2 && negb (Part002.ignored e.1))%bool; [|done].
  destruct e.2 as [data|r sub] eqn:Hchild; [done|].
  destruct (r && hasManifest sub)%bool; [done|].
  rewrite He, <- list_fmap_compose. done.
Qed.

Lemma wellFormed_Dir (readable : bool) (entries : list (string * node)) :
  wellFormed (Dir readable entries) = true
  ↔ NoDup (map fst entries)
    ∧ Forall (fun e => properName e.1 ∧ wellFormed e.2 = true) entries.
Proof.
  cbn [wellFormed]. rewrite andb_true_iff, bool_decide_eq_true, forallb_forall, Forall_forall.
  split; intros [Hnd Hall]; (split; [done|]); intros e He.
  - apply list_elem_of_In, Hall in He. apply andb_true_iff in He as [Hv Hw].
    by apply validName_proper in Hv.
  - apply list_elem_of_In, Hall in He as [Hv Hw]. apply validName_proper in Hv.
    by rewrite Hv, Hw.
Qed.

Lemma entry_elem (name : string) (child : node) (entries : list (string * node)) :
  os.entry name entries = Some child → (name, child) ∈ entries.
Proof.
  induction entries as [|[n c] entries IH]; [done|]. simpl.
  destruct (String.eqb_spec name n) as [->|Hne].
  - intros [= ->]. by left.
  - intros H. right. by apply IH.
Qed.

Lemma elem_entry (name : string) (child : node) (entries : list (string * node)) :
  NoDup (map fst entries) → (name, child) ∈ entries → os.entry name entries = Some child.
Proof.
  induction entries as [|[n c] entries IH]; intros Hnd Hin; [by apply elem_of_nil in Hin|].
  simpl in *. apply NoDup_cons in Hnd as [Hn Hnd].
  apply elem_of_cons in Hin as [[= -> ->]|Hin]; [by rewrite String.eqb_refl|].
  destruct (String.eqb_spec name n) as [->|Hne]; [|by apply IH].
  destruct Hn. apply list_elem_of_In, in_map_iff. exists (n, child).
  split; [done|]. by apply list_elem_of_In.
Qed.

Lemma chainsEntry_elem (descend : node → list (list string)) (e : string * node)
    (chain : list string) :
  chain ∈ Part002.chainsEntry descend e ↔
  ∃ readable sub,
    e.2 = Dir readable sub ∧ Part002.ignored e.1 = false
    ∧ (((readable && hasManifest sub)%bool = true ∧ chain = [e.1])
       ∨ ((readable && hasManifest sub)%bool = false
          ∧ ∃ rest, chain = e.1 :: rest ∧ rest ∈ descend e.2)).
Proof.
  unfold Part002.chainsEntry.
  generalize (Part002.ignored e.1). intros ig.
  destruct e.2 as [data|readable sub] eqn:Hchild; simpl.
  - rewrite elem_of_nil. split; [intros []|]. intros (? & ? & ? & _). congruence.
  - destruct ig; simpl.
    + rewrite elem_of_nil. split; [intros []|]. intros (? & ? & _ & ? & _). congruence.
    + destruct (readable && hasManifest sub)%bool eqn:Hman.
      * rewrite list_elem_of_singleton. split.
        -- intros ->. exists readable, sub. split; [reflexivity|]. split; [reflexivity|].
           left. split; [assumption|reflexivity].
        -- intros (? & ? & [= <- <-] & _ & [[_ ->]|[? _]]); [reflexivity|congruence].
      * rewrite list_elem_of_fmap. split.
        -- intros (rest & -> & Hrest). exists readable, sub.
           split; [reflexivity|]. split; [reflexivity|].
           right. split; [assumption|]. exists rest. split; [reflexivity|assumption].
        -- intros (? & ? & [= <- <-] & _ & [[? _]|[_ (rest & -> & Hrest)]]); [congruence|].
           exists rest. split; [reflexivity|assumption].
Qed.

(** The chains of a well-formed tree are made of proper names. *)
Lemma chains_names (dir : node) (chain : list string) :
  wellFormed dir = true → chain ∈ Part002.chains dir → Forall properName chain.
Proof.
  revert chain. induction dir as [data|readable entries IH] using node_entries_ind;
    intros chain Hwf Hchain; [by apply elem_of_nil in Hchain|].
  apply wellFormed_Dir in Hwf as [_ Hall].
  destruct readable; [|by apply elem_of_nil in Hchain]. simpl in Hchain.
  destruct (hasManifest entries); [by apply list_elem_of_singleton in Hchain as ->|].
  apply list_elem_of_In, in_flat_map in Hchain as (e & He & Hchain).
  apply list_elem_of_In in He, Hchain.
  rewrite Forall_forall in IH, Hall. destruct (Hall e He) as [Hname Hwf].
  apply chainsEntry_elem in Hchain
    as (r & sub & Hchild & _ & [[_ ->]|[_ (rest & -> & Hrest)]]).
  - constructor; [assumption|constructor].
  - constructor; [assumption|]. by apply (IH e He).
Qed.

(** No chain is listed twice. *)
Lemma chains_NoDup (dir : node) : wellFormed dir = true → NoDup (Part002.chains dir).
Proof.
  induction dir as [data|readable entries IH] using node_entries_ind;
    intros Hwf; [apply NoDup_nil_2|].
  apply wellFormed_Dir in Hwf as [Hnd Hall].
  destruct readable; [|apply NoDup_nil_2]. simpl.
  destruct (hasManifest entries); [apply NoDup_singleton|].
  induction entries as [|e entries IHentries]; [apply NoDup_nil_2|].
  apply Forall_cons in IH as [IHe IH]. apply Forall_cons in Hall as [[Hname Hwf] Hall].
  simpl in Hnd. apply NoDup_cons in Hnd as [Hfresh Hnd].
  simpl. apply NoDup_app. split; [|split; [|by apply IHentries]].
  - unfold Part002.chainsEntry.
    destruct (isDir e.2 && negb (Part002.ignored e.1))%bool; [|apply NoDup_nil_2].
    destruct e.2 as [data|r sub]; [apply NoDup_nil_2|].
    destruct (r && hasManifest sub)%bool; [apply NoDup_singleton|].
    apply NoDup_fmap_2; [|by apply IHe]. by intros x y [= ->].
  - intros chain Hchain Hin.
    apply chainsEntry_elem in Hchain as (r & sub & _ & _ & Hhead).
    apply list_elem_of_In, in_flat_map in Hin as (e' & He' & Hin).
    apply list_elem_of_In, chainsEntry_elem in Hin as (r' & sub' & _ & _ & Hhead').
    assert (e.1 = e'.1) as Heq.
    { destruct Hhead as [[_ ->]|[_ (rest & -> & _)]];
        destruct Hhead' as [[_ [= ->]]|[_ (rest' & [= -> _] & _)]]; done. }
    apply Hfresh. rewrite Heq. apply list_elem_of_In, in_map, He'.
Qed.

Lemma packageRootAt_nil (readable : bool) (entries : list (string * node)) :
  Part002.packageRootAt (Dir readable entries) []
  ↔ readable = true ∧ hasManifest entries = true.
Proof.
  unfold Part002.packageRootAt, Part002.descendsThrough. simpl. split.
  - intros (_ & _ & ents & [= -> <-] & Hman). split; [reflexivity|assumption].
  - intros [-> Hman]. split; [intros i Hi; lia|]. split; [constructor|].
    exists entries. split; [reflexivity|assumption].
Qed.

(** A chain with a first name leads to a package root exactly when the
    directory is read, holds no manifest, and its entry of that name is a
    directory that is not ignored and is, or leads to, a package root. *)
Lemma packageRootAt_cons (readable : bool) (entries : list (string * node))
    (name : string) (rest : list string) :
  Part002.packageRootAt (Dir readable entries) (name :: rest)
  ↔ readable = true ∧ hasManifest entries = false ∧ Part002.ignored name = false
    ∧ ∃ r sub,
        os.entry name entries = Some (Dir r sub)
        ∧ ((rest = [] ∧ r = true ∧ hasManifest sub = true)
           ∨ (rest ≠ [] ∧ Part002.packageRootAt (Dir r sub) rest)).
Proof.
  unfold Part002.packageRootAt, Part002.descendsThrough.
  split.
  - intros (Hd & Hign & ents' & Hwalk & Hman).
    apply Forall_cons in Hign as [Hign Hrest].
    destruct (Hd 0) as (ents & [= -> <-] & Hnone); [simpl; lia|].
    split; [reflexivity|]. split; [assumption|]. split; [assumption|].
    cbn [os.walk] in Hwalk.
    destruct (os.entry name entries) as [child|] eqn:Hentry; [|congruence].
    destruct rest as [|m rest].
    + simpl in Hwalk. injection Hwalk as ->. exists true, ents'.
      split; [reflexivity|]. left. split; [reflexivity|]. split; [reflexivity|assumption].
    + destruct (Hd 1) as (ents1 & Hw1 & Hnone1); [simpl; lia|].
      cbn [take os.walk] in Hw1. rewrite Hentry in Hw1. injection Hw1 as ->.
      exists true, ents1. split; [reflexivity|]. right. split; [congruence|].
      split; [|split; [assumption|]].
      * intros i Hi. destruct (Hd (S i)) as (entsi & Hwi & Hnonei); [simpl in *; lia|].
        cbn [take os.walk] in Hwi. rewrite Hentry in Hwi. exists entsi. split; assumption.
      * exists ents'. split; assumption.
  - intros (-> & Hnone & Hign & r & sub & Hentry & Hcases).
    assert (∀ i, i < length rest →
                 ∃ ents, os.walk (Dir r sub) (take i rest) = Some (Dir true ents)
                         ∧ hasManifest ents = false) as Hbelow.
    { destruct Hcases as [[-> _]|[_ (Hd & _)]]; [simpl; intros i Hi; lia|assumption]. }
    split; [|split].
    + intros [|i] Hi.
      * exists entries. split; [reflexivity|assumption].
      * cbn [take os.walk]. rewrite Hentry. apply Hbelow. simpl in Hi. lia.
    + constructor; [assumption|].
      destruct Hcases as [[-> _]|[_ (_ & Hrest & _)]]; [constructor|assumption].
    + cbn [os.walk]. rewrite Hentry.
      destruct Hcases as [[-> [-> Hman]]|[Hne (_ & _ & ents' & Hwalk & Hman)]].
      * exists sub. split; [reflexivity|assumption].
      * exists ents'. split; assumption.
Qed.

(** The chains the walk reports are the chains that lead to a package
    root it can reach. *)
Lemma chains_packageRootAt (dir : node) (chain : list string) :
  wellFormed dir = true →
  chain ∈ Part002.chains dir ↔ Part002.packageRootAt dir chain.
Proof.
  revert chain. induction dir as [data|readable entries IH] using node_entries_ind;
    intros chain Hwf.
  { simpl. rewrite elem_of_nil. split; [intros []|].
    unfold Part002.packageRootAt, Part002.descendsThrough.
    intros (Hd & _ & ents & Hwalk & _).
    destruct chain as [|n c]; [simpl in Hwalk; congruence|].
    destruct (Hd 0) as (e0 & Hw0 & _); [simpl; lia|]. simpl in Hw0. congruence. }
  apply wellFormed_Dir in Hwf as [Hnd Hall].
  rewrite Forall_forall in IH, Hall.
  destruct chain as [|name rest].
  - rewrite packageRootAt_nil. simpl.
    destruct readable; [|rewrite elem_of_nil; split; [intros []|intros [? _]; congruence]].
    destruct (hasManifest entries) eqn:Hman.
    + rewrite list_elem_of_singleton. split; [by split|reflexivity].
    + split; [|intros [_ ?]; congruence].
      intros Hin. apply list_elem_of_In, in_flat_map in Hin as (e & _ & Hin).
      apply list_elem_of_In, chainsEntry_elem in Hin
        as (? & ? & _ & _ & [[_ ?]|[_ (? & ? & _)]]); congruence.
  - rewrite packageRootAt_cons. simpl.
    destruct readable; [|rewrite elem_of_nil; split; [intros []|intros [? _]; congruence]].
    destruct (hasManifest entries) eqn:Hman.
    { rewrite list_elem_of_singleton. split; [congruence|]. intros (_ & ? & _). congruence. }
    rewrite list_elem_of_In, in_flat_map. split.
    + intros (e & He & Hin). apply list_elem_of_In in He.
      apply list_elem_of_In, chainsEntry_elem in Hin as (r & sub & Hchild & Hign & Hcases).
      assert (name = e.1) as ->
        by (destruct Hcases as [[_ [= -> _]]|[_ (? & [= -> _] & _)]]; reflexivity).
      split; [reflexivity|]. split; [reflexivity|]. split; [assumption|].
      exists r, sub. split.
      { apply elem_entry; [assumption|]. rewrite <- Hchild. by destruct e. }
      destruct Hcases as [[Hsub [= ->]]|[Hsub (rest' & [= ->] & Hrest)]].
      * left. apply andb_true_iff in Hsub as [-> Hsub].
        split; [reflexivity|]. split; [reflexivity|assumption].
      * right. destruct (Hall e He) as [_ Hwf].
        apply (IH e He) in Hrest; [|assumption]. rewrite Hchild in Hrest.
        split; [|assumption]. intros ->.
        apply packageRootAt_nil in Hrest as [-> Hman']. rewrite Hman' in Hsub. discriminate Hsub.
    + intros (_ & _ & Hign & r & sub & Hentry & Hcases).
      apply entry_elem in Hentry as Hin. exists (name, Dir r sub).
      split; [by apply list_elem_of_In|].
      apply list_elem_of_In, chainsEntry_elem. exists r, sub.
      split; [reflexivity|]. split; [assumption|].
      destruct Hcases as [[-> [-> Hsub]]|[Hne Hrest]].
      * left. split; [by rewrite Hsub|reflexivity].
      * destruct (Hall _ Hin) as [_ Hwf]. simpl in Hwf.
        assert ((r && hasManifest sub)%bool = false) as Hsub.
        { destruct rest as [|m rest]; [congruence|].
          apply packageRootAt_cons in Hrest as (_ & -> & _). apply andb_false_r. }
        right. split; [assumption|]. exists rest. split; [reflexivity|].
        by apply (IH _ Hin).
Qed.

Lemma resolve_nonempty (w : filesystem) (p : string) (n : node) :
  os.resolve w p = Some n → p ≠ "".
Proof. by intros H ->. Qed.

(** C2, as the code has it.  Started on a directory of a well-formed tree,
    the walk of the last iteration, under every schedule of its goroutines,
    sends each path exactly once, and the paths it sends are the manifests
    of the package roots it can reach: directories the process has access
    to, holding a manifest, that lie below no ignored name, below no
    directory without access and below no other directory holding a
    manifest.  A manifest in a directory without access is not among them:
    [os.Stat] fails on it.  A starting directory that holds a manifest
    yields that manifest alone: the walk does not look below a package
    root.  The elements of a path sent are those of the root path, the
    names of the chain, none of them ignored, and "package.json". *)
Theorem walk_finds_reachable_package_roots (w : filesystem) (rootPath : string)
    (dir : node) (filepaths : list string) :
  os.resolve w rootPath = Some dir →
  wellFormed dir = true →
  completes Part002.walk (Part002.rootWalkers w rootPath) filepaths →
  NoDup filepaths
  ∧ (∀ p, p ∈ filepaths
          ↔ ∃ chain, Part002.packageRootAt dir chain ∧ p = Part002.manifestAt rootPath chain)
  ∧ (∀ entries, dir = Dir true entries → hasManifest entries = true →
       filepaths = [filepath.Join rootPath "package.json"])
  ∧ (∀ chain, Part002.packageRootAt dir chain →
       Forall (fun name => name ∉ Part002.ignoredDirs) chain
       ∧ filepath.elements (Part002.manifestAt rootPath chain)
         = filepath.elements rootPath ++ chain ++ ["package.json"]).
Proof.
  intros Hres Hwf Hrun. apply Part002_walk_completes in Hrun.
  unfold Part002.findProjectRootPackageJSONPathsConcurrent in Hrun. rewrite Hres in Hrun.
  rewrite findPackageJSON_chains in Hrun.
  pose proof (resolve_nonempty _ _ _ Hres) as Hne.
  split; [|split; [|split]].
  - rewrite Hrun. apply NoDup_fmap_2_strong; [|by apply chains_NoDup].
    intros c c' Hc Hc'. apply manifestAt_inj; [assumption|by eapply chains_names..].
  - intros p. rewrite Hrun, list_elem_of_fmap. split.
    + intros (chain & -> & Hin). exists chain. split; [|reflexivity].
      by apply chains_packageRootAt.
    + intros (chain & Hroot & ->). exists chain. split; [reflexivity|].
      by apply chains_packageRootAt.
  - intros entries -> Hman. simpl in Hrun. rewrite Hman in Hrun.
    by apply Permutation_singleton_r in Hrun.
  - intros chain Hroot. split.
    + destruct Hroot as (_ & Hign & _). eapply Forall_impl; [apply Hign|].
      intros name Hname. by apply bool_decide_eq_false in Hname.
    + apply elements_manifestAt; [assumption|].
      eapply chains_names; [apply Hwf|]. by apply chains_packageRootAt.
Qed.

Lemma walk_finds_reachable_package_roots_witness :
  let dir := Dir true Fixtures.walkedEntries in
  NoDup ["apps/web/package.json"]
  ∧ (∀ p, p ∈ ["apps/web/package.json"]
          ↔ ∃ chain, Part002.packageRootAt dir chain ∧ p = Part002.manifestAt "." chain)
  ∧ (∀ entries, dir = Dir true entries → hasManifest entries = true →
       ["apps/web/package.json"] = [filepath.Join "." "package.json"])
  ∧ (∀ chain, Part002.packageRootAt dir chain →
       Forall (fun name => name ∉ Part002.ignoredDirs) chain
       ∧ filepath.elements (Part002.manifestAt "." chain)
         = filepath.elements "." ++ chain ++ ["package.json"]).
Proof.
  apply (walk_finds_reachable_package_roots Fixtures.walked ".").
  - vm_compute. reflexivity.
  - vm_compute. reflexivity.
  - apply (schedule_run _ [0; 1; 0; 0; 2; 1; 0; 0; 0; 0; 0]). vm_compute. reflexivity.
Defined.

(** C2 fails as stated.  /proj/pkgs/foo/package.json lies below no ignored
    directory, and the walk of the last iteration, started on /proj, which
    holds a manifest, does not report it under any schedule.  The walk of
    the first iteration does descend below /proj/package.json and reports
    all three manifests. *)
Lemma manifest_below_package_root_not_found :
  os.Stat (Fixtures.monorepo JNull) "pkgs/foo/package.json" = true
  ∧ Part002.findProjectRootPackageJSONPathsConcurrent (Fixtures.monorepo JNull) "."
    = ["package.json"]
  ∧ (∀ filepaths,
       completes Part002.walk (Part002.rootWalkers (Fixtures.monorepo JNull) ".") filepaths →
       "pkgs/foo/package.json" ∉ filepaths)
  ∧ Main.findPackageJSONPathsConcurrent (Fixtures.monorepo JNull) "."
    = ["./package.json"; "./pkgs/bar/package.json"; "./pkgs/foo/package.json"].
Proof.
  assert (Part002.findProjectRootPackageJSONPathsConcurrent (Fixtures.monorepo JNull) "."
          = ["package.json"]) as Href by (vm_compute; reflexivity).
  split; [vm_compute; reflexivity|]. split; [exact Href|].
  split; [|vm_compute; reflexivity].
  intros filepaths Hrun%Part002_walk_completes. rewrite Href in Hrun.
  apply Permutation_singleton_r in Hrun as ->.
  intros [=]%list_elem_of_singleton.
Qed.

(** A manifest in a directory without access is not reported either:
    [os.Stat] on it fails, and so does [os.Open] on the directory, in the
    goroutine spawned for it. *)
Example manifest_without_access_not_found :
  os.Stat Fixtures.lockedManifest "locked" = true
  ∧ os.Stat Fixtures.lockedManifest "locked/package.json" = false
  ∧ Part002.findProjectRootPackageJSONPathsConcurrent Fixtures.lockedManifest "."
    = ["open/package.json"]
  ∧ ∀ filepaths,
      completes Part002.walk (Part002.rootWalkers Fixtures.lockedManifest ".") filepaths →
      filepaths = ["open/package.json"].
Proof.
  assert (Part002.findProjectRootPackageJSONPathsConcurrent Fixtures.lockedManifest "."
          = ["open/package.json"]) as Href by (vm_compute; reflexivity).
  split; [vm_compute; reflexivity|]. split; [vm_compute; reflexivity|].
  split; [exact Href|].
  intros filepaths Hrun%Part002_walk_completes. rewrite Href in Hrun.
  by apply Permutation_singleton_r in Hrun.
Qed.

(* ===================================================================== *)
(** * What [filepath.Glob] returns over a tree exists *)
(* ===================================================================== *)

Lemma walk_app (n : node) (elems elems' : list string) :
  os.walk n (elems ++ elems')
  = match os.walk n elems with Some d => os.walk d elems' | None => None end.
Proof.
  revert n. induction elems as [|e elems IH]; intros n; [done|].
  simpl. destruct n as [data|[] entries]; [done| |done].
  destruct (os.entry e entries); [apply IH|done].
Qed.

Lemma walk_wellFormed (n d : node) (elems : list string) :
  wellFormed n = true → os.walk n elems = Some d → wellFormed d = true.
Proof.
  revert n. induction elems as [|e elems IH]; intros n Hwf; simpl.
  - by intros [= <-].
  - destruct n as [data|[] entries]; [done| |done].
    destruct (os.entry e entries) as [c|] eqn:Hentry; [|done].
    apply IH. apply wellFormed_Dir in Hwf as [_ Hall].
    rewrite Forall_forall in Hall. apply entry_elem in Hentry.
    by destruct (Hall _ Hentry).
Qed.

Lemma resolve_wellFormed (w : filesystem) (p : string) (d : node) :
  wellFormed (root w) = true → os.resolve w p = Some d → wellFormed d = true.
Proof.
  intros Hwf. unfold os.resolve. destruct (String.eqb p ""); [done|].
  destruct (filepath.IsAbs p); by apply walk_wellFormed.
Qed.

Lemma entry_of_name (name : string) (entries : list (string * node)) :
  name ∈ entries.*1 → ∃ child, os.entry name entries = Some child.
Proof.
  induction entries as [|[n c] entries IH]; [by intros ?%elem_of_nil|].
  rewrite fmap_cons, elem_of_cons. simpl.
  destruct (String.eqb_spec name n) as [->|Hne]; [by eexists|].
  intros [?|Hin]; [done|by apply IH].
Qed.

(** The node named by a directory's path joined to one of its names. *)
Lemma resolve_Join (w : filesystem) (dir name : string)
    (entries : list (string * node)) :
  os.resolve w dir = Some (Dir true entries) → properName name →
  os.resolve w (filepath.Join dir name) = os.entry name entries.
Proof.
  intros Hres Hname. pose proof (resolve_nonempty _ _ _ Hres) as Hne.
  destruct (elements_Join dir name Hne Hname) as (Hel & Habs & Hne').
  unfold os.resolve in *.
  apply String.eqb_neq in Hne, Hne'. rewrite Hne in Hres. rewrite Hne', Habs, Hel.
  destruct (filepath.IsAbs dir).
  - rewrite walk_app, Hres. simpl. by destruct (os.entry name entries).
  - rewrite (assoc_L (++)), fold_left_app. simpl.
    rewrite cleanStep_push by done. simpl. rewrite walk_app, Hres. simpl.
    by destruct (os.entry name entries).
Qed.

Lemma globDir_exists (w : filesystem) (dir pattern : string) (found : list string) :
  wellFormed (root w) = true →
  Forall (fun m => os.Stat w m = true) found →
  Forall (fun m => os.Stat w m = true) (glob.globDir w dir pattern found).
Proof.
  intros Hwf Hfound. unfold glob.globDir.
  destruct (os.resolve w dir) as [[data|[] entries]|] eqn:Hres; try done.
  apply Forall_app. split; [done|].
  apply Forall_fmap, Forall_forall. intros name [_ Hname]%list_elem_of_filter. simpl.
  pose proof (resolve_wellFormed _ _ _ Hwf Hres) as Hdir.
  apply wellFormed_Dir in Hdir as [_ Hall]. rewrite Forall_forall in Hall.
  destruct (entry_of_name _ _ Hname) as [child Hentry].
  apply entry_elem in Hentry as Hin. destruct (Hall _ Hin) as [Hproper _].
  simpl in Hproper. unfold os.Stat. by rewrite (resolve_Join _ _ _ _ Hres Hproper), Hentry.
Qed.

Lemma Glob_exists (w : filesystem) (pattern : string) (found : list string) :
  wellFormed (root w) = true →
  glob.Glob w pattern = Some found → Forall (fun m => os.Stat w m = true) found.
Proof.
  intros Hwf. unfold glob.Glob. generalize (S (String.length pattern)). intros fuel.
  revert pattern found. induction fuel as [|fuel IH]; intros pattern found; [done|].
  cbn [glob.GlobFuel]. destruct (glob.parse pattern); [|done].
  destruct (glob.hasMeta pattern); cbn [negb].
  - destruct (glob.hasMeta (glob.cleanGlobPath (filepath.dirPart pattern))); cbn [negb].
    + destruct (String.eqb _ pattern); [done|].
      destruct (glob.GlobFuel fuel w _) as [dirs|] eqn:Hdirs; [|done].
      intros [= <-]. clear Hdirs.
      assert (∀ acc, Forall (fun m => os.Stat w m = true) acc →
                     Forall (fun m => os.Stat w m = true)
                       (fold_left (fun found d => glob.globDir w d (glob.filePart pattern) found)
                          dirs acc)) as Hfold.
      { induction dirs as [|d dirs IHdirs]; intros acc Hacc; [done|].
        simpl. by apply IHdirs, globDir_exists. }
      by apply Hfold.
    + intros [= <-]. by apply globDir_exists.
  - destruct (os.Stat w pattern) eqn:Hstat; intros [= <-]; by repeat constructor.
Qed.

(** C8 over a tree: without symbolic links what [filepath.Glob] returns
    exists, and the members are the inclusion matches less the exclusion
    matches with no further condition. *)
Lemma mounted_members_are_includes_minus_excludes (w : filesystem) (pnpmWorkspaceRoot : string)
    (packages : list string) :
  wellFormed (root w) = true →
  ReadFile (mount w) (pnpmWorkspaceRoot +:+ "/pnpm-workspace.yaml") = Some (YAMLText packages) →
  (∀ p, p ∈ includePatterns pnpmWorkspaceRoot packages
            ++ excludePatterns pnpmWorkspaceRoot packages → glob.Glob w p ≠ None) →
  ∃ members,
    locatePnpmWorkspaces (mount w) pnpmWorkspaceRoot = Ok members
    ∧ NoDup members
    ∧ ∀ m, m ∈ members
           ↔ (∃ p found, p ∈ includePatterns pnpmWorkspaceRoot packages
                ∧ glob.Glob w p = Some found ∧ m ∈ found)
             ∧ ¬ (∃ p found, p ∈ excludePatterns pnpmWorkspaceRoot packages
                    ∧ glob.Glob w p = Some found ∧ m ∈ found).
Proof.
  intros Hwf Hread Hok.
  apply (pnpm_members_exist (mount w) pnpmWorkspaceRoot (YAMLText packages) packages);
    [assumption|reflexivity|assumption|].
  intros p found m _ Hglob Hm. simpl in Hglob.
  pose proof (Glob_exists _ _ _ Hwf Hglob) as Hall.
  rewrite Forall_forall in Hall. by apply Hall.
Qed.

(* ===================================================================== *)
(** * [inferPackageManager] on relative paths, and what it answers *)
(* ===================================================================== *)

Lemma append_assoc (a b c : string) : (a +:+ b) +:+ c = a +:+ (b +:+ c).
Proof. induction a as [|x a IH]; [done|]. by rewrite !append_String, IH. Qed.

Lemma append_empty (a : string) : a +:+ "" = a.
Proof. induction a as [|x a IH]; [done|]. by rewrite append_String, IH. Qed.

Lemma dirPart_noSeparator (x : string) : noSeparator x → filepath.dirPart x = "".
Proof. intros H. destruct x as [|c x]; [done|]. cbn [filepath.dirPart]. by rewrite H. Qed.

Lemma ContainsByte_separator (a b : string) :
  strings.ContainsByte filepath.Separator (a +:+ String filepath.Separator b) = true.
Proof.
  induction a as [|c a IH]; [done|].
  rewrite append_String. cbn [strings.ContainsByte]. rewrite IH. by destruct (Ascii.eqb _ c).
Qed.

(** The directory part of a path ending in an element goes up to the
    separator before that element. *)
Lemma dirPart_append (a x : string) :
  noSeparator x →
  filepath.dirPart (a +:+ String filepath.Separator x) = a +:+ String filepath.Separator "".
Proof.
  intros Hx. induction a as [|c a IH].
  - rewrite !append_nil. cbn [filepath.dirPart strings.ContainsByte].
    rewrite Ascii.eqb_refl. by rewrite (dirPart_noSeparator x).
  - rewrite !append_String. cbn [filepath.dirPart].
    rewrite <- append_String, ContainsByte_separator. by rewrite IH.
Qed.

Lemma cleanStep_empty (rooted : bool) (out : list string) : filepath.cleanStep rooted out "" = out.
Proof. done. Qed.

(** A trailing separator does not change what a path cleans to. *)
Lemma Clean_trailing_separator (s : string) :
  s ≠ "" → filepath.Clean (s +:+ String filepath.Separator "") = filepath.Clean s.
Proof.
  intros Hs. unfold filepath.Clean, filepath.elements.
  assert (s +:+ String filepath.Separator "" ≠ "") as Hne by (by apply append_nonempty).
  apply String.eqb_neq in Hne as ->. apply String.eqb_neq in Hs as Hs'. rewrite Hs'.
  rewrite (IsAbs_append s) by done.
  rewrite Split_app, fold_left_app. cbn [strings.Split fold_left]. by rewrite cleanStep_empty.
Qed.

Lemma Clean_render (rooted : bool) (l : list string) :
  keptStack rooted (rev l) → filepath.Clean (filepath.render rooted l) = filepath.render rooted l.
Proof.
  intros Hkept. destruct (elements_render rooted l Hkept) as (Hel & Habs & Hne).
  unfold filepath.Clean. apply String.eqb_neq in Hne as ->. by rewrite Hel, Habs.
Qed.

Lemma Join_snoc (l : list string) (x : string) :
  l ≠ [] → strings.Join (l ++ [x]) "/" = strings.Join l "/" +:+ String filepath.Separator x.
Proof.
  induction l as [|a l IH]; [done|]. intros _.
  destruct l as [|b l]; [reflexivity|].
  change ((a :: b :: l) ++ [x]) with (a :: ((b :: l) ++ [x])).
  rewrite Join_cons by done. rewrite IH by done.
  rewrite (Join_cons a (b :: l)) by done.
  rewrite append_assoc. by rewrite append_String.
Qed.

Lemma keptStack_pop (rooted : bool) (x : string) (stack : list string) :
  keptStack rooted (x :: stack) → keptStack rooted stack.
Proof.
  intros (Hplain & tops & k & Heq & Htops & Hk).
  split; [by apply Forall_cons in Hplain as [_ ?]|].
  destruct tops as [|t tops].
  - destruct k as [|k]; [done|]. simpl in Heq. injection Heq as _ ->.
    exists [], k. split; [done|]. split; [done|]. intros Hr. by specialize (Hk Hr).
  - simpl in Heq. injection Heq as _ ->. exists tops, k.
    split; [done|]. split; [|done]. by apply Forall_cons in Htops as [_ ?].
Qed.

(** [Dir] of a cleaned relative path drops its last element. *)
Lemma Dir_render_snoc (l : list string) (x : string) :
  keptStack false (rev (l ++ [x])) →
  filepath.Dir (filepath.render false (l ++ [x])) = filepath.render false l.
Proof.
  intros Hkept. rewrite rev_app_distr in Hkept. simpl in Hkept.
  assert (noSeparator x) as Hx.
  { destruct Hkept as [H _]. apply Forall_cons in H as [(_ & _ & ?) _]. done. }
  apply keptStack_pop in Hkept as Hl.
  unfold filepath.Dir. destruct l as [|a l].
  - simpl. by rewrite (dirPart_noSeparator x).
  - assert (filepath.render false ((a :: l) ++ [x]) = strings.Join ((a :: l) ++ [x]) "/") as ->
      by done.
    rewrite Join_snoc by done. rewrite dirPart_append by done.
    destruct (elements_render false (a :: l) Hl) as (_ & _ & Hne).
    change (strings.Join (a :: l) "/") with (filepath.render false (a :: l)).
    rewrite Clean_trailing_separator by done. by apply Clean_render.
Qed.

Lemma inferLoop_more_fuel (fs : FS) (fuel fuel' : nat) (dir pm : string) :
  inferLoop fuel fs dir = Some pm → fuel ≤ fuel' → inferLoop fuel' fs dir = Some pm.
Proof.
  revert fuel' dir. induction fuel as [|fuel IH]; intros fuel' dir H Hle; [done|].
  destruct fuel' as [|fuel']; [lia|]. cbn [inferLoop] in *.
  destruct (String.eqb dir "."); [done|].
  destruct (List.find _ knownLockFiles) as [[? ?]|]; [done|].
  apply IH; [done|lia].
Qed.

(** From a cleaned relative directory the loop reaches "." in as many
    rounds as the directory has elements. *)
Lemma inferLoop_relative (fs : FS) (l : list string) :
  keptStack false (rev l) →
  ∃ pm, inferLoop (S (length l)) fs (filepath.render false l) = Some pm.
Proof.
  induction l as [|x l IH] using rev_ind; intros Hkept.
  - by exists "npm".
  - cbn [inferLoop]. destruct (String.eqb _ "."); [by eexists|].
    destruct (List.find _ knownLockFiles) as [[? pm]|]; [by eexists|].
    rewrite Dir_render_snoc by done.
    rewrite rev_app_distr in Hkept. apply keptStack_pop in Hkept.
    destruct (IH Hkept) as [pm Hpm]. exists pm.
    eapply inferLoop_more_fuel; [apply Hpm|]. rewrite length_app. simpl. lia.
Qed.

Lemma IsAbs_dirPart (p : string) :
  filepath.IsAbs p = false → filepath.IsAbs (filepath.dirPart p) = false.
Proof.
  destruct p as [|c p]; [done|]. cbn [filepath.dirPart].
  destruct (strings.ContainsByte _ _); [|done]. by rewrite !IsAbs_String.
Qed.

(** The directory of a relative path is a cleaned relative path. *)
Lemma Dir_relative (p : string) :
  filepath.IsAbs p = false →
  filepath.Dir p = filepath.render false (filepath.elements (filepath.Dir p))
  ∧ keptStack false (rev (filepath.elements (filepath.Dir p))).
Proof.
  intros Hrel. apply IsAbs_dirPart in Hrel. unfold filepath.Dir, filepath.Clean.
  destruct (String.eqb (filepath.dirPart p) "") eqn:He.
  - split; [done|]. apply keptStack_nil.
  - rewrite Hrel. pose proof (elements_kept (filepath.dirPart p)) as Hkept.
    rewrite Hrel in Hkept.
    destruct (elements_render false _ Hkept) as (-> & _ & _). done.
Qed.

(** X1.  On a relative path the loop of [inferPackageManager] ends: the
    function returns a package manager within one round per element of the
    manifest's directory, and one more. *)
Theorem inference_returns_on_relative_path (fs : FS) (filePath : string) (fuel : nat) :
  filepath.IsAbs filePath = false →
  length (filepath.elements (filepath.Dir filePath)) < fuel →
  ∃ pm, inferPackageManager fuel fs filePath = Some pm.
Proof.
  intros Hrel Hfuel. destruct (Dir_relative _ Hrel) as [Hdir Hkept].
  destruct (inferLoop_relative fs _ Hkept) as [pm Hpm]. exists pm.
  unfold inferPackageManager. rewrite Hdir.
  eapply inferLoop_more_fuel; [apply Hpm|lia].
Qed.

Lemma inference_returns_on_relative_path_witness :
  ∃ pm, inferPackageManager 3 (mount Fixtures.yarnMonorepo) "pkgs/foo/package.json" = Some pm.
Proof.
  apply (inference_returns_on_relative_path (mount Fixtures.yarnMonorepo)
           "pkgs/foo/package.json" 3); [reflexivity | vm_compute; lia].
Defined.

Lemma find_lock_file (fs : FS) (dir : string) :
  match List.find (fun lp => Stat fs (filepath.Join dir lp.1)) knownLockFiles with
  | Some lp => lp ∈ knownLockFiles ∧ Stat fs (filepath.Join dir lp.1) = true
               ∧ holdsLockFile fs dir = true
  | None => holdsLockFile fs dir = false
  end.
Proof.
  unfold holdsLockFile.
  destruct (List.find _ _) as [lp|] eqn:Hfind.
  - apply find_some in Hfind as [Hin Hstat]. split; [by apply list_elem_of_In|].
    split; [done|]. apply existsb_exists. by exists lp.
  - apply not_true_is_false. intros (lp & Hin & Hstat)%existsb_exists.
    by rewrite (find_none _ _ Hfind lp Hin) in Hstat.
Qed.




Lemma inferLoop_default (fs : FS) (k fuel : nat) (dir : string) :
  (∀ j, j < k → holdsLockFile fs (Nat.iter j filepath.Dir dir) = false) →
  Nat.iter k filepath.Dir dir = "." →
  k < fuel →
  inferLoop fuel fs dir = Some "npm".
Proof.
  revert fuel dir. induction k as [|k IH]; intros fuel dir Hnone Hdot Hfuel.
  - destruct fuel as [|fuel]; [lia|]. simpl in Hdot. by rewrite Hdot.
  - destruct fuel as [|fuel]; [lia|]. cbn [inferLoop].
    destruct (String.eqb dir "."); [done|].
    pose proof (find_lock_file fs dir) as Hfind.
    pose proof (Hnone 0 (Nat.lt_0_succ _)) as Hnone0. simpl in Hnone0.
    destruct (List.find _ _) as [[lock pm]|].
    + destruct Hfind as (_ & _ & Hfind). congruence.
    + rewrite Nat.iter_succ_r in Hdot. apply (IH fuel _); [|done|lia].
      intros j Hj. rewrite <- Nat.iter_succ_r. apply Hnone. lia.
Qed.

(** X3.  When no directory from the manifest's up to "." holds a lock file,
    [inferPackageManager] answers "npm". *)
Theorem inference_defaults_to_npm (fs : FS) (filePath : string) (k fuel : nat) :
  (∀ j, j < k → holdsLockFile fs (lockDir filePath j) = false) →
  lockDir filePath k = "." →
  k < fuel →
  inferPackageManager fuel fs filePath = Some "npm".
Proof. apply inferLoop_default. Qed.

Lemma inference_defaults_to_npm_witness :
  inferPackageManager 3 (mount (Fixtures.monorepo JNull)) "pkgs/foo/package.json" = Some "npm".
Proof.
  apply (inference_defaults_to_npm (mount (Fixtures.monorepo JNull))
           "pkgs/foo/package.json" 2 3).
  - intros [|[|j]] Hj; [by vm_compute..|lia].
  - by vm_compute.
  - lia.
Defined.

(* ===================================================================== *)
(** * The catalog of the last iteration: where its entries come from *)
(* ===================================================================== *)

Lemma rangeScripts_elem (packageName filePath : string) (scriptsMap : list (string * any))
    (scripts : list NpmScript) :
  rangeScripts packageName filePath scriptsMap = Some scripts →
  ∀ s, s ∈ scripts
       ↔ PackageName s = packageName ∧ AbsolutePath s = filePath
         ∧ (ScriptName s, AnyString (Command s)) ∈ scriptsMap.
Proof.
  revert scripts. induction scriptsMap as [|[name command] rest IH]; intros scripts H s.
  - injection H as <-. split; [by intros ?%elem_of_nil|]. by intros (_ & _ & ?%elem_of_nil).
  - simpl in H. destruct command as [| | |c| | |]; try done.
    destruct (rangeScripts packageName filePath rest) as [tail|]; [|done].
    injection H as <-. rewrite elem_of_cons, (IH tail eq_refl s), elem_of_cons. split.
    + intros [->|(? & ? & ?)]; [by split; [|split; [|left]]|]. by split; [|split; [|right]].
    + intros (Hp & Ha & [Heq|Hin]); [left|by right].
      injection Heq as Hn Hc. destruct s. simpl in *. by subst.
Qed.

(** What an extraction sends is what its manifest declares. *)
Lemma extraction_sends_declared (fs : FS) (t : Part002.task)
    (spawned : list Part002.task) (scripts : list NpmScript) :
  Part002.extractScriptsFromPackageJSON fs t = Some (spawned, scripts) →
  ∀ s, s ∈ scripts ↔ declares fs t.1 s.
Proof.
  destruct t as [filePath isLeaf]. unfold Part002.extractScriptsFromPackageJSON, declares.
  intros H s. simpl.
  destruct (ReadFile fs filePath) as [byteValue|] eqn:Hread.
  2:{ injection H as <- <-. split; [by intros ?%elem_of_nil|]. by intros (? & ? & ? & ? & _). }
  destruct (json_Unmarshal byteValue) as [packageJSON|] eqn:Hjson.
  2:{ injection H as <- <-. split; [by intros ?%elem_of_nil|].
      intros (? & ? & ? & [= <-] & ? & _). congruence. }
  unfold scriptsOf in H.
  destruct (mapaccess packageJSON "scripts") as [| | | | |scriptsMap|] eqn:Hscripts;
    try (assert (scripts = []) as -> by (by destruct isLeaf; injection H as <- <-);
         split; [by intros ?%elem_of_nil|];
         intros (? & ? & ? & [= <-] & [= <-]%(eq_trans (eq_sym Hjson)) & ? & _); congruence).
  destruct (rangeScripts _ filePath scriptsMap) as [sent|] eqn:Hrange; [|done].
  assert (scripts = sent) as -> by (by destruct isLeaf; injection H as <- <-).
  rewrite (rangeScripts_elem _ _ _ _ Hrange). split.
  - intros (Hp & Ha & Hin). by exists byteValue, packageJSON, scriptsMap.
  - intros (? & ? & ? & [= <-] & [= <-]%(eq_trans (eq_sym Hjson)) & Hm & Hin & Hp & Ha).
    rewrite Hscripts in Hm. injection Hm as <-. done.
Qed.

Lemma extraction_spawns_members (fs : FS) (filePath : string)
    (spawned : list Part002.task) (scripts : list NpmScript) :
  Part002.extractScriptsFromPackageJSON fs (filePath, false) = Some (spawned, scripts) →
  spawned = (fun p => (p, true)) <$> Part002.members fs filePath.
Proof.
  unfold Part002.extractScriptsFromPackageJSON, Part002.members.
  destruct (ReadFile fs filePath) as [byteValue|]; [|by intros [= <- <-]].
  destruct (json_Unmarshal byteValue) as [packageJSON|]; [|by intros [= <- <-]].
  destruct (scriptsOf filePath packageJSON); [|done]. by intros [= <- <-].
Qed.

(** Every entry a run collects was sent by the extraction of a located
    manifest or by the leaf extraction of one of its members. *)
Lemma catalog_entry_origin (w : filesystem) (searchPath : string)
    (allScripts : list NpmScript) (s : NpmScript) :
  Part002.discovers w searchPath allScripts → s ∈ allScripts →
  ∃ p, p ∈ Part002.findProjectRootPackageJSONPathsConcurrent w searchPath
       ∧ (s ∈ Part002.sends (mount w) (p, false)
          ∨ ∃ m, m ∈ Part002.members (mount w) p ∧ s ∈ Part002.sends (mount w) (m, true)).
Proof.
  intros (located & Hwalk & _ & Hextract) Hs.
  apply Part002_walk_completes in Hwalk.
  eapply (completes_total _ (Part002.extractTotal (mount w))) in Hextract.
  2:{ intros t sp sc Hf. by rewrite (Part002_extractTotal_fire _ _ _ _ Hf). }
  rewrite Hextract in Hs. apply list_elem_of_In, in_flat_map in Hs as (t & Ht & Hs).
  apply list_elem_of_In, list_elem_of_fmap in Ht as (p & -> & Hp).
  exists p. split; [by rewrite <- Hwalk|].
  apply list_elem_of_In in Hs. unfold Part002.extractTotal in Hs. unfold Part002.sends at 1.
  destruct (Part002.extractScriptsFromPackageJSON (mount w) (p, false))
    as [[spawned scripts]|] eqn:Hf; [|by apply elem_of_nil in Hs].
  apply elem_of_app in Hs as [Hs|Hs]; [by left|right].
  apply list_elem_of_In, in_flat_map in Hs as (c & Hc & Hs).
  rewrite (extraction_spawns_members _ _ _ _ Hf) in Hc.
  apply list_elem_of_In, list_elem_of_fmap in Hc as (m & -> & Hm).
  exists m. split; [done|]. by apply list_elem_of_In.
Qed.

Lemma sends_declared (fs : FS) (t : Part002.task) (s : NpmScript) :
  s ∈ Part002.sends fs t → declares fs t.1 s.
Proof.
  unfold Part002.sends.
  destruct (Part002.extractScriptsFromPackageJSON fs t) as [[spawned scripts]|] eqn:Hf;
    [|by intros ?%elem_of_nil].
  by apply (extraction_sends_declared _ _ _ _ Hf).
Qed.

(** X4.  The catalog holds nothing that is not in a manifest.  Every entry of
    the catalog of a run, under any schedule, is a (name, command) pair of
    the [scripts] mapping of the manifest at its [AbsolutePath], with the
    package name of that manifest. *)
Theorem catalog_entries_are_declared (w : filesystem) (searchPath : string)
    (allScripts : list NpmScript) (s : NpmScript) :
  Part002.discovers w searchPath allScripts → s ∈ allScripts →
  declares (mount w) (AbsolutePath s) s.
Proof.
  intros Hrun Hs.
  destruct (catalog_entry_origin _ _ _ _ Hrun Hs) as (p & _ & [Hp|(m & _ & Hm)]).
  - apply sends_declared in Hp as Hd. simpl in Hd.
    assert (AbsolutePath s = p) as -> by (by destruct Hd as (? & ? & ? & ? & ? & ? & ? & ? & ?)).
    done.
  - apply sends_declared in Hm as Hd. simpl in Hd.
    assert (AbsolutePath s = m) as -> by (by destruct Hd as (? & ? & ? & ? & ? & ? & ? & ? & ?)).
    done.
Qed.

Lemma catalog_entries_are_declared_witness :
  declares (mount Fixtures.siblings) "b/package.json" Fixtures.bTest.
Proof.
  apply (catalog_entries_are_declared Fixtures.siblings "."
           [Fixtures.aStart; Fixtures.bTest; Fixtures.bTest] Fixtures.bTest).
  - exists ["a/package.json"; "b/package.json"]. split; [|split; [done|]].
    + apply (schedule_run _ (replicate 10 0)). vm_compute. reflexivity.
    + apply (schedule_run _ [0; 0; 0]). vm_compute. reflexivity.
  - right. left.
Defined.

(** X5.  The catalog reaches one level of workspace members and no further.
    The manifest of every entry is one the walk located, or one that a
    located manifest spawned an extraction for; a member's own workspaces
    add nothing. *)
Theorem catalog_comes_from_located_manifests_and_their_members (w : filesystem)
    (searchPath : string) (allScripts : list NpmScript) (s : NpmScript) :
  Part002.discovers w searchPath allScripts → s ∈ allScripts →
  AbsolutePath s ∈ Part002.findProjectRootPackageJSONPathsConcurrent w searchPath
  ∨ ∃ p, p ∈ Part002.findProjectRootPackageJSONPathsConcurrent w searchPath
         ∧ AbsolutePath s ∈ Part002.members (mount w) p.
Proof.
  intros Hrun Hs.
  destruct (catalog_entry_origin _ _ _ _ Hrun Hs) as (p & Hp & [Hd|(m & Hm & Hd)]);
    apply sends_declared in Hd; simpl in Hd;
    destruct Hd as (? & ? & ? & _ & _ & _ & _ & _ & ->); [by left|right; by exists p].
Qed.

Lemma catalog_comes_from_located_manifests_and_their_members_witness :
  AbsolutePath Fixtures.fooBuild
    ∈ Part002.findProjectRootPackageJSONPathsConcurrent
        (Fixtures.monorepo (Fixtures.objectForm ["pkgs/*"])) "."
  ∨ ∃ p, p ∈ Part002.findProjectRootPackageJSONPathsConcurrent
               (Fixtures.monorepo (Fixtures.objectForm ["pkgs/*"])) "."
         ∧ AbsolutePath Fixtures.fooBuild
             ∈ Part002.members (mount (Fixtures.monorepo (Fixtures.objectForm ["pkgs/*"]))) p.
Proof.
  apply (catalog_comes_from_located_manifests_and_their_members
           (Fixtures.monorepo (Fixtures.objectForm ["pkgs/*"])) "."
           [Fixtures.barTest; Fixtures.fooBuild] Fixtures.fooBuild).
  - exists ["package.json"]. split; [|split; [done|]].
    + apply (schedule_run _ [0]). vm_compute. reflexivity.
    + apply (schedule_run _ [0; 0; 0]). vm_compute. reflexivity.
  - right. left.
Defined.

(** X6.  Nothing declared is lost.  When a run completes, its catalog holds
    every script declared by a located manifest and every script declared
    by a manifest that a located one spawned an extraction for. *)
Theorem catalog_holds_every_declared_script (w : filesystem) (searchPath : string)
    (allScripts : list NpmScript) (p : string) (s : NpmScript) :
  Part002.discovers w searchPath allScripts →
  p ∈ Part002.findProjectRootPackageJSONPathsConcurrent w searchPath →
  declares (mount w) p s ∨ (∃ m, m ∈ Part002.members (mount w) p ∧ declares (mount w) m s) →
  s ∈ allScripts.
Proof.
  intros (located & Hwalk & _ & Hextract) Hp Hd.
  apply Part002_walk_completes in Hwalk. rewrite <- Hwalk in Hp.
  assert ((p, false) ∈ (fun p => (p, false)) <$> located) as Ht
    by (apply list_elem_of_fmap; by exists p).
  pose proof (pool_steps_no_panic _ _ _ _ Hextract _ Ht) as Hnp.
  destruct (Part002.extractScriptsFromPackageJSON (mount w) (p, false))
    as [[spawned scripts]|] eqn:Hf; [|done].
  pose proof (pool_steps_spawned_no_panic _ _ _ _ Hextract _ _ _ Ht Hf) as Hsp.
  eapply (completes_total _ (Part002.extractTotal (mount w))) in Hextract.
  2:{ intros t sp sc Hf'. by rewrite (Part002_extractTotal_fire _ _ _ _ Hf'). }
  rewrite Hextract. apply list_elem_of_In, in_flat_map. exists (p, false).
  split; [by apply list_elem_of_In|]. apply list_elem_of_In.
  unfold Part002.extractTotal. rewrite Hf. apply elem_of_app.
  destruct Hd as [Hd|(m & Hm & Hd)].
  - left. by apply (extraction_sends_declared _ _ _ _ Hf).
  - right. apply list_elem_of_In, in_flat_map. exists (m, true).
    assert ((m, true) ∈ spawned) as Hc.
    { rewrite (extraction_spawns_members _ _ _ _ Hf). apply list_elem_of_fmap. by exists m. }
    split; [by apply list_elem_of_In|]. apply list_elem_of_In.
    specialize (Hsp _ Hc). unfold Part002.sends.
    destruct (Part002.extractScriptsFromPackageJSON (mount w) (m, true))
      as [[sp' sc']|] eqn:Hf'; [|done].
    by apply (extraction_sends_declared _ _ _ _ Hf').
Qed.

Lemma catalog_holds_every_declared_script_witness :
  Fixtures.barTest ∈ [Fixtures.barTest; Fixtures.fooBuild].
Proof.
  apply (catalog_holds_every_declared_script
           (Fixtures.monorepo (Fixtures.objectForm ["pkgs/*"])) "."
           [Fixtures.barTest; Fixtures.fooBuild] "package.json" Fixtures.barTest).
  - exists ["package.json"]. split; [|split; [done|]].
    + apply (schedule_run _ [0]). vm_compute. reflexivity.
    + apply (schedule_run _ [0; 0; 0]). vm_compute. reflexivity.
  - vm_compute. left.
  - right. exists "pkgs/bar/package.json". split.
    + vm_compute. left.
    + eexists _, _, _.
      split; [vm_compute; reflexivity|]. split; [vm_compute; reflexivity|].
      split; [vm_compute; reflexivity|]. split; [left|]. split; reflexivity.
Defined.

(* ===================================================================== *)
(** * Manifests that cannot be read or parsed, and the panic *)
(* ===================================================================== *)

Lemma broken_manifest_sends_nothing (fs : FS) (filePath : string) (isLeaf : bool) :
  (∀ byteValue, ReadFile fs filePath = Some byteValue → json_Unmarshal byteValue = None) →
  Part002.extractScriptsFromPackageJSON fs (filePath, isLeaf) = Some ([], []).
Proof.
  intros H. unfold Part002.extractScriptsFromPackageJSON.
  destruct (ReadFile fs filePath) as [byteValue|]; [|done]. by rewrite (H byteValue).
Qed.

(** X7.  A manifest that cannot be read, or that [json.Unmarshal] rejects
    (bytes that are no JSON text, or a JSON value that is neither an object
    nor [null]), is passed over: it sends nothing, spawns nothing, and the
    catalog of the located manifests is the catalog of the others, under
    the sequential schedule and, up to the order of arrival, under every
    other.  A manifest holding [null] is not one of these: [json.Unmarshal]
    accepts it and leaves the map empty, and the extraction goes on to
    pnpm-workspace.yaml ([null_manifest_is_expanded]). *)
Theorem broken_manifest_is_passed_over (fs : FS) (before after : list string) (bad : string) :
  (∀ byteValue, ReadFile fs bad = Some byteValue → json_Unmarshal byteValue = None) →
  Part002.extractScriptsFromPackageJSONsConcurrent fs (before ++ bad :: after)
  = Part002.extractScriptsFromPackageJSONsConcurrent fs (before ++ after)
  ∧ ∀ allScripts,
      completes (Part002.extractScriptsFromPackageJSON fs)
        ((fun p => (p, false)) <$> before ++ bad :: after) allScripts →
      ∃ reference,
        Part002.extractScriptsFromPackageJSONsConcurrent fs (before ++ after) = Some reference
        ∧ allScripts ≡ₚ reference.
Proof.
  intros Hbad. pose proof (broken_manifest_sends_nothing fs bad false Hbad) as Hf.
  assert (Part002.extractScriptsFromPackageJSONsConcurrent fs (before ++ bad :: after)
          = Part002.extractScriptsFromPackageJSONsConcurrent fs (before ++ after)) as Heq.
  { apply option_eq. intros allScripts. rewrite !Part002_extractAll_safe.
    rewrite !fmap_app, fmap_cons, !Forall_app, Forall_cons, !flat_map_app.
    cbn [flat_map]. unfold Part002.extractTotal at 2. rewrite Hf. simpl.
    split; [by intros ((? & _ & ?) & ?)|]. intros ((? & ?) & ?).
    split; [|done]. split; [done|]. split; [|done]. by exists [], []. }
  split; [done|]. intros allScripts Hrun. rewrite <- Heq.
  by apply Part002_extract_completes.
Qed.

Lemma broken_manifest_is_passed_over_witness :
  Part002.extractScriptsFromPackageJSONsConcurrent (mount Fixtures.withBrokenManifest)
    (["good/package.json"] ++ "broken/package.json" :: ["other/package.json"])
  = Part002.extractScriptsFromPackageJSONsConcurrent (mount Fixtures.withBrokenManifest)
      (["good/package.json"] ++ ["other/package.json"]).
Proof.
  apply (broken_manifest_is_passed_over (mount Fixtures.withBrokenManifest)
           ["good/package.json"] ["other/package.json"] "broken/package.json").
  intros byteValue H. vm_compute in H. injection H as <-. reflexivity.
Defined.

(** A manifest holding [null] sends nothing and still spawns the members
    that pnpm-workspace.yaml lists. *)
Example null_manifest_is_expanded :
  json_Unmarshal (JSONText JNull) = Some []
  ∧ Part002.extractScriptsFromPackageJSON (mount Fixtures.nullManifest) ("package.json", false)
    = Some ([("apps/a/package.json", true)], []).
Proof. split; vm_compute; reflexivity. Qed.

Lemma rangeScripts_None (packageName filePath : string) (scriptsMap : list (string * any)) :
  rangeScripts packageName filePath scriptsMap = None ↔
  Exists (fun kv => ∀ c, kv.2 ≠ AnyString c) scriptsMap.
Proof.
  split; [|apply rangeScripts_panics].
  induction scriptsMap as [|[name command] rest IH]; [done|]. simpl.
  destruct command as [| | |c| | |]; try (intros _; by apply Exists_cons_hd).
  destruct (rangeScripts packageName filePath rest); [done|].
  intros _. by apply Exists_cons_tl, IH.
Qed.

(** X8.  The only panic of an extraction.  [extractScriptsFromPackageJSON]
    panics exactly when the manifest is read and parsed, its [scripts] is
    an object, and one of the values in it is not a string; on every other
    input it returns. *)
Theorem extraction_panics_exactly_on_non_string_command (fs : FS) (filePath : string)
    (isLeaf : bool) :
  Part002.extractScriptsFromPackageJSON fs (filePath, isLeaf) = None ↔
  ∃ byteValue packageJSON scriptsMap,
    ReadFile fs filePath = Some byteValue
    ∧ json_Unmarshal byteValue = Some packageJSON
    ∧ mapaccess packageJSON "scripts" = AnyMap scriptsMap
    ∧ Exists (fun kv => ∀ c, kv.2 ≠ AnyString c) scriptsMap.
Proof.
  split.
  - unfold Part002.extractScriptsFromPackageJSON.
    destruct (ReadFile fs filePath) as [byteValue|] eqn:Hread; [|done].
    destruct (json_Unmarshal byteValue) as [packageJSON|] eqn:Hjson; [|done].
    unfold scriptsOf.
    destruct (mapaccess packageJSON "scripts") as [| | | | |scriptsMap|] eqn:Hscripts;
      try (by destruct isLeaf).
    destruct (rangeScripts _ filePath scriptsMap) eqn:Hrange; [by destruct isLeaf|].
    intros _. exists byteValue, packageJSON, scriptsMap. by rewrite <- rangeScripts_None.
  - intros (byteValue & packageJSON & scriptsMap & Hread & Hjson & Hscripts & Hbad).
    by destruct (extraction_panics fs filePath isLeaf _ _ _ Hread Hjson Hscripts Hbad).
Qed.

(* ===================================================================== *)
(** * The extractions an extraction spawns *)
(* ===================================================================== *)

Lemma visit_spawns_existing (fs : FS) (st : gset string * list string) (p : string) :
  Forall (fun m => Stat fs m = true) st.2 →
  Forall (fun m => Stat fs m = true) (Part002.visit fs st p).2.
Proof.
  intros H. unfold Part002.visit. case_bool_decide; [done|].
  destruct (Stat fs p) eqn:Hstat; [|done]. simpl.
  apply Forall_app. split; [done|]. by apply Forall_singleton.
Qed.

Lemma expandPattern_spawns_existing (fs : FS) (filePath pattern : string)
    (st : gset string * list string) :
  Forall (fun m => Stat fs m = true) st.2 →
  Forall (fun m => Stat fs m = true) (Part002.expandPattern fs filePath st pattern).2.
Proof.
  intros H. unfold Part002.expandPattern.
  destruct (strings.ContainsAny pattern "*?["); [|by apply visit_spawns_existing].
  destruct (Glob fs _) as [found|]; [|done].
  revert st H. induction found as [|m found IH]; intros st H; [done|].
  simpl. by apply IH, visit_spawns_existing.
Qed.

Lemma members_exist (fs : FS) (filePath : string) :
  Forall (fun m => Stat fs m = true) (Part002.members fs filePath).
Proof.
  unfold Part002.members.
  destruct (ReadFile fs filePath) as [byteValue|]; [|done].
  destruct (json_Unmarshal byteValue) as [packageJSON|]; [|done].
  apply Forall_app. split.
  - unfold Part002.workspaceMembers.
    generalize (Part002.workspacePatterns packageJSON). intros patterns.
    assert (Forall (fun m => Stat fs m = true) (∅ : gset string, @nil string).2) as H by done.
    revert H. generalize (∅ : gset string, @nil string).
    induction patterns as [|pattern patterns IH]; intros st H; [done|].
    simpl. by apply IH, expandPattern_spawns_existing.
  - unfold Part002.pnpmMembers.
    destruct (Stat fs (filepath.Join _ _)); [|done].
    destruct (locatePnpmWorkspaces fs _) as [found|e]; [|done].
    apply Forall_forall. intros m [_ Hm]%list_elem_of_In%filter_In.
    by apply andb_true_iff in Hm as [_ ?].
Qed.

(** X9.  The tree of extractions has two levels.  What an extraction of a
    located manifest spawns are extractions of manifests that exist, and
    none of these spawns an extraction in turn. *)
Theorem spawned_extractions_are_leaves (fs : FS) (filePath : string)
    (spawned : list Part002.task) (scripts : list NpmScript) :
  Part002.extractScriptsFromPackageJSON fs (filePath, false) = Some (spawned, scripts) →
  Forall (fun c => Stat fs c.1 = true
                   ∧ ∀ below sent,
                       Part002.extractScriptsFromPackageJSON fs c = Some (below, sent) →
                       below = []) spawned.
Proof.
  intros Hf. pose proof (Part002_spawned_leaves _ _ _ _ Hf) as Hleaf.
  rewrite (extraction_spawns_members _ _ _ _ Hf) in *.
  pose proof (members_exist fs filePath) as Hex.
  apply Forall_fmap. rewrite Forall_fmap in Hleaf.
  apply Forall_forall. intros m Hm. rewrite Forall_forall in Hex. split; [by apply Hex|].
  intros below sent. by apply Part002_leaf_spawns_nothing.
Qed.

Lemma spawned_extractions_are_leaves_witness :
  Forall (fun c => Stat (mount (Fixtures.monorepo (Fixtures.objectForm ["pkgs/*"]))) c.1 = true
                   ∧ ∀ below sent,
                       Part002.extractScriptsFromPackageJSON
                         (mount (Fixtures.monorepo (Fixtures.objectForm ["pkgs/*"]))) c
                       = Some (below, sent) →
                       below = [])
    [("pkgs/bar/package.json", true); ("pkgs/foo/package.json", true)].
Proof.
  apply (spawned_extractions_are_leaves
           (mount (Fixtures.monorepo (Fixtures.objectForm ["pkgs/*"]))) "package.json" _ []).
  vm_compute. reflexivity.
Defined.


(* ===================================================================== *)
(** * The walk of the first iteration: every package.json file, once *)
(* ===================================================================== *)

Lemma Main_walk_completes (w : filesystem) (rootPath : string) (filepaths : list string) :
  completes Main.walk (Main.rootWalkers w rootPath) filepaths →
  filepaths ≡ₚ Main.findPackageJSONPathsConcurrent w rootPath.
Proof.
  intros H. eapply (completes_total _ Main.walkTotal) in H.
  - rewrite H. unfold Main.rootWalkers, Main.findPackageJSONPathsConcurrent.
    destruct (os.resolve w rootPath); simpl; by rewrite ?app_nil_r.
  - intros t sp sn Hf. by rewrite (Main_walkTotal_fire _ _ _ Hf).
Qed.

Lemma Main_findPackageJSON_chains (dir : node) (path : string) :
  Main.findPackageJSON path dir = Main.manifestAt path <$> Main.chains dir.
Proof.
  revert path. induction dir as [data|readable entries IH] using node_entries_ind;
    intros path; [done|].
  destruct readable; [|done]. simpl.
  induction IH as [|e entries He _ IHentries]; [done|].
  simpl. rewrite fmap_app, <- IHentries. f_equal.
  unfold Main.visitEntry, Main.chainsEntry.
  destruct (Main.descends e).
  - rewrite He, <- list_fmap_compose. done.
  - destruct (String.eqb_spec e.1 "package.json") as [->|]; done.
Qed.

(** The path the walk builds is the starting path and then, for each name
    down to the manifest, a separator and the name. *)
Lemma Main_manifestAt_Join (rootPath : string) (chain : list string) :
  Main.manifestAt rootPath chain
  = rootPath +:+ String filepath.Separator (strings.Join (chain ++ ["package.json"]) "/").
Proof.
  unfold Main.manifestAt. generalize "package.json". intros last.
  revert rootPath. induction chain as [|n chain IH]; intros rootPath; [done|].
  change (fold_left _ ((n :: chain) ++ [last]) rootPath)
    with (fold_left (fun path name => path +:+ "/" +:+ name) (chain ++ [last])
            (rootPath +:+ "/" +:+ n)).
  rewrite IH. change ((n :: chain) ++ [last]) with (n :: (chain ++ [last])).
  rewrite (Join_cons n) by (by destruct chain). by rewrite append_assoc.
Qed.

Lemma Main_manifestAt_inj (rootPath : string) (chain chain' : list string) :
  Forall properName chain → Forall properName chain' →
  Main.manifestAt rootPath chain = Main.manifestAt rootPath chain' → chain = chain'.
Proof.
  intros Hc Hc'. rewrite !Main_manifestAt_Join. intros Heq.
  apply String.app_inj in Heq. injection Heq as Heq.
  apply (f_equal (fun s => strings.Split s filepath.Separator)) in Heq.
  assert (∀ c, Forall properName c → Forall noSeparator (c ++ ["package.json"])) as Hsep.
  { intros c H. apply Forall_app. split; [|by apply Forall_singleton].
    eapply Forall_impl; [apply H|]. by intros x [(_ & _ & ?) _]. }
  assert (∀ c : list string, c ++ ["package.json"] ≠ []) as Hne
    by (intros c [_ ?]%app_eq_nil; done).
  rewrite (Split_Join _ (Hne chain) (Hsep _ Hc)) in Heq.
  rewrite (Split_Join _ (Hne chain') (Hsep _ Hc')) in Heq.
  by apply app_inv_tail in Heq.
Qed.

Lemma Main_chainsEntry_elem (descend : node → list (list string)) (e : string * node)
    (chain : list string) :
  chain ∈ Main.chainsEntry descend e ↔
  (Main.descends e = true ∧ ∃ rest, chain = e.1 :: rest ∧ rest ∈ descend e.2)
  ∨ (Main.descends e = false ∧ e.1 = "package.json" ∧ chain = []).
Proof.
  unfold Main.chainsEntry. destruct (Main.descends e).
  - rewrite list_elem_of_fmap. split.
    + intros (rest & -> & Hrest). left. split; [reflexivity|]. by exists rest.
    + intros [[_ (rest & -> & Hrest)]|[? _]]; [by exists rest|congruence].
  - destruct (String.eqb_spec e.1 "package.json") as [Heq|Hne].
    + rewrite list_elem_of_singleton. split.
      * intros ->. by right.
      * intros [[? _]|(_ & _ & ->)]; [congruence|reflexivity].
    + rewrite elem_of_nil. split; [intros []|].
      intros [[? _]|(_ & ? & _)]; congruence.
Qed.

Lemma Main_chains_names (dir : node) (chain : list string) :
  wellFormed dir = true → chain ∈ Main.chains dir → Forall properName chain.
Proof.
  revert chain. induction dir as [data|readable entries IH] using node_entries_ind;
    intros chain Hwf Hchain; [by apply elem_of_nil in Hchain|].
  apply wellFormed_Dir in Hwf as [_ Hall].
  destruct readable; [|by apply elem_of_nil in Hchain]. simpl in Hchain.
  apply list_elem_of_In, in_flat_map in Hchain as (e & He & Hchain).
  apply list_elem_of_In in He, Hchain.
  rewrite Forall_forall in IH, Hall. destruct (Hall e He) as [Hname Hwf].
  apply Main_chainsEntry_elem in Hchain as [[_ (rest & -> & Hrest)]|(_ & _ & ->)].
  - constructor; [assumption|]. by apply (IH e He).
  - constructor.
Qed.

Lemma Main_chains_NoDup (dir : node) : wellFormed dir = true → NoDup (Main.chains dir).
Proof.
  induction dir as [data|readable entries IH] using node_entries_ind;
    intros Hwf; [apply NoDup_nil_2|].
  apply wellFormed_Dir in Hwf as [Hnd Hall].
  destruct readable; [|apply NoDup_nil_2]. simpl.
  induction entries as [|e entries IHentries]; [apply NoDup_nil_2|].
  apply Forall_cons in IH as [IHe IH]. apply Forall_cons in Hall as [[Hname Hwf] Hall].
  simpl in Hnd. apply NoDup_cons in Hnd as [Hfresh Hnd].
  simpl. apply NoDup_app. split; [|split; [|by apply IHentries]].
  - unfold Main.chainsEntry. destruct (Main.descends e).
    + apply NoDup_fmap_2; [|by apply IHe]. by intros x y [= ->].
    + destruct (String.eqb e.1 "package.json"); [apply NoDup_singleton|apply NoDup_nil_2].
  - intros chain Hchain Hin.
    apply list_elem_of_In, in_flat_map in Hin as (e' & He' & Hin).
    apply list_elem_of_In in Hin.
    assert (e.1 = e'.1) as Heq.
    { apply Main_chainsEntry_elem in Hchain as [[Hd (rest & -> & _)]|(Hd & Hn & ->)];
        apply Main_chainsEntry_elem in Hin as [[Hd' (rest' & Hc & _)]|(Hd' & Hn' & Hc)];
        congruence. }
    apply Hfresh. rewrite Heq. apply list_elem_of_In, in_map, He'.
Qed.

Lemma manifestFileAt_File (data : content) (chain : list string) :
  ¬ Main.manifestFileAt (File data) chain.
Proof. intros (Hd & _). destruct (Hd 0 (Nat.le_0_l _)) as (? & ?). done. Qed.

Lemma manifestFileAt_nil (readable : bool) (entries : list (string * node)) :
  Main.manifestFileAt (Dir readable entries) []
  ↔ readable = true ∧ ∃ data, os.entry "package.json" entries = Some (File data).
Proof.
  unfold Main.manifestFileAt. simpl. split.
  - intros (Hd & _ & data & Hwalk). destruct (Hd 0 (le_n _)) as (ents & [= -> _]).
    split; [reflexivity|]. exists data.
    destruct (os.entry "package.json" entries); [by injection Hwalk as ->|done].
  - intros [-> (data & Hentry)]. split; [|split; [constructor|]].
    + intros i Hi. exists entries. by replace i with 0 by lia.
    + exists data. by rewrite Hentry.
Qed.

Lemma manifestFileAt_cons (readable : bool) (entries : list (string * node))
    (name : string) (rest : list string) :
  Main.manifestFileAt (Dir readable entries) (name :: rest)
  ↔ readable = true ∧ name ≠ "node_modules" ∧ name ≠ ".git"
    ∧ ∃ child, os.entry name entries = Some child ∧ Main.manifestFileAt child rest.
Proof.
  unfold Main.manifestFileAt. split.
  - intros (Hd & Hnames & data & Hwalk).
    apply Forall_cons in Hnames as [[Hnm Hgit] Hnames].
    destruct (Hd 0 (Nat.le_0_l _)) as (ents & [= -> _]).
    split; [reflexivity|]. split; [assumption|]. split; [assumption|].
    cbn [app os.walk] in Hwalk.
    destruct (os.entry name entries) as [child|] eqn:Hentry; [|done].
    exists child. split; [reflexivity|]. split; [|split; [assumption|by exists data]].
    intros i Hi. destruct (Hd (S i)) as (entsi & Hwi); [simpl; lia|].
    cbn [take os.walk] in Hwi. rewrite Hentry in Hwi. by exists entsi.
  - intros (-> & Hnm & Hgit & child & Hentry & Hd & Hnames & data & Hwalk).
    split; [|split].
    + intros [|i] Hi; [by exists entries|].
      cbn [take os.walk]. rewrite Hentry. apply Hd. simpl in Hi. lia.
    + by constructor.
    + exists data. cbn [app os.walk]. by rewrite Hentry.
Qed.

Lemma descends_iff (name : string) (child : node) :
  Main.descends (name, child) = true
  ↔ isDir child = true ∧ name ≠ "node_modules" ∧ name ≠ ".git".
Proof.
  unfold Main.descends. simpl. rewrite !andb_true_iff, !negb_true_iff, !String.eqb_neq. tauto.
Qed.

(** The chains the walk reports are the chains that lead to a file named
    package.json. *)
Lemma Main_chains_manifestFileAt (dir : node) (chain : list string) :
  wellFormed dir = true → chain ∈ Main.chains dir ↔ Main.manifestFileAt dir chain.
Proof.
  revert chain. induction dir as [data|readable entries IH] using node_entries_ind;
    intros chain Hwf.
  { simpl. rewrite elem_of_nil. split; [intros []|apply manifestFileAt_File]. }
  apply wellFormed_Dir in Hwf as [Hnd Hall].
  rewrite Forall_forall in IH, Hall.
  assert (chain ∈ Main.chains (Dir readable entries)
          ↔ readable = true
            ∧ ∃ e, e ∈ entries ∧ chain ∈ Main.chainsEntry Main.chains e) as ->.
  { simpl. destruct readable.
    - rewrite list_elem_of_In, in_flat_map. split.
      + intros (e & He & Hin). split; [reflexivity|]. exists e.
        by rewrite !list_elem_of_In.
      + intros (_ & e & He & Hin). exists e. by rewrite <- !list_elem_of_In.
    - rewrite elem_of_nil. split; [intros []|intros [? _]; congruence]. }
  destruct chain as [|name rest].
  - rewrite manifestFileAt_nil. apply and_iff_compat_l. split.
    + intros ([n child] & He & Hin).
      apply Main_chainsEntry_elem in Hin as [[_ (? & ? & _)]|(Hd & Hn & _)]; [done|].
      simpl in Hn. subst n. destruct child as [data|r sub]; [|done].
      exists data. by apply elem_entry.
    + intros (data & Hentry). apply entry_elem in Hentry.
      exists ("package.json", File data). split; [assumption|].
      apply Main_chainsEntry_elem. by right.
  - rewrite manifestFileAt_cons. apply and_iff_compat_l. split.
    + intros ([n child] & He & Hin).
      apply Main_chainsEntry_elem in Hin as [[Hd (rest' & [= -> ->] & Hrest)]|(_ & _ & ?)];
        [|done].
      apply descends_iff in Hd as (_ & Hnm & Hgit).
      split; [assumption|]. split; [assumption|]. exists child.
      split; [by apply elem_entry|]. destruct (Hall _ He) as [_ Hwf].
      by apply (IH _ He).
    + intros (Hnm & Hgit & child & Hentry & Hrest).
      apply entry_elem in Hentry as He. exists (name, child). split; [assumption|].
      apply Main_chainsEntry_elem. left. split.
      * apply descends_iff. split; [|by split].
        destruct child; [by apply manifestFileAt_File in Hrest|reflexivity].
      * exists rest. split; [reflexivity|]. destruct (Hall _ He) as [_ Hwf].
        by apply (IH _ He).
Qed.

(** X10.  The walk of the first iteration.  On a well-formed tree, every run
    of the walk reports, exactly once each, the files named package.json
    that lie below the starting directory through directories that can be
    read and are not named node_modules or .git: also the ones below
    another manifest. *)
Theorem first_walk_reports_every_manifest_file (w : filesystem) (rootPath : string)
    (dir : node) (filepaths : list string) :
  os.resolve w rootPath = Some dir →
  wellFormed dir = true →
  completes Main.walk (Main.rootWalkers w rootPath) filepaths →
  NoDup filepaths
  ∧ ∀ p, p ∈ filepaths
         ↔ ∃ chain, Main.manifestFileAt dir chain ∧ p = Main.manifestAt rootPath chain.
Proof.
  intros Hres Hwf Hrun. apply Main_walk_completes in Hrun.
  unfold Main.findPackageJSONPathsConcurrent in Hrun. rewrite Hres in Hrun.
  rewrite Main_findPackageJSON_chains in Hrun. split.
  - rewrite Hrun. apply NoDup_fmap_2_strong; [|by apply Main_chains_NoDup].
    intros c c' Hc Hc'. apply Main_manifestAt_inj; by eapply Main_chains_names.
  - intros p. rewrite Hrun, list_elem_of_fmap. split.
    + intros (chain & -> & Hin). exists chain. split; [|reflexivity].
      by apply Main_chains_manifestFileAt.
    + intros (chain & Hfile & ->). exists chain. split; [reflexivity|].
      by apply Main_chains_manifestFileAt.
Qed.

Lemma first_walk_reports_every_manifest_file_witness :
  let dir := Dir true Fixtures.walkedEntries in
  let filepaths := ["./apps/web/package.json"; "./apps/web/vendor/x/package.json"] in
  NoDup filepaths
  ∧ ∀ p, p ∈ filepaths
         ↔ ∃ chain, Main.manifestFileAt dir chain ∧ p = Main.manifestAt "." chain.
Proof.
  apply (first_walk_reports_every_manifest_file Fixtures.walked ".").
  - vm_compute. reflexivity.
  - vm_compute. reflexivity.
  - apply (schedule_run _ (replicate 40 0)). vm_compute. reflexivity.
Defined.

(* ===================================================================== *)
(** * The walk of unnamed/part_000 against the walk of the last iteration *)
(* ===================================================================== *)

Lemma Part000_walkTotal_fire (w : walker) (spawned : list walker) (sent : list string) :
  Part000.walk w = Some (spawned, sent) →
  Part000.walkTotal w = sent ++ flat_map Part000.walkTotal spawned.
Proof.
  destruct w as [path [data|[] entries]|path [|e rest]]; simpl;
    try (intros [= <- <-]; simpl; by rewrite ?app_nil_r).
  unfold Part000.visitEntry at 1. destruct (Main.descends e).
  - destruct e.2 as [data|r sub]; [intros [= <- <-]; simpl; by rewrite ?app_nil_r|].
    destruct (r && hasManifest sub)%bool; intros [= <- <-]; simpl; by rewrite ?app_nil_r.
  - destruct (String.eqb e.1 "package.json"); intros [= <- <-]; simpl; by rewrite ?app_nil_r.
Qed.

Lemma hasManifest_false (entries : list (string * node)) (e : string * node) :
  hasManifest entries = false → e ∈ entries → e.1 ≠ "package.json".
Proof.
  unfold hasManifest. intros H He Hname.
  induction entries as [|[n c] entries IH]; [by apply elem_of_nil in He|].
  cbn [os.entry] in H. destruct (String.eqb_spec "package.json" n) as [|Hne]; [discriminate H|].
  apply elem_of_cons in He as [->|He]; [by destruct Hne|by apply IH].
Qed.

Lemma sameIgnored_Dir (readable : bool) (entries : list (string * node)) :
  Part000.sameIgnored (Dir readable entries) = true ↔
  Forall (fun e => (isDir e.2 = true → Part002.ignored e.1 = true →
                    e.1 = "node_modules" ∨ e.1 = ".git")
                   ∧ Part000.sameIgnored e.2 = true) entries.
Proof.
  cbn [Part000.sameIgnored]. rewrite forallb_forall, Forall_forall.
  split; intros H e He.
  - apply list_elem_of_In, H, andb_true_iff in He as [Himp Hsub]. split; [|done].
    intros Hd Hi. rewrite Hd, Hi in Himp. simpl in Himp.
    apply orb_true_iff in Himp as [?%String.eqb_eq|?%String.eqb_eq]; [by left|by right].
  - apply list_elem_of_In, H in He as [Himp ->]. rewrite andb_true_r.
    destruct (isDir e.2); [|done]. destruct (Part002.ignored e.1); [|done].
    destruct (Himp eq_refl eq_refl) as [->| ->]; done.
Qed.

(** Below a directory that holds no manifest, on a tree without the names
    that only the last iteration ignores, both walks send the same paths in
    the same order. *)
Lemma Part000_findPackageJSON_agrees (dir : node) (path : string) :
  Part000.sameIgnored dir = true →
  (∀ readable entries, dir = Dir readable entries → hasManifest entries = false) →
  Part000.findPackageJSON path dir = Part002.findPackageJSON path dir.
Proof.
  revert path. induction dir as [data|readable entries IH] using node_entries_ind;
    intros path Hsame Hnone; [done|].
  specialize (Hnone _ _ eq_refl). destruct readable; [|done]. simpl. rewrite Hnone.
  apply sameIgnored_Dir in Hsame.
  pose proof (fun e => hasManifest_false entries e Hnone) as Hnames. clear Hnone.
  induction entries as [|e entries IHentries]; [done|].
  apply Forall_cons in IH as [IHe IH]. apply Forall_cons in Hsame as [[Himp Hsub] Hsame].
  simpl. rewrite IHentries; [|done..|by intros e' He'; apply Hnames; right]. f_equal.
  specialize (Hnames e (list_elem_of_here _ _)).
  unfold Part000.visitEntry, Part002.visitEntry, Main.descends.
  apply String.eqb_neq in Hnames as ->.
  destruct e.2 as [data|r sub] eqn:Hchild; [done|]. simpl.
  destruct (String.eqb_spec e.1 "node_modules") as [->|Hnm]; [done|].
  destruct (String.eqb_spec e.1 ".git") as [->|Hgit]; [done|]. simpl.
  destruct (Part002.ignored e.1) eqn:Hign.
  { destruct (Himp eq_refl eq_refl); done. }
  simpl. destruct r; [|done]. simpl.
  destruct (hasManifest sub) eqn:Hsubman; [done|].
  assert (∀ readable entries, Dir true sub = Dir readable entries → hasManifest entries = false)
    as Hnone by (by intros ? ? [= <- <-]).
  specialize (IHe (filepath.Join path e.1) Hsub Hnone).
  simpl in IHe. by rewrite Hsubman in IHe.
Qed.

(** X11.  The walk of unnamed/part_000 and the walk of the last iteration
    differ only by the larger ignore set and at a starting directory that
    itself holds a manifest.  Started on a directory without a manifest,
    on a tree where the only ignored directory names are node_modules and
    .git, every run of the one reports the manifests that every run of the
    other reports. *)
Theorem part_000_walk_agrees_with_last_walk (path : string) (readable : bool)
    (entries : list (string * node)) (found found' : list string) :
  Part000.sameIgnored (Dir readable entries) = true →
  hasManifest entries = false →
  completes Part000.walk [Spawned path (Dir readable entries)] found →
  completes Part002.walk [Spawned path (Dir readable entries)] found' →
  found ≡ₚ found'.
Proof.
  intros Hsame Hnone Hrun Hrun'.
  eapply (completes_total _ Part000.walkTotal) in Hrun.
  2:{ intros t sp sn Hf. by rewrite (Part000_walkTotal_fire _ _ _ Hf). }
  eapply (completes_total _ Part002.walkTotal) in Hrun'.
  2:{ intros t sp sn Hf. by rewrite (Part002_walkTotal_fire _ _ _ Hf). }
  rewrite Hrun, Hrun'. cbn [flat_map Part000.walkTotal Part002.walkTotal].
  rewrite Part000_findPackageJSON_agrees; [done|done|]. by intros ? ? [= <- <-].
Qed.

Lemma part_000_walk_agrees_with_last_walk_witness :
  ["apps/web/package.json"] ≡ₚ ["apps/web/package.json"].
Proof.
  apply (part_000_walk_agrees_with_last_walk "." true Fixtures.walkedEntries).
  - vm_compute. reflexivity.
  - vm_compute. reflexivity.
  - apply (schedule_run _ (replicate 40 0)). vm_compute. reflexivity.
  - apply (schedule_run _ (replicate 40 0)). vm_compute. reflexivity.
Defined.

(* ===================================================================== *)
(** * unnamed/part_000: a literal workspace is extracted twice *)
(* ===================================================================== *)

Lemma expandWorkspace_literal (fs : FS) (extract : string → Part000.outcome (list NpmScript))
    (filePath : string) (memberScripts : string → list NpmScript)
    (scripts : list NpmScript) (pattern : string) :
  Part000.literalMember fs extract filePath memberScripts pattern →
  Part000.expandWorkspace fs extract filePath scripts (AnyString pattern)
  = Part000.Done (scripts ++ memberScripts pattern ++ memberScripts pattern).
Proof.
  intros (Hlit & Hdir & Hman & Hextract). unfold Part000.expandWorkspace.
  rewrite Hlit. unfold Part000.appendIfPresent. rewrite Hman, Hextract. simpl.
  rewrite Hdir. by rewrite <- app_assoc.
Qed.

Lemma expandWorkspaces_literal (fs : FS) (extract : string → Part000.outcome (list NpmScript))
    (filePath : string) (memberScripts : string → list NpmScript)
    (scripts : list NpmScript) (patterns : list string) :
  Forall (Part000.literalMember fs extract filePath memberScripts) patterns →
  Part000.foldM (Part000.expandWorkspace fs extract filePath) (AnyString <$> patterns) scripts
  = Part000.Done
      (scripts ++ flat_map (fun p => memberScripts p ++ memberScripts p) patterns).
Proof.
  intros H. revert scripts. induction H as [|pattern patterns Hp _ IH]; intros scripts.
  - simpl. by rewrite app_nil_r.
  - rewrite fmap_cons. cbn [Part000.foldM].
    rewrite (expandWorkspace_literal _ _ _ memberScripts) by done.
    cbn [Part000.bind]. rewrite IH. simpl. by rewrite <- !app_assoc.
Qed.

(** X12.  Unnamed/part_000 extracts a literal workspace twice.  For a
    workspace pattern without a glob character the member's manifest is
    extracted by the pattern branch and again by the block "if workspace
    path exists", so the scripts of every such member are in the result
    two times. *)
Theorem part_000_extracts_literal_workspaces_twice (fs : FS) (filePath : string) (depth : nat)
    (byteValue : content) (packageJSON : list (string * any))
    (sent : option (list NpmScript)) (patterns : list string)
    (memberScripts : string → list NpmScript) :
  ReadFile fs filePath = Some byteValue →
  json_Unmarshal byteValue = Some packageJSON →
  scriptsOf filePath packageJSON = Some sent →
  mapaccess packageJSON "workspaces" = AnySlice (AnyString <$> patterns) →
  Forall (Part000.literalMember fs (Part000.extractScriptsFromPackageJSON depth fs)
            filePath memberScripts) patterns →
  Stat fs (filepath.Join (filepath.Dir filePath) "pnpm-workspace.yaml") = false →
  Part000.extractScriptsFromPackageJSON (S depth) fs filePath
  = Part000.Done
      (default [] sent ++ flat_map (fun p => memberScripts p ++ memberScripts p) patterns).
Proof.
  intros Hread Hjson Hscripts Hws Hmembers Hpnpm.
  cbn [Part000.extractScriptsFromPackageJSON].
  rewrite Hread, Hjson, Hscripts, Hws.
  rewrite (expandWorkspaces_literal _ _ _ memberScripts) by done.
  cbn [Part000.bind]. by rewrite Hpnpm.
Qed.

Lemma part_000_extracts_literal_workspaces_twice_witness :
  Part000.extractScriptsFromPackageJSON 2
    (mount (Fixtures.monorepo (Fixtures.arrayForm ["pkgs/foo"; "pkgs/bar"]))) "package.json"
  = Part000.Done [Fixtures.fooBuild; Fixtures.fooBuild; Fixtures.barTest; Fixtures.barTest].
Proof.
  eapply (part_000_extracts_literal_workspaces_twice
           (mount (Fixtures.monorepo (Fixtures.arrayForm ["pkgs/foo"; "pkgs/bar"])))
           "package.json" 1 _ _ None ["pkgs/foo"; "pkgs/bar"]
           (fun p => if String.eqb p "pkgs/foo" then [Fixtures.fooBuild]
                     else [Fixtures.barTest])).
  - vm_compute. reflexivity.
  - vm_compute. reflexivity.
  - vm_compute. reflexivity.
  - vm_compute. reflexivity.
  - repeat constructor; vm_compute; reflexivity.
  - vm_compute. reflexivity.
Defined.

(* ===================================================================== *)
(** * [locatePnpmWorkspaces]: what it returns exists *)
(* ===================================================================== *)

Lemma processIncludes_existing (fs : FS) (patterns : list string)
    (matchesSet included : gset string) :
  (∀ m, m ∈ matchesSet → Stat fs m = true) →
  processIncludes fs patterns matchesSet = Ok included →
  ∀ m, m ∈ included → Stat fs m = true.
Proof.
  revert matchesSet. induction patterns as [|pattern patterns IH]; intros matchesSet Hset.
  - by intros [= <-].
  - simpl. destruct (Glob fs pattern) as [found|]; [|done].
    apply IH. intros m [Hm|[_ Hm]]%addMatches_elem; [by apply Hset|done].
Qed.

Lemma processExcludes_subset (fs : FS) (patterns : list string)
    (matchesSet kept : gset string) :
  processExcludes fs patterns matchesSet = Ok kept → ∀ m, m ∈ kept → m ∈ matchesSet.
Proof.
  revert matchesSet. induction patterns as [|pattern patterns IH]; intros matchesSet.
  - by intros [= <-].
  - simpl. destruct (Glob fs pattern) as [found|]; [|done].
    intros H m Hm. by apply (IH _ H), removeMatches_elem in Hm as [? _].
Qed.

(** X13.  [locatePnpmWorkspaces] returns only paths that exist, and none of
    them twice, whatever the patterns of pnpm-workspace.yaml and whatever
    [filepath.Glob] answers for them. *)
Theorem pnpm_workspaces_located_exist (fs : FS) (pnpmWorkspaceRoot : string)
    (found : list string) :
  locatePnpmWorkspaces fs pnpmWorkspaceRoot = Ok found →
  NoDup found ∧ Forall (fun m => Stat fs m = true) found.
Proof.
  unfold locatePnpmWorkspaces.
  destruct (ReadFile fs _) as [data|]; [|done].
  destruct (yaml_Unmarshal data) as [packages|]; [|done].
  destruct (processIncludes fs _ ∅) as [included|] eqn:Hinc; [|done].
  destruct (processExcludes fs _ included) as [kept|] eqn:Hexc; [|done].
  intros [= <-]. split; [apply NoDup_elements|].
  apply Forall_forall. intros m Hm%elem_of_elements.
  apply (processExcludes_subset _ _ _ _ Hexc) in Hm.
  by apply (processIncludes_existing _ _ _ _ (fun m (H : m ∈ (∅ : gset string)) =>
                                               False_ind _ (not_elem_of_empty m H)) Hinc).
Qed.

Lemma pnpm_workspaces_located_exist_witness :
  NoDup ["apps/a"; "apps/b"]
  ∧ Forall (fun m => Stat (mount (Fixtures.pnpmWorkspace ["apps/*"; "!apps/legacy"])) m = true)
      ["apps/a"; "apps/b"].
Proof.
  apply (pnpm_workspaces_located_exist
           (mount (Fixtures.pnpmWorkspace ["apps/*"; "!apps/legacy"])) ".").
  vm_compute. reflexivity.
Defined.

(* ===================================================================== *)
(** * Every schedule ends *)
(* ===================================================================== *)

Lemma pool_steps_not_crashed {T E : Type} (fire : T → option (list T * list E))
    (n : nat) (pending : list T) (received : list E) (s : pool (T:=T) (E:=E)) :
  (∀ t, fire t ≠ None) →
  nsteps (pool_step fire) n (Running pending received) s → s ≠ Crashed.
Proof.
  intros Htotal Hrun ->. destruct n as [|n]; [by inversion Hrun|].
  apply nsteps_inv_r in Hrun as (y & _ & Hstep).
  inversion Hstep as [|before t after rec Hfire]; subst. by apply (Htotal t).
Qed.

(** X14.  The walk of the last iteration ends under every schedule, and never
    in a panic: a run from the starting directory takes at most two steps
    for every node of the tree below it, and one more. *)
Theorem walk_ends_under_every_schedule (w : filesystem) (rootPath : string) (dir : node)
    (n : nat) (s : pool (T:=walker) (E:=string)) :
  os.resolve w rootPath = Some dir →
  nsteps (pool_step Part002.walk) n (Running (Part002.rootWalkers w rootPath) []) s →
  n ≤ 2 * size dir + 1 ∧ s ≠ Crashed.
Proof.
  intros Hres Hrun. split.
  - apply Part002_walk_terminates in Hrun. unfold Part002.rootWalkers in Hrun.
    rewrite Hres in Hrun. simpl in Hrun. lia.
  - eapply pool_steps_not_crashed; [|apply Hrun].
    intros t. by destruct (Part002_walk_total t) as (? & ? & ->).
Qed.

Lemma walk_ends_under_every_schedule_witness :
  1 ≤ 2 * size (Dir true Fixtures.walkedEntries) + 1
  ∧ Running [Ranging "." Fixtures.walkedEntries] (@nil string) ≠ Crashed.
Proof.
  apply (walk_ends_under_every_schedule Fixtures.walked ".").
  - vm_compute. reflexivity.
  - apply nsteps_once.
    apply (pool_fire Part002.walk [] (Spawned "." (Dir true Fixtures.walkedEntries)) []
             [] [Ranging "." Fixtures.walkedEntries] [] []); [reflexivity|done].
Defined.


Lemma extractWeight_members (fs : FS) (filepaths : list string) :
  sum_list (Part002.extractWeight fs <$> ((fun p => (p, false)) <$> filepaths))
  ≤ sum_list ((fun p => S (length (Part002.members fs p))) <$> filepaths).
Proof.
  induction filepaths as [|p filepaths IH]; [done|].
  rewrite !fmap_cons. cbn [sum_list sum_list_with].
  assert (Part002.extractWeight fs (p, false) ≤ S (length (Part002.members fs p))) as Hp;
    [|apply Nat.add_le_mono; [exact Hp|exact IH]].
  unfold Part002.extractWeight.
  destruct (Part002.extractScriptsFromPackageJSON fs (p, false))
    as [[spawned scripts]|] eqn:Hf; [|lia].
  rewrite (extraction_spawns_members _ _ _ _ Hf), length_fmap. lia.
Qed.

(** X15.  The extraction of the last iteration ends under every schedule.  A
    run over the located manifests takes at most one step for each of them
    and one for each member it spawns an extraction for, and one more:
    [isLeaf] keeps a member from spawning. *)
Theorem extraction_ends_under_every_schedule (fs : FS) (filepaths : list string) (n : nat)
    (s : pool (T:=Part002.task) (E:=NpmScript)) :
  nsteps (pool_step (Part002.extractScriptsFromPackageJSON fs)) n
    (Running ((fun p => (p, false)) <$> filepaths) []) s →
  n ≤ S (sum_list ((fun p => S (length (Part002.members fs p))) <$> filepaths)).
Proof.
  intros Hrun. apply Part002_extraction_terminates in Hrun.
  pose proof (extractWeight_members fs filepaths). lia.
Qed.

Lemma extraction_ends_under_every_schedule_witness :
  1 ≤ S (sum_list ((fun p => S (length (Part002.members
                                          (mount (Fixtures.monorepo (Fixtures.objectForm ["pkgs/*"]))) p)))
                     <$> ["package.json"])).
Proof.
  apply (extraction_ends_under_every_schedule
           (mount (Fixtures.monorepo (Fixtures.objectForm ["pkgs/*"]))) ["package.json"] 1
           (Running [("pkgs/bar/package.json", true); ("pkgs/foo/package.json", true)] [])).
  apply nsteps_once.
  apply (pool_fire _ [] ("package.json", false) [] []
           [("pkgs/bar/package.json", true); ("pkgs/foo/package.json", true)] [] []);
    [vm_compute; reflexivity|done].
Defined.

(* ===================================================================== *)
(** * [runScript] *)
(* ===================================================================== *)





(* ===================================================================== *)
(** * The members the [workspaces] declaration gives *)
(* ===================================================================== *)

(** The state of the pattern loop against the candidates seen so far:
    [knownWorkspaces] holds them all, the spawned list those that exist. *)
Lemma visit_seen (fs : FS) (st : gset string * list string) (p : string)
    (seen : string → Prop) :
  (∀ m, m ∈ st.1 ↔ seen m) → (∀ m, m ∈ st.2 ↔ seen m ∧ Stat fs m = true) →
  (∀ m, m ∈ (Part002.visit fs st p).1 ↔ seen m ∨ m = p)
  ∧ (∀ m, m ∈ (Part002.visit fs st p).2 ↔ (seen m ∨ m = p) ∧ Stat fs m = true).
Proof.
  intros Hknown Hspawned. unfold Part002.visit. case_bool_decide as Hp.
  - apply Hknown in Hp. split; intros m.
    + rewrite Hknown. split; [by left|]. by intros [?| ->].
    + rewrite Hspawned. split; [intros [? ?]; by split; [left|]|].
      intros [[?| ->] ?]; by split.
  - simpl. split; intros m.
    + rewrite elem_of_union, elem_of_singleton, Hknown. tauto.
    + destruct (Stat fs p) eqn:Hstat.
      * rewrite elem_of_app, list_elem_of_singleton, Hspawned. split.
        -- intros [[? ?]| ->]; by split; [left + right|].
        -- intros [[?| ->] ?]; [left|right]; done.
      * rewrite Hspawned. split; [intros [? ?]; by split; [left|]|].
        intros [[?| ->] ?]; [by split|congruence].
Qed.

Lemma seen_proper (st : gset string * list string) (fs : FS) (seen seen' : string → Prop) :
  (∀ m, seen m ↔ seen' m) →
  (∀ m, m ∈ st.1 ↔ seen m) ∧ (∀ m, m ∈ st.2 ↔ seen m ∧ Stat fs m = true) →
  (∀ m, m ∈ st.1 ↔ seen' m) ∧ (∀ m, m ∈ st.2 ↔ seen' m ∧ Stat fs m = true).
Proof. intros Heq [H1 H2]. split; intros m; rewrite <- Heq; [apply H1|apply H2]. Qed.

Lemma visits_seen (fs : FS) (found : list string) (st : gset string * list string)
    (seen : string → Prop) :
  (∀ m, m ∈ st.1 ↔ seen m) ∧ (∀ m, m ∈ st.2 ↔ seen m ∧ Stat fs m = true) →
  let st' := fold_left (fun st d => Part002.visit fs st (filepath.Join d "package.json"))
               found st in
  let seen' m := seen m ∨ ∃ d, d ∈ found ∧ m = filepath.Join d "package.json" in
  (∀ m, m ∈ st'.1 ↔ seen' m) ∧ (∀ m, m ∈ st'.2 ↔ seen' m ∧ Stat fs m = true).
Proof.
  revert st seen. induction found as [|d found IH]; intros st seen [H1 H2]; simpl.
  - apply (seen_proper _ _ seen); [|done]. intros m. split; [by left|].
    by intros [?|(? & ?%elem_of_nil & _)].
  - eapply seen_proper; [|apply IH, (visit_seen _ _ _ seen); done].
    intros m. simpl. split.
    + intros [[?| ->]|(d' & Hd' & ->)]; [by left|right..].
      * exists d. split; [left|done].
      * exists d'. split; [by right|done].
    + intros [?|(d' & [->|Hd']%elem_of_cons & ->)]; [by left; left|by left; right|].
      right. by exists d'.
Qed.

Lemma expandPattern_seen (fs : FS) (filePath pattern : string)
    (st : gset string * list string) (seen : string → Prop) :
  (∀ m, m ∈ st.1 ↔ seen m) ∧ (∀ m, m ∈ st.2 ↔ seen m ∧ Stat fs m = true) →
  let st' := Part002.expandPattern fs filePath st pattern in
  let seen' m := seen m ∨ Part002.candidateOf fs filePath pattern m in
  (∀ m, m ∈ st'.1 ↔ seen' m) ∧ (∀ m, m ∈ st'.2 ↔ seen' m ∧ Stat fs m = true).
Proof.
  intros H. unfold Part002.expandPattern, Part002.candidateOf. simpl.
  destruct (strings.ContainsAny pattern "*?[").
  - destruct (Glob fs _) as [found|] eqn:Hglob.
    + eapply seen_proper; [|by apply visits_seen]. intros m. simpl. split.
      * intros [?|(d & Hd & ->)]; [by left|]. right. by exists found, d.
      * intros [?|(found' & d & [= <-] & Hd & ->)]; [by left|]. right. by exists d.
    + eapply seen_proper; [|apply H]. intros m. split; [by left|].
      by intros [?|(? & ? & ? & _)].
  - destruct H as [H1 H2]. by apply visit_seen.
Qed.

Lemma expandPatterns_seen (fs : FS) (filePath : string) (patterns : list string)
    (st : gset string * list string) (seen : string → Prop) :
  (∀ m, m ∈ st.1 ↔ seen m) ∧ (∀ m, m ∈ st.2 ↔ seen m ∧ Stat fs m = true) →
  let st' := fold_left (Part002.expandPattern fs filePath) patterns st in
  let seen' m := seen m ∨ ∃ pattern, pattern ∈ patterns
                                     ∧ Part002.candidateOf fs filePath pattern m in
  (∀ m, m ∈ st'.1 ↔ seen' m) ∧ (∀ m, m ∈ st'.2 ↔ seen' m ∧ Stat fs m = true).
Proof.
  revert st seen. induction patterns as [|pattern patterns IH]; intros st seen H; simpl.
  - eapply seen_proper; [|apply H]. intros m. split; [by left|].
    by intros [?|(? & ?%elem_of_nil & _)].
  - eapply seen_proper; [|apply IH, expandPattern_seen, H].
    intros m. simpl. split.
    + intros [[?|?]|(p & Hp & ?)]; [by left|right..].
      * exists pattern. split; [left|done].
      * exists p. split; [by right|done].
    + intros [?|(p & [->|Hp]%elem_of_cons & ?)]; [by left; left|by left; right|].
      right. by exists p.
Qed.

(** X17.  The members of a [workspaces] declaration.  The pattern loop spawns
    an extraction for exactly the manifests that exist and that a pattern
    leads to: below the pattern's own path for a pattern without a glob
    character, below a match of [filepath.Glob] for one with; a pattern
    that [filepath.Glob] rejects leads to none. *)
Theorem workspace_members_are_the_existing_candidates (fs : FS) (filePath : string)
    (patterns : list string) (m : string) :
  m ∈ Part002.workspaceMembers fs filePath patterns
  ↔ Stat fs m = true
    ∧ ∃ pattern, pattern ∈ patterns ∧ Part002.candidateOf fs filePath pattern m.
Proof.
  unfold Part002.workspaceMembers.
  destruct (expandPatterns_seen fs filePath patterns (∅, []) (fun _ => False)) as [_ H].
  { split; intros x; simpl; [by rewrite elem_of_empty|].
    rewrite elem_of_nil. tauto. }
  simpl in H. rewrite H. tauto.
Qed.

Lemma workspace_members_are_the_existing_candidates_witness :
  "pkgs/foo/package.json"
    ∈ Part002.workspaceMembers (mount (Fixtures.monorepo (Fixtures.objectForm ["pkgs/*"])))
        "package.json" ["pkgs/*"].
Proof.
  apply (workspace_members_are_the_existing_candidates
           (mount (Fixtures.monorepo (Fixtures.objectForm ["pkgs/*"])))
           "package.json" ["pkgs/*"] "pkgs/foo/package.json").
  split; [vm_compute; reflexivity|].
  exists "pkgs/*". split; [left|].
  exists ["pkgs/bar"; "pkgs/foo"], "pkgs/foo".
  split; [vm_compute; reflexivity|]. split; [right; left|vm_compute; reflexivity].
Defined.

(* ===================================================================== *)
(** * The first iteration: its catalog *)
(* ===================================================================== *)

Lemma Main_extractor_leaf (fs : FS) (filePath : string)
    (spawned : list string) (scripts : list NpmScript) :
  Main.extractor fs filePath = Some (spawned, scripts) →
  Part002.extractScriptsFromPackageJSON fs (filePath, true) = Some ([], scripts).
Proof.
  unfold Main.extractor, Main.extractScriptsFromPackageJSON,
    Part002.extractScriptsFromPackageJSON.
  destruct (ReadFile fs filePath) as [byteValue|]; [|by intros [= <- <-]].
  destruct (json_Unmarshal byteValue) as [packageJSON|]; [|by intros [= <- <-]].
  destruct (scriptsOf filePath packageJSON); [|done]. by intros [= <- <-].
Qed.

(** X18.  The catalog of the first iteration is what the manifests it found
    declare: under every schedule, an entry is in the catalog exactly when
    a manifest reported by the walk declares it. *)
Theorem first_catalog_is_what_found_manifests_declare (w : filesystem) (searchPath : string)
    (allScripts : list NpmScript) (s : NpmScript) :
  Main.discovers w searchPath allScripts →
  s ∈ allScripts
  ↔ ∃ p, p ∈ Main.findPackageJSONPathsConcurrent w searchPath ∧ declares (mount w) p s.
Proof.
  intros (filepaths & Hwalk & _ & Hextract).
  apply Main_walk_completes in Hwalk.
  pose proof (pool_steps_no_panic _ _ _ _ Hextract) as Hnp.
  eapply (completes_total _ (Main.extractTotal (mount w))) in Hextract.
  2:{ intros t sp sc Hf. unfold Main.extractTotal. rewrite Hf.
      apply Main_extractor_leaf in Hf as Hleaf.
      unfold Main.extractor in Hf.
      destruct (Main.extractScriptsFromPackageJSON (mount w) t) as [[?|?]|];
        [injection Hf as <- <-|injection Hf as <- <-|done]; simpl; by rewrite ?app_nil_r. }
  rewrite Hextract, list_elem_of_In, in_flat_map.
  split.
  - intros (p & Hp & Hs). exists p. rewrite <- Hwalk. split; [by apply list_elem_of_In|].
    apply list_elem_of_In in Hs. unfold Main.extractTotal in Hs.
    destruct (Main.extractor (mount w) p) as [[sp sc]|] eqn:Hf; [|by apply elem_of_nil in Hs].
    apply Main_extractor_leaf in Hf.
    by apply (extraction_sends_declared _ _ _ _ Hf).
  - intros (p & Hp & Hd). rewrite <- Hwalk in Hp. exists p.
    split; [by apply list_elem_of_In|]. apply list_elem_of_In.
    specialize (Hnp p Hp). unfold Main.extractTotal.
    destruct (Main.extractor (mount w) p) as [[sp sc]|] eqn:Hf; [|done].
    apply Main_extractor_leaf in Hf.
    by apply (extraction_sends_declared _ _ _ _ Hf).
Qed.

Lemma first_catalog_is_what_found_manifests_declare_witness :
  entryOf "foo" "./pkgs/foo/package.json" ("build", "tsc")
    ∈ [entryOf "bar" "./pkgs/bar/package.json" ("test", "jest");
       entryOf "foo" "./pkgs/foo/package.json" ("build", "tsc")]
  ↔ ∃ p, p ∈ Main.findPackageJSONPathsConcurrent (Fixtures.monorepo JNull) "."
         ∧ declares (mount (Fixtures.monorepo JNull)) p
             (entryOf "foo" "./pkgs/foo/package.json" ("build", "tsc")).
Proof.
  apply (first_catalog_is_what_found_manifests_declare (Fixtures.monorepo JNull) ".").
  exists ["./package.json"; "./pkgs/bar/package.json"; "./pkgs/foo/package.json"].
  split; [|split; [done|]].
  - apply (schedule_run _ (replicate 40 0)). vm_compute. reflexivity.
  - apply (schedule_run _ (replicate 40 0)). vm_compute. reflexivity.
Defined.


(** X19.  The catalog of the first iteration does not depend on the schedule
    either: two runs on the same tree from the same search path collect the
    same entries, each as many times in one as in the other. *)
Theorem first_iteration_runs_agree (w : filesystem) (searchPath : string)
    (run1 run2 : list NpmScript) :
  Main.discovers w searchPath run1 → Main.discovers w searchPath run2 → run1 ≡ₚ run2.
Proof. apply Main_runs_agree. Qed.

Lemma first_iteration_runs_agree_witness :
  [entryOf "bar" "./pkgs/bar/package.json" ("test", "jest");
   entryOf "foo" "./pkgs/foo/package.json" ("build", "tsc")]
  ≡ₚ [entryOf "foo" "./pkgs/foo/package.json" ("build", "tsc");
      entryOf "bar" "./pkgs/bar/package.json" ("test", "jest")].
Proof.
  apply (first_iteration_runs_agree (Fixtures.monorepo JNull) ".").
  - exists ["./package.json"; "./pkgs/bar/package.json"; "./pkgs/foo/package.json"].
    split; [|split; [done|]].
    + apply (schedule_run _ (replicate 40 0)). vm_compute. reflexivity.
    + apply (schedule_run _ (replicate 40 0)). vm_compute. reflexivity.
  - exists ["./package.json"; "./pkgs/bar/package.json"; "./pkgs/foo/package.json"].
    split; [|split; [done|]].
    + apply (schedule_run _ (replicate 40 0)). vm_compute. reflexivity.
    + apply (schedule_run _ [2; 0; 0]). vm_compute. reflexivity.
Defined.

(** X20.  Unnamed/part_000 does not return on a manifest that lists its own
    directory.  When the first workspace of a manifest is a pattern without
    a glob character that leads back to the manifest itself, the call
    calls itself on the same path before anything else, at every depth. *)
Theorem part_000_never_returns_on_self_reference (fs : FS) (filePath : string)
    (byteValue : content) (packageJSON : list (string * any))
    (sent : option (list NpmScript)) (pattern : string) (rest : list any) (depth : nat) :
  ReadFile fs filePath = Some byteValue →
  json_Unmarshal byteValue = Some packageJSON →
  scriptsOf filePath packageJSON = Some sent →
  mapaccess packageJSON "workspaces" = AnySlice (AnyString pattern :: rest) →
  strings.ContainsAny pattern "*?[" = false →
  filepath.Join (filepath.Join (filepath.Dir filePath) pattern) "package.json" = filePath →
  Stat fs filePath = true →
  Part000.extractScriptsFromPackageJSON depth fs filePath = Part000.Overflowed.
Proof. intros. by eapply Part000_self_reference_overflows. Qed.

Lemma part_000_never_returns_on_self_reference_witness :
  Part000.extractScriptsFromPackageJSON 1000
    (mount (Fixtures.selfReferring (Fixtures.arrayForm ["."]))) "package.json"
  = Part000.Overflowed.
Proof.
  eapply (part_000_never_returns_on_self_reference
            (mount (Fixtures.selfReferring (Fixtures.arrayForm ["."]))) "package.json"
            _ _ _ "." [] 1000); vm_compute; reflexivity.
Defined.

(* ===================================================================== *)
(** * When [locatePnpmWorkspaces] succeeds, and when there is no catalog *)
(* ===================================================================== *)

Lemma processIncludes_Ok_globs (fs : FS) (patterns : list string)
    (matchesSet included : gset string) :
  processIncludes fs patterns matchesSet = Ok included →
  ∀ p, p ∈ patterns → Glob fs p ≠ None.
Proof.
  revert matchesSet. induction patterns as [|pattern patterns IH]; intros matchesSet H p Hp.
  - by apply elem_of_nil in Hp.
  - simpl in H. destruct (Glob fs pattern) as [found|] eqn:Hglob; [|done].
    apply elem_of_cons in Hp as [->|Hp]; [congruence|by eapply IH].
Qed.

Lemma processExcludes_Ok_globs (fs : FS) (patterns : list string)
    (matchesSet kept : gset string) :
  processExcludes fs patterns matchesSet = Ok kept →
  ∀ p, p ∈ patterns → Glob fs p ≠ None.
Proof.
  revert matchesSet. induction patterns as [|pattern patterns IH]; intros matchesSet H p Hp.
  - by apply elem_of_nil in Hp.
  - simpl in H. destruct (Glob fs pattern) as [found|] eqn:Hglob; [|done].
    apply elem_of_cons in Hp as [->|Hp]; [congruence|by eapply IH].
Qed.

(** X21.  When [locatePnpmWorkspaces] succeeds.  It returns a list exactly
    when pnpm-workspace.yaml can be read, is YAML, and [filepath.Glob]
    accepts every inclusion and every exclusion pattern made from it; in
    every other case it returns an error and no list. *)
Theorem pnpm_workspaces_located_exactly_when_patterns_are_good (fs : FS)
    (pnpmWorkspaceRoot : string) :
  (∃ found, locatePnpmWorkspaces fs pnpmWorkspaceRoot = Ok found)
  ↔ ∃ data packages,
      ReadFile fs (pnpmWorkspaceRoot +:+ "/pnpm-workspace.yaml") = Some data
      ∧ yaml_Unmarshal data = Some packages
      ∧ ∀ p, p ∈ includePatterns pnpmWorkspaceRoot packages
                 ++ excludePatterns pnpmWorkspaceRoot packages → Glob fs p ≠ None.
Proof.
  unfold locatePnpmWorkspaces. split.
  - intros [found H].
    destruct (ReadFile fs _) as [data|]; [|done].
    destruct (yaml_Unmarshal data) as [packages|] eqn:Hyaml; [|done].
    destruct (processIncludes fs _ ∅) as [included|] eqn:Hinc; [|done].
    destruct (processExcludes fs _ included) as [kept|] eqn:Hexc; [|done].
    exists data, packages. split; [done|]. split; [done|].
    intros p [Hp|Hp]%elem_of_app.
    + by apply (processIncludes_Ok_globs _ _ _ _ Hinc).
    + by apply (processExcludes_Ok_globs _ _ _ _ Hexc).
  - intros (data & packages & -> & -> & Hglob).
    destruct (processIncludes_ok fs (includePatterns pnpmWorkspaceRoot packages) ∅)
      as (included & -> & _).
    { intros p Hp. apply Hglob, elem_of_app. by left. }
    destruct (processExcludes_ok fs (excludePatterns pnpmWorkspaceRoot packages) included)
      as (kept & -> & _).
    { intros p Hp. apply Hglob, elem_of_app. by right. }
    by eexists.
Qed.

(** X22.  No manifest, no catalog.  When the walk of the last iteration
    reports nothing, because the search path does not exist or because no
    package root is within reach, no run gets as far as a catalog: [main]
    prints "No package.json files found." and exits. *)
Theorem no_manifest_no_catalog (w : filesystem) (searchPath : string)
    (allScripts : list NpmScript) :
  Part002.findProjectRootPackageJSONPathsConcurrent w searchPath = [] →
  ¬ Part002.discovers w searchPath allScripts.
Proof.
  intros Hnone (located & Hwalk & Hne & _). apply Part002_walk_completes in Hwalk.
  rewrite Hnone in Hwalk. by apply Permutation_nil_r in Hwalk.
Qed.

Lemma no_manifest_no_catalog_witness :
  ¬ Part002.discovers Fixtures.walked "missing" [].
Proof.
  apply (no_manifest_no_catalog Fixtures.walked "missing" []). vm_compute. reflexivity.
Defined.

Lemma sends_flag (fs : FS) (filePath : string) :
  Part002.sends fs (filePath, false) = Part002.sends fs (filePath, true).
Proof.
  unfold Part002.sends, Part002.extractScriptsFromPackageJSON.
  destruct (ReadFile fs filePath) as [byteValue|]; [|done].
  destruct (json_Unmarshal byteValue) as [packageJSON|]; [|done].
  by destruct (scriptsOf filePath packageJSON).
Qed.

(** X23.  One copy per route.  The catalog of a run of the last iteration
    is, up to the order of arrival, the scripts of every located manifest,
    each followed by the scripts of every member it spawns an extraction
    for: a manifest reached on several routes is in the catalog once for
    each. *)
Theorem catalog_has_one_copy_per_route (w : filesystem) (searchPath : string)
    (allScripts : list NpmScript) :
  Part002.discovers w searchPath allScripts →
  allScripts
  ≡ₚ flat_map (fun p => Part002.sends (mount w) (p, true)
                        ++ flat_map (fun m => Part002.sends (mount w) (m, true))
                             (Part002.members (mount w) p))
       (Part002.findProjectRootPackageJSONPathsConcurrent w searchPath).
Proof.
  intros (located & Hwalk & _ & Hextract).
  apply Part002_walk_completes in Hwalk. rewrite <- Hwalk.
  pose proof (pool_steps_no_panic _ _ _ _ Hextract) as Hnp.
  eapply (completes_total _ (Part002.extractTotal (mount w))) in Hextract.
  2:{ intros t sp sc Hf. by rewrite (Part002_extractTotal_fire _ _ _ _ Hf). }
  rewrite Hextract. clear Hextract Hwalk.
  induction located as [|p located IH]; [done|].
  rewrite fmap_cons. cbn [flat_map]. rewrite IH.
  2:{ intros t Ht. apply Hnp. rewrite fmap_cons. by right. }
  apply Permutation_app_tail.
  assert ((p, false) ∈ (fun p => (p, false)) <$> p :: located) as Hp
    by (rewrite fmap_cons; left).
  specialize (Hnp _ Hp). rewrite <- sends_flag.
  destruct (Part002.extractScriptsFromPackageJSON (mount w) (p, false))
    as [[spawned scripts]|] eqn:Hf; [|done].
  assert (Part002.sends (mount w) (p, false) = scripts) as ->
    by (unfold Part002.sends; by rewrite Hf).
  unfold Part002.extractTotal. rewrite Hf.
  rewrite (extraction_spawns_members _ _ _ _ Hf).
  apply Permutation_app_head.
  assert (∀ ms, flat_map (Part002.sends (mount w)) ((fun p => (p, true)) <$> ms)
                = flat_map (fun m => Part002.sends (mount w) (m, true)) ms) as ->; [|done].
  intros ms0. induction ms0 as [|m ms IHms]; [done|].
  rewrite fmap_cons. cbn [flat_map]. by rewrite IHms.
Qed.

Lemma catalog_has_one_copy_per_route_witness :
  [Fixtures.aStart; Fixtures.bTest; Fixtures.bTest]
  ≡ₚ flat_map (fun p => Part002.sends (mount Fixtures.siblings) (p, true)
                        ++ flat_map (fun m => Part002.sends (mount Fixtures.siblings) (m, true))
                             (Part002.members (mount Fixtures.siblings) p))
       (Part002.findProjectRootPackageJSONPathsConcurrent Fixtures.siblings ".").
Proof.
  apply (catalog_has_one_copy_per_route Fixtures.siblings ".").
  exists ["a/package.json"; "b/package.json"]. split; [|split; [done|]].
  - apply (schedule_run _ (replicate 10 0)). vm_compute. reflexivity.
  - apply (schedule_run _ [0; 0; 0]). vm_compute. reflexivity.
Defined.
